(** * dob: time reconciliation of imported and saved facts

    A shallow embedding of the import path of [dob/transcode.py]
    (relative-time resolution, blank filling, the datetime sanity pass and
    the abort-before-store-check rule) and of the save path of
    [dob/create.py] (confirmation of edits, saving, the batch save loop
    with its [other_edits] bookkeeping).

    Python objects that are mutated in place are modelled by explicit state
    passing; objects that are referred to again later (the facts named in a
    conflict tuple, the facts of a save batch) are modelled by references. *)

From stdpp Require Import gmap strings list.
From Stdlib Require Import ZArith Lia Sorted Ascii.

Local Open Scope Z_scope.
Set Default Proof Using "Type".

(** ** Python values and exceptions *)

(** The exceptions the modelled code can end with. [SystemExit] is what
    [barf_and_exit] and [dob_in_user_exit] end the process with;
    [OverflowError] is what [timedelta(...)] and the addition of a
    [timedelta] to a [datetime] raise out of range. *)
Inductive exn :=
| AssertionError | TypeError | KeyError | ValueError | OverflowError | SystemExit.

Inductive result (A : Type) : Type :=
| Ok (a : A)
| Raise (e : exn).
Arguments Ok {A} a.
Arguments Raise {A} e.

Definition rbind {A B} (r : result A) (k : A -> result B) : result B :=
  match r with
  | Ok a => k a
  | Raise e => Raise e
  end.

Declare Scope result_scope.
Delimit Scope result_scope with result.
Notation "x <- r ;; k" := (rbind r (fun x => k))
  (at level 100, r at next level, right associativity) : result_scope.

(** A naive [datetime] is counted in microseconds (the resolution of
    Python's [datetime]) from [datetime.min], 0001-01-01T00:00:00;
    [datetime.max] is 9999-12-31T23:59:59.999999, the last microsecond of
    day 3652059. A [timedelta] is a number of microseconds between
    [timedelta.min] (-999999999 days) and [timedelta.max] (999999999 days,
    23:59:59.999999). *)
Definition datetime := Z.

Definition datetime_min : Z := 0.
Definition datetime_max : Z := 315537897599999999.
Definition timedelta_min : Z := -86399999913600000000.
Definition timedelta_max : Z := 86399999999999999999.

(** [timedelta(minutes=m)], in microseconds; out of range it raises
    [OverflowError]. *)
Definition timedelta_minutes (m : Z) : result Z :=
  let delta := m * 60000000 in
  if (timedelta_min <=? delta) && (delta <=? timedelta_max) then Ok delta
  else Raise OverflowError.

(** [d + delta] for a datetime and a timedelta; a sum that is no datetime
    raises [OverflowError]. *)
Definition datetime_add (d : datetime) (delta : Z) : result datetime :=
  let t := d + delta in
  if (datetime_min <=? t) && (t <=? datetime_max) then Ok t
  else Raise OverflowError.

(** What a time field of a [Fact] (and the running [prev_time]) can hold:
    [None], a [datetime], or text still to be resolved. *)
Inductive timeval :=
| TNone
| TDatetime (dt : datetime)
| TText (s : string).

(** Python truthiness: [None] and the empty string are falsy. *)
Definition truthy (v : timeval) : bool :=
  match v with
  | TNone => false
  | TDatetime _ => true
  | TText s => negb (String.eqb s "")
  end.

(** [a < b] and [a > b] on these values in Python 3: two datetimes or two
    strings compare, anything else raises [TypeError]. *)
Definition py_lt (a b : timeval) : result bool :=
  match a, b with
  | TDatetime x, TDatetime y => Ok (x <? y)
  | TText x, TText y => Ok (String.ltb x y)
  | _, _ => Raise TypeError
  end.

Definition py_gt (a b : timeval) : result bool := py_lt b a.

(** [t + timedelta(minutes=m)]: the timedelta is made first, and only a
    datetime can be added to. *)
Definition plus_minutes (t : timeval) (m : Z) : result datetime :=
  (delta <- timedelta_minutes m;;
   match t with
   | TDatetime d => datetime_add d delta
   | _ => Raise TypeError
   end)%result.

Arguments plus_minutes : simpl never.

(** ** Facts *)

Record Fact := mkFact {
  pk : option Z;
  start : timeval;
  end_ : timeval;
  deleted : bool;
  dirty_reasons : list string;
}.

(** The attribute names used with [getattr] and [setattr]. *)
Inductive which := Wstart | Wend.

Definition which_name (w : which) : string :=
  match w with
  | Wstart => "start"
  | Wend => "end"
  end.

Definition getattr (fact : Fact) (w : which) : timeval :=
  match w with
  | Wstart => start fact
  | Wend => end_ fact
  end.

Definition setattr (fact : Fact) (w : which) (v : timeval) : Fact :=
  match w with
  | Wstart => mkFact (pk fact) v (end_ fact) (deleted fact) (dirty_reasons fact)
  | Wend => mkFact (pk fact) (start fact) v (deleted fact) (dirty_reasons fact)
  end.

Arguments setattr : simpl never.

Definition at_oppo (w : which) : which :=
  match w with
  | Wstart => Wend
  | Wend => Wstart
  end.

Inductive time_hint :=
| verify_none | verify_start | verify_end | verify_both
| verify_then | verify_still | verify_after | verify_last.

(** * The import path ([dob/transcode.py]) *)

Module Transcode.

(** The objects a conflict tuple can name: the i-th fact of [new_facts], or
    one of the two stored facts that bound the batch. Python compares them
    with [is]; here the reference is compared. *)
Inductive fact_ref :=
| NewFact (i : nat)
| AnteFact
| SeqtFact.

Definition fact_ref_eqb (a b : fact_ref) : bool :=
  match a, b with
  | NewFact i, NewFact j => Nat.eqb i j
  | AnteFact, AnteFact => true
  | SeqtFact, SeqtFact => true
  | _, _ => false
  end.

(** [(fact, other, reason)] *)
Definition conflict : Type := fact_ref * option fact_ref * string.

Definition conflict_fact (c : conflict) : fact_ref := fst (fst c).

(** [new_facts[idx:]] with each fact paired with its reference. *)
Fixpoint tag_new (idx : nat) (facts : list Fact) : list (fact_ref * Fact) :=
  match facts with
  | [] => []
  | fact :: rest => (NewFact idx, fact) :: tag_new (S idx) rest
  end.

Definition seqt_list (seqt_fact : option Fact) : list (fact_ref * Fact) :=
  match seqt_fact with
  | Some f => [(SeqtFact, f)]
  | None => []
  end.

(** [prev_and_later]: the starting [prev_time]. The list [later_facts] is
    rebuilt by the loops below from the facts not yet visited followed by
    [seqt_list]; here only its two integrity checks are made. The source
    evaluates [isinstance(ante_fact.end, datetime)] without asserting it,
    so whatever truthy value [ante_fact.end] holds becomes [prev_time]. *)
Definition prev_and_later (ante_fact seqt_fact : option Fact) : result timeval :=
  (prev_time <-
     match ante_fact with
     | Some ante => if truthy (end_ ante) then Ok (end_ ante) else Raise AssertionError
     | None => Ok TNone
     end;;
   match seqt_fact with
   | Some seqt =>
       match start seqt with
       | TDatetime _ => Ok prev_time
       | _ => Raise AssertionError
       end
   | None => Ok prev_time
   end)%result.

Fixpoint find_next_datetime (later_facts : list (fact_ref * Fact))
  : option (datetime * fact_ref) :=
  match later_facts with
  | [] => None
  | (r, fact) :: rest =>
      match start fact with
      | TDatetime t => Some (t, r)
      | _ =>
          match end_ fact with
          | TDatetime t => Some (t, r)
          | _ => find_next_datetime rest
          end
      end
  end.

Definition infer_reason (w : which) (how : string) : string :=
  "Cannot infer date of " +:+ which_name w +:+ " time " +:+ how.

Section Resolver.

(** What [nark.helpers.dated] provides: the two token parsers and the two
    functions that place a clock time next to a datetime. *)
Context {clock : Type}.
Variable parse_clock_time : string -> option clock.
Variable parse_relative_minutes : string -> option Z.
Variable datetime_from_clock_after : datetime -> clock -> datetime.
Variable datetime_from_clock_prior : datetime -> clock -> datetime.

(** [controller.store.now] *)
Variable now : datetime.

(** The nark helpers applied to [prev_time]: they need a datetime. *)
Definition clock_after (t : timeval) (c : clock) : result datetime :=
  match t with
  | TDatetime d => Ok (datetime_from_clock_after d c)
  | _ => Raise TypeError
  end.

(** The state a per-field fixer hands back: the fact as mutated, the new
    [prev_time], and the conflicts list as appended to. *)
Definition fixed : Type := Fact * timeval * list conflict.

Definition infer_datetime_from_clock (clock_time : clock) (self : fact_ref)
    (fact : Fact) (w : which) (prev_time : timeval)
    (later_facts : list (fact_ref * Fact)) (conflicts : list conflict)
  : result fixed :=
  (dt_suss <-
     match getattr fact (at_oppo w) with
     | TDatetime dt_oppo =>
         match w with
         | Wstart => Ok (Some (datetime_from_clock_prior dt_oppo clock_time))
         | Wend => Ok (Some (datetime_from_clock_after dt_oppo clock_time))
         end
     | _ =>
         match prev_time with
         | TNone =>
             match find_next_datetime later_facts with
             | Some (next_time, _) =>
                 Ok (Some (datetime_from_clock_prior next_time clock_time))
             | None => Ok None
             end
         | _ => dt <- clock_after prev_time clock_time;; Ok (Some dt)
         end
     end;;
   match dt_suss with
   | Some dt => Ok (setattr fact w (TDatetime dt), TDatetime dt, conflicts)
   | None =>
       Ok (fact, prev_time,
           conflicts ++ [(self, None, infer_reason w "specified with clock time")])
   end)%result.

Definition fix_clock_time_relative (self : fact_ref) (fact : Fact) (w : which)
    (prev_time : timeval) (later_facts : list (fact_ref * Fact))
    (conflicts : list conflict) : result fixed :=
  match getattr fact w with
  | TNone => Ok (fact, prev_time, conflicts)
  | TDatetime dt => Ok (fact, TDatetime dt, conflicts)
  | TText s =>
      match parse_clock_time s with
      | Some clock_time =>
          infer_datetime_from_clock clock_time self fact w prev_time
            later_facts conflicts
      | None => Ok (fact, prev_time, conflicts)
      end
  end.

Definition infer_datetime_from_delta (delta_mins : Z) (self : fact_ref)
    (fact : Fact) (w : which) (prev_time : timeval)
    (later_facts : list (fact_ref * Fact)) (conflicts : list conflict)
  : result fixed :=
  (dt_suss <-
     (if 0 <=? delta_mins then
        match prev_time with
        | TNone => Ok None
        | _ => dt <- plus_minutes prev_time delta_mins;; Ok (Some dt)
        end
      else
        match w, end_ fact with
        | Wstart, TDatetime e =>
            dt <- plus_minutes (TDatetime e) delta_mins;; Ok (Some dt)
        | _, _ =>
            match find_next_datetime later_facts with
            | Some (next_time, _) =>
                dt <- plus_minutes (TDatetime next_time) delta_mins;; Ok (Some dt)
            | None => Ok None
            end
        end);;
   match dt_suss with
   | Some dt => Ok (setattr fact w (TDatetime dt), TDatetime dt, conflicts)
   | None =>
       Ok (fact, prev_time,
           conflicts ++ [(self, None, infer_reason w "specified with delta time")])
   end)%result.

Definition fix_delta_time_relative (self : fact_ref) (fact : Fact) (w : which)
    (prev_time : timeval) (later_facts : list (fact_ref * Fact))
    (conflicts : list conflict) : result fixed :=
  match getattr fact w with
  | TNone => Ok (fact, prev_time, conflicts)
  | TDatetime dt => Ok (fact, TDatetime dt, conflicts)
  | TText s =>
      match parse_relative_minutes s with
      | Some delta_mins =>
          infer_datetime_from_delta delta_mins self fact w prev_time
            later_facts conflicts
      | None => Ok (fact, prev_time, conflicts)
      end
  end.

(** [fix_blank_time_relative]. A field that is not [None] must be a
    datetime by now (the source asserts it). *)
Definition fix_blank_time_relative (self : fact_ref) (fact : Fact) (w : which)
    (prev_time : timeval) (later_facts : list (fact_ref * Fact))
    (conflicts : list conflict) : result fixed :=
  match getattr fact w with
  | TDatetime dt => Ok (fact, TDatetime dt, conflicts)
  | TText _ => Raise AssertionError
  | TNone =>
      let dt_suss :=
        match w with
        | Wstart => prev_time
        | Wend =>
            match find_next_datetime later_facts with
            | Some (next_time, _) => TDatetime next_time
            | None => TDatetime now
            end
        end in
      match dt_suss with
      | TNone =>
          Ok (fact, prev_time,
              conflicts ++ [(self, None, infer_reason w "left blank")])
      | _ => Ok (setattr fact w dt_suss, dt_suss, conflicts)
      end
  end.

(** The three resolution loops of the source have one shape: walk
    [new_facts], keep [later_facts] equal to the facts after the current
    one followed by the subsequent stored fact, and fix [start] and then
    [end] of each fact. [guard] is the assertion the blank pass makes
    on each fact before fixing it. *)
Definition fixer : Type :=
  fact_ref -> Fact -> which -> timeval -> list (fact_ref * Fact) ->
  list conflict -> result fixed.

Fixpoint fix_times_loop (fix_time : fixer) (guard : Fact -> bool) (idx : nat)
    (new_facts : list Fact) (seqt : list (fact_ref * Fact))
    (prev_time : timeval) (conflicts : list conflict)
  : result (list Fact * timeval * list conflict) :=
  match new_facts with
  | [] => Ok ([], prev_time, conflicts)
  | fact :: rest =>
      let later_facts := tag_new (S idx) rest ++ seqt in
      if guard fact then
        (s1 <- fix_time (NewFact idx) fact Wstart prev_time later_facts conflicts;;
         let '(fact1, prev1, conflicts1) := s1 in
         s2 <- fix_time (NewFact idx) fact1 Wend prev1 later_facts conflicts1;;
         let '(fact2, prev2, conflicts2) := s2 in
         s3 <- fix_times_loop fix_time guard (S idx) rest seqt prev2 conflicts2;;
         let '(rest', prev3, conflicts3) := s3 in
         Ok (fact2 :: rest', prev3, conflicts3))%result
      else Raise AssertionError
  end.

Definition fix_times_relative (fix_time : fixer) (guard : Fact -> bool)
    (new_facts : list Fact) (ante_fact seqt_fact : option Fact)
    (conflicts : list conflict) : result (list Fact * list conflict) :=
  (prev_time <- prev_and_later ante_fact seqt_fact;;
   s <- fix_times_loop fix_time guard 0 new_facts (seqt_list seqt_fact)
          prev_time conflicts;;
   Ok (fst (fst s), snd s))%result.

Definition no_guard (fact : Fact) : bool := true.

Definition fix_clock_times_relative :=
  fix_times_relative fix_clock_time_relative no_guard.

Definition fix_delta_times_relative :=
  fix_times_relative fix_delta_time_relative no_guard.

(** [assert fact.start or fact.end] *)
Definition has_a_time (fact : Fact) : bool :=
  truthy (start fact) || truthy (end_ fact).

Definition fix_blank_times_relative :=
  fix_times_relative fix_blank_time_relative has_a_time.

(** ** Properties of the relative-time resolver *)

Lemma getattr_setattr_same fact w v : getattr (setattr fact w v) w = v.
Proof. by destruct w. Qed.

Lemma getattr_setattr_oppo fact w v :
  getattr (setattr fact w v) (at_oppo w) = getattr fact (at_oppo w).
Proof. by destruct w. Qed.

Lemma find_next_datetime_app l1 l2 :
  find_next_datetime (l1 ++ l2) =
  match find_next_datetime l1 with
  | Some x => Some x
  | None => find_next_datetime l2
  end.
Proof.
  induction l1 as [|[r f] l1 IH]; simpl; [done|].
  destruct (start f); try done; destruct (end_ f); done.
Qed.

(** A fixer keeps absolute fields: whatever field it is run on, a field of
    the fact that holds a datetime holds the same datetime afterwards. *)
Definition keeps_absolute (fix_time : fixer) : Prop :=
  forall self fact w' prev_time later conflicts fact' prev' conflicts',
    fix_time self fact w' prev_time later conflicts = Ok (fact', prev', conflicts') ->
    forall w dt, getattr fact w = TDatetime dt -> getattr fact' w = TDatetime dt.

Lemma infer_datetime_from_clock_other c self fact w prev_time later conflicts
    fact' prev' conflicts' :
  infer_datetime_from_clock c self fact w prev_time later conflicts
    = Ok (fact', prev', conflicts') ->
  getattr fact' (at_oppo w) = getattr fact (at_oppo w).
Proof.
  unfold infer_datetime_from_clock. intros H.
  destruct (getattr fact (at_oppo w)) eqn:Ho; destruct w; simpl in *;
    repeat (match goal with
            | H : context [match ?x with _ => _ end] |- _ => destruct x eqn:?
            end; simpl in *);
    simplify_eq; simpl; done.
Qed.

Lemma infer_datetime_from_delta_other m self fact w prev_time later conflicts
    fact' prev' conflicts' :
  infer_datetime_from_delta m self fact w prev_time later conflicts
    = Ok (fact', prev', conflicts') ->
  getattr fact' (at_oppo w) = getattr fact (at_oppo w).
Proof.
  unfold infer_datetime_from_delta, rbind. intros H.
  destruct w; simpl in *;
    repeat (match goal with
            | H : context [match ?x with _ => _ end] |- _ => destruct x eqn:?
            | H : context [if ?x then _ else _] |- _ => destruct x eqn:?
            end; simpl in *);
    simplify_eq; simpl; done.
Qed.

Lemma fix_clock_keeps_absolute : keeps_absolute fix_clock_time_relative.
Proof.
  intros self fact w' prev_time later conflicts fact' prev' conflicts' H w dt Hw.
  unfold fix_clock_time_relative in H.
  destruct (getattr fact w') as [|d|s] eqn:Hw'; simplify_eq; try done.
  destruct (parse_clock_time s) as [c|]; simplify_eq; try done.
  apply infer_datetime_from_clock_other in H.
  destruct w, w'; simpl in *; congruence.
Qed.

Lemma fix_delta_keeps_absolute : keeps_absolute fix_delta_time_relative.
Proof.
  intros self fact w' prev_time later conflicts fact' prev' conflicts' H w dt Hw.
  unfold fix_delta_time_relative in H.
  destruct (getattr fact w') as [|d|s] eqn:Hw'; simplify_eq; try done.
  destruct (parse_relative_minutes s) as [m|]; simplify_eq; try done.
  apply infer_datetime_from_delta_other in H.
  destruct w, w'; simpl in *; congruence.
Qed.

Lemma fix_times_loop_keeps_absolute fix_time guard :
  keeps_absolute fix_time ->
  forall new_facts idx seqt prev_time conflicts facts' prev' conflicts',
    fix_times_loop fix_time guard idx new_facts seqt prev_time conflicts
      = Ok (facts', prev', conflicts') ->
    forall (i : nat) fact w dt,
      new_facts !! i = Some fact -> getattr fact w = TDatetime dt ->
      exists fact', facts' !! i = Some fact' /\ getattr fact' w = TDatetime dt.
Proof.
  intros Hk. induction new_facts as [|f rest IH];
    intros idx seqt prev_time conflicts facts' prev' conflicts' Hloop i fact w dt Hi Hw.
  - done.
  - simpl in Hloop. destruct (guard f); [|done].
    destruct (fix_time (NewFact idx) f Wstart prev_time _ conflicts)
      as [[[f1 p1] c1]|] eqn:H1; [|done]. simpl in Hloop.
    destruct (fix_time (NewFact idx) f1 Wend p1 _ c1)
      as [[[f2 p2] c2]|] eqn:H2; [|done]. simpl in Hloop.
    destruct (fix_times_loop fix_time guard (S idx) rest seqt p2 c2)
      as [[[r3 p3] c3]|] eqn:H3; [|done]. simpl in Hloop.
    simplify_eq. destruct i as [|i]; simpl in *.
    + simplify_eq. exists f2. split; [done|]. eauto.
    + eapply IH; eauto.
Qed.

(** C9. A field that already holds an absolute datetime is left as it is
    by the clock-time fixer and by the minute-offset fixer: the fact and
    the conflicts come back unchanged and [prev_time] becomes the field's
    value; and after a whole clock pass or a whole delta pass every field
    that was absolute before holds the same datetime. *)
Theorem absolute_time_resolution_is_identity :
  (forall self fact w dt prev_time later conflicts,
      getattr fact w = TDatetime dt ->
      fix_clock_time_relative self fact w prev_time later conflicts
        = Ok (fact, TDatetime dt, conflicts) /\
      fix_delta_time_relative self fact w prev_time later conflicts
        = Ok (fact, TDatetime dt, conflicts)) /\
  (forall new_facts ante_fact seqt_fact conflicts facts' conflicts'
          (i : nat) fact w dt,
      fix_clock_times_relative new_facts ante_fact seqt_fact conflicts
        = Ok (facts', conflicts') \/
      fix_delta_times_relative new_facts ante_fact seqt_fact conflicts
        = Ok (facts', conflicts') ->
      new_facts !! i = Some fact -> getattr fact w = TDatetime dt ->
      exists fact', facts' !! i = Some fact' /\ getattr fact' w = TDatetime dt).
Proof.
  split.
  - intros self fact w dt prev_time later conflicts Hw.
    unfold fix_clock_time_relative, fix_delta_time_relative. by rewrite Hw.
  - intros new_facts ante_fact seqt_fact conflicts facts' conflicts' i fact w dt
      Hpass Hi Hw.
    unfold fix_clock_times_relative, fix_delta_times_relative,
      fix_times_relative in Hpass.
    destruct (prev_and_later ante_fact seqt_fact) as [p|]; simpl in Hpass;
      [|by destruct Hpass].
    destruct Hpass as [Hpass|Hpass];
      match type of Hpass with
      | context [fix_times_loop ?fx ?g ?n ?l ?s ?p ?c] =>
          destruct (fix_times_loop fx g n l s p c) as [[[fs pr] cs]|] eqn:Hloop;
            [|done]
      end; simpl in Hpass; simplify_eq.
    + eapply fix_times_loop_keeps_absolute; eauto using fix_clock_keeps_absolute.
    + eapply fix_times_loop_keeps_absolute; eauto using fix_delta_keeps_absolute.
Qed.

(** C2. Resolution of a field that holds a clock-time token follows the
    precedence of [infer_datetime_from_clock]: (a) the fact's opposite
    field, when it is a datetime, anchors the clock time (the closest time
    before it for a start, after it for an end); (b) otherwise a known
    [prev_time] anchors it (closest time after); (c) otherwise the next
    datetime found by scanning [later_facts] anchors it (closest time
    before). In the passes [later_facts] is the facts after the current
    one followed by the subsequent stored fact, and the scan of such a
    list looks through the new facts before the stored one. *)
Theorem clock_time_resolution_precedence :
  forall self fact w s clock_time prev_time later conflicts,
    getattr fact w = TText s ->
    parse_clock_time s = Some clock_time ->
    let resolved dt := Ok (setattr fact w (TDatetime dt), TDatetime dt, conflicts) in
    let run := fix_clock_time_relative self fact w prev_time later conflicts in
    (forall dt_oppo,
        getattr fact (at_oppo w) = TDatetime dt_oppo ->
        run = resolved (match w with
                        | Wstart => datetime_from_clock_prior dt_oppo clock_time
                        | Wend => datetime_from_clock_after dt_oppo clock_time
                        end)) /\
    ((forall dt_oppo, getattr fact (at_oppo w) <> TDatetime dt_oppo) ->
     (forall p,
         prev_time = TDatetime p ->
         run = resolved (datetime_from_clock_after p clock_time)) /\
     (forall next_time next_fact,
         prev_time = TNone ->
         find_next_datetime later = Some (next_time, next_fact) ->
         run = resolved (datetime_from_clock_prior next_time clock_time))) /\
    (forall idx rest seqt_fact,
        later = tag_new idx rest ++ seqt_list seqt_fact ->
        find_next_datetime later =
        match find_next_datetime (tag_new idx rest) with
        | Some found => Some found
        | None => find_next_datetime (seqt_list seqt_fact)
        end).
Proof.
  intros self fact w s clock_time prev_time later conflicts Hw Hparse resolved run.
  subst resolved run. unfold fix_clock_time_relative.
  rewrite Hw, Hparse. unfold infer_datetime_from_clock.
  split; [|split].
  - intros dt_oppo Ho. rewrite Ho. by destruct w.
  - intros Hno. split.
    + intros p ->. destruct (getattr fact (at_oppo w)) eqn:Ho; try done.
      by specialize (Hno dt).
    + intros next_time next_fact -> Hnext. rewrite Hnext.
      destruct (getattr fact (at_oppo w)) eqn:Ho; try done.
      by specialize (Hno dt).
  - intros idx rest seqt_fact ->. apply find_next_datetime_app.
Qed.

Lemma fix_delta_time_relative_token self fact w s delta_mins prev_time later conflicts :
  getattr fact w = TText s ->
  parse_relative_minutes s = Some delta_mins ->
  fix_delta_time_relative self fact w prev_time later conflicts
  = infer_datetime_from_delta delta_mins self fact w prev_time later conflicts.
Proof. intros Hw Hparse. unfold fix_delta_time_relative. by rewrite Hw, Hparse. Qed.

(** Whether [anchor + timedelta(minutes=m)] can be computed: the offset is
    a timedelta and the sum a datetime. *)
Definition offset_in_range (anchor : datetime) (m : Z) : bool :=
  (timedelta_min <=? m * 60000000) && (m * 60000000 <=? timedelta_max) &&
  ((datetime_min <=? anchor + m * 60000000) && (anchor + m * 60000000 <=? datetime_max)).

Lemma plus_minutes_datetime anchor m :
  plus_minutes (TDatetime anchor) m =
  if offset_in_range anchor m then Ok (anchor + m * 60000000) else Raise OverflowError.
Proof.
  unfold plus_minutes, timedelta_minutes, datetime_add, offset_in_range. cbv zeta.
  destruct ((timedelta_min <=? m * 60000000) && (m * 60000000 <=? timedelta_max));
    [|done]. simpl.
  by destruct ((datetime_min <=? anchor + m * 60000000)
               && (anchor + m * 60000000 <=? datetime_max)).
Qed.

(** The outcome of resolving a field from an anchor and an offset: the
    field and [prev_time] become the anchor plus the offset, or the
    addition overflows. *)
Definition resolved_from (fact : Fact) (w : which) (conflicts : list conflict)
    (anchor : datetime) (m : Z) : result fixed :=
  if offset_in_range anchor m
  then Ok (setattr fact w (TDatetime (anchor + m * 60000000)),
           TDatetime (anchor + m * 60000000), conflicts)
  else Raise OverflowError.

Lemma infer_datetime_from_delta_prev delta_mins self fact w p later conflicts :
  0 <= delta_mins ->
  infer_datetime_from_delta delta_mins self fact w (TDatetime p) later conflicts
  = resolved_from fact w conflicts p delta_mins.
Proof.
  intros Hge. unfold infer_datetime_from_delta, resolved_from.
  destruct (Z.leb_spec 0 delta_mins); [|lia].
  rewrite plus_minutes_datetime. by destruct (offset_in_range p delta_mins).
Qed.

Lemma infer_datetime_from_delta_own_end delta_mins self fact e prev_time later conflicts :
  delta_mins < 0 ->
  end_ fact = TDatetime e ->
  infer_datetime_from_delta delta_mins self fact Wstart prev_time later conflicts
  = resolved_from fact Wstart conflicts e delta_mins.
Proof.
  intros Hlt He. unfold infer_datetime_from_delta, resolved_from.
  destruct (Z.leb_spec 0 delta_mins); [lia|]. rewrite He.
  rewrite plus_minutes_datetime. by destruct (offset_in_range e delta_mins).
Qed.

Lemma infer_datetime_from_delta_next delta_mins self fact w prev_time later conflicts
    next_time next_fact :
  delta_mins < 0 ->
  w = Wend \/ (forall e, end_ fact <> TDatetime e) ->
  find_next_datetime later = Some (next_time, next_fact) ->
  infer_datetime_from_delta delta_mins self fact w prev_time later conflicts
  = resolved_from fact w conflicts next_time delta_mins.
Proof.
  intros Hlt Hother Hnext. unfold infer_datetime_from_delta, resolved_from.
  destruct (Z.leb_spec 0 delta_mins); [lia|]. rewrite Hnext.
  rewrite plus_minutes_datetime.
  destruct Hother as [->|Hno].
  - by destruct (offset_in_range next_time delta_mins).
  - destruct w; [|by destruct (offset_in_range next_time delta_mins)].
    destruct (end_ fact) eqn:He; try by destruct (offset_in_range next_time delta_mins).
    by specialize (Hno dt).
Qed.

Lemma infer_datetime_from_delta_no_next delta_mins self fact w prev_time later conflicts :
  delta_mins < 0 ->
  w = Wend \/ (forall e, end_ fact <> TDatetime e) ->
  find_next_datetime later = None ->
  infer_datetime_from_delta delta_mins self fact w prev_time later conflicts
  = Ok (fact, prev_time,
        conflicts ++ [(self, None, infer_reason w "specified with delta time")]).
Proof.
  intros Hlt Hother Hnext. unfold infer_datetime_from_delta.
  destruct (Z.leb_spec 0 delta_mins); [lia|]. rewrite Hnext.
  destruct Hother as [->|Hno]; [done|].
  destruct w; [|done]. destruct (end_ fact) eqn:He; try done.
  by specialize (Hno dt).
Qed.

(** C3, as amended. Resolution of a field that holds a signed minute
    offset follows [infer_datetime_from_delta]: an offset [>= 0] is added
    to [prev_time], and without a [prev_time] the resolution fails with a
    conflict; a negative offset on a start whose own end is a datetime is
    added to that end; any other negative offset is added to the next
    datetime found by scanning [later_facts], and fails with a conflict
    when there is none. In each case the field becomes the sum when the
    offset is a timedelta and the sum a datetime, and the addition raises
    [OverflowError] otherwise. So a start of +30 after [prev_time = T] is
    T plus 30 minutes, and a start of -15 in a fact whose end is the
    datetime E is E minus 15 minutes, when these are datetimes. *)
Theorem minute_offset_resolution :
  (forall self fact w s delta_mins prev_time later conflicts,
      getattr fact w = TText s ->
      parse_relative_minutes s = Some delta_mins ->
      let run := fix_delta_time_relative self fact w prev_time later conflicts in
      let unresolved :=
        Ok (fact, prev_time,
            conflicts ++ [(self, None, infer_reason w "specified with delta time")]) in
      (0 <= delta_mins ->
       (forall p, prev_time = TDatetime p ->
                  run = resolved_from fact w conflicts p delta_mins) /\
       (prev_time = TNone -> run = unresolved)) /\
      (delta_mins < 0 ->
       (forall e, w = Wstart -> end_ fact = TDatetime e ->
                  run = resolved_from fact w conflicts e delta_mins) /\
       (w = Wend \/ (forall e, end_ fact <> TDatetime e) ->
        match find_next_datetime later with
        | Some (next_time, _) => run = resolved_from fact w conflicts next_time delta_mins
        | None => run = unresolved
        end))) /\
  (forall fact w conflicts anchor m,
      (timedelta_min <= m * 60000000 <= timedelta_max ->
       datetime_min <= anchor + m * 60000000 <= datetime_max ->
       resolved_from fact w conflicts anchor m
       = Ok (setattr fact w (TDatetime (anchor + m * 60000000)),
             TDatetime (anchor + m * 60000000), conflicts)) /\
      (~ (timedelta_min <= m * 60000000 <= timedelta_max /\
          datetime_min <= anchor + m * 60000000 <= datetime_max) ->
       resolved_from fact w conflicts anchor m = Raise OverflowError)) /\
  (forall self fact T later conflicts,
      parse_relative_minutes "+30" = Some 30 ->
      start fact = TText "+30" ->
      datetime_min <= T + 30 * 60000000 <= datetime_max ->
      fix_delta_time_relative self fact Wstart (TDatetime T) later conflicts
      = Ok (setattr fact Wstart (TDatetime (T + 30 * 60000000)),
            TDatetime (T + 30 * 60000000), conflicts)) /\
  (forall self fact E prev_time later conflicts,
      parse_relative_minutes "-15" = Some (-15) ->
      start fact = TText "-15" ->
      end_ fact = TDatetime E ->
      datetime_min <= E - 15 * 60000000 <= datetime_max ->
      fix_delta_time_relative self fact Wstart prev_time later conflicts
      = Ok (setattr fact Wstart (TDatetime (E - 15 * 60000000)),
            TDatetime (E - 15 * 60000000), conflicts)).
Proof.
  assert (Hrange : forall fact w conflicts anchor m,
             timedelta_min <= m * 60000000 <= timedelta_max ->
             datetime_min <= anchor + m * 60000000 <= datetime_max ->
             resolved_from fact w conflicts anchor m
             = Ok (setattr fact w (TDatetime (anchor + m * 60000000)),
                   TDatetime (anchor + m * 60000000), conflicts)).
  { intros fact w conflicts anchor m [H1 H2] [H3 H4].
    unfold resolved_from, offset_in_range.
    apply Z.leb_le in H1, H2, H3, H4. by rewrite H1, H2, H3, H4. }
  split; [|split; [|split]].
  - intros self fact w s delta_mins prev_time later conflicts Hw Hparse run unresolved.
    subst run unresolved.
    rewrite (fix_delta_time_relative_token _ _ _ _ _ _ _ _ Hw Hparse).
    split.
    + intros Hge. split.
      * intros p ->. by apply infer_datetime_from_delta_prev.
      * intros ->. unfold infer_datetime_from_delta.
        by destruct (Z.leb_spec 0 delta_mins); [|lia].
    + intros Hlt. split.
      * intros e ->. by apply infer_datetime_from_delta_own_end.
      * intros Hother.
        destruct (find_next_datetime later) as [[next_time next_fact]|] eqn:Hnext.
        -- by eapply infer_datetime_from_delta_next.
        -- by apply infer_datetime_from_delta_no_next.
  - intros fact w conflicts anchor m. split; [apply Hrange|].
    intros Hout. unfold resolved_from, offset_in_range.
    destruct (Z.leb_spec timedelta_min (m * 60000000)),
      (Z.leb_spec (m * 60000000) timedelta_max),
      (Z.leb_spec datetime_min (anchor + m * 60000000)),
      (Z.leb_spec (anchor + m * 60000000) datetime_max); simpl; try done.
    destruct Hout. lia.
  - intros self fact T later conflicts Hparse Hs HT.
    rewrite (fix_delta_time_relative_token _ fact Wstart _ _ _ _ _ Hs Hparse).
    rewrite infer_datetime_from_delta_prev by done.
    apply Hrange; [|done]. unfold timedelta_min, timedelta_max. lia.
  - intros self fact E prev_time later conflicts Hparse Hs He HE.
    rewrite (fix_delta_time_relative_token _ fact Wstart _ _ _ _ _ Hs Hparse).
    rewrite (infer_datetime_from_delta_own_end _ _ _ E) by done.
    replace (E - 15 * 60000000) with (E + -15 * 60000000) in * by lia.
    apply Hrange; [|done]. unfold timedelta_min, timedelta_max. lia.
Qed.

(** *** What the fixers can end with *)

Definition not_text (t : timeval) : Prop :=
  match t with
  | TText _ => False
  | _ => True
  end.

(** What [backend_integrity] guarantees of the two stored neighbours. *)
Definition store_integrity (ante_fact seqt_fact : option Fact) : Prop :=
  (forall ante, ante_fact = Some ante -> exists t, end_ ante = TDatetime t) /\
  (forall seqt, seqt_fact = Some seqt -> exists t, start seqt = TDatetime t).

Lemma prev_and_later_ok ante_fact seqt_fact :
  store_integrity ante_fact seqt_fact ->
  exists prev_time,
    prev_and_later ante_fact seqt_fact = Ok prev_time /\ not_text prev_time /\
    (ante_fact = None -> prev_time = TNone) /\
    (forall ante, ante_fact = Some ante -> prev_time = end_ ante).
Proof.
  intros [Ha Hs]. unfold prev_and_later.
  destruct ante_fact as [ante|].
  - destruct (Ha ante eq_refl) as [t Ht]. rewrite Ht. simpl.
    exists (TDatetime t).
    split; [|split; [done|split; [done|by intros ? [= <-]]]].
    destruct seqt_fact as [seqt|]; [|done].
    destruct (Hs seqt eq_refl) as [u Hu]. by rewrite Hu.
  - exists TNone. split; [|done]. simpl.
    destruct seqt_fact as [seqt|]; [|done].
    destruct (Hs seqt eq_refl) as [u Hu]. by rewrite Hu.
Qed.

(** A fixer is total when started from a [prev_time] that is not text. *)
Definition total_fixer (fix_time : fixer) : Prop :=
  forall self fact w prev_time later conflicts,
    not_text prev_time ->
    exists fact' prev' conflicts',
      fix_time self fact w prev_time later conflicts = Ok (fact', prev', conflicts') /\
      not_text prev'.

Ltac split_fixer H :=
  repeat (match type of H with
          | context [match ?x with _ => _ end] => destruct x eqn:?
          | context [if ?x then _ else _] => destruct x eqn:?
          end; simpl in H);
  simplify_eq.

Lemma infer_datetime_from_clock_shape c self fact w prev_time later conflicts
    fact' prev' conflicts' :
  infer_datetime_from_clock c self fact w prev_time later conflicts
    = Ok (fact', prev', conflicts') ->
  (exists dt, fact' = setattr fact w (TDatetime dt) /\ prev' = TDatetime dt /\
              conflicts' = conflicts) \/
  (fact' = fact /\ prev' = prev_time /\
   conflicts' = conflicts ++ [(self, None, infer_reason w "specified with clock time")]).
Proof.
  unfold infer_datetime_from_clock. intros H. split_fixer H; eauto.
Qed.

Lemma infer_datetime_from_delta_shape m self fact w prev_time later conflicts
    fact' prev' conflicts' :
  infer_datetime_from_delta m self fact w prev_time later conflicts
    = Ok (fact', prev', conflicts') ->
  (exists dt, fact' = setattr fact w (TDatetime dt) /\ prev' = TDatetime dt /\
              conflicts' = conflicts) \/
  (fact' = fact /\ prev' = prev_time /\
   conflicts' = conflicts ++ [(self, None, infer_reason w "specified with delta time")]).
Proof.
  unfold infer_datetime_from_delta, rbind. intros H. split_fixer H; eauto.
Qed.

Lemma fix_clock_total : total_fixer fix_clock_time_relative.
Proof.
  intros self fact w prev_time later conflicts Hp.
  unfold fix_clock_time_relative, infer_datetime_from_clock.
  destruct (getattr fact w) as [|d|s]; [by eauto|by eexists _, _, _|].
  destruct (parse_clock_time s) as [c|]; [|by eauto].
  destruct (getattr fact (at_oppo w)), w, prev_time; simpl in *; try done;
    try (destruct (find_next_datetime later) as [[? ?]|]); simpl;
    by eexists _, _, _.
Qed.

(** A fixer that adds an offset can fail, but only with the
    [OverflowError] of the addition. *)
Definition overflow_fixer (fix_time : fixer) : Prop :=
  forall self fact w prev_time later conflicts,
    not_text prev_time ->
    (exists fact' prev' conflicts',
        fix_time self fact w prev_time later conflicts = Ok (fact', prev', conflicts') /\
        not_text prev') \/
    fix_time self fact w prev_time later conflicts = Raise OverflowError.

Lemma plus_minutes_outcome t m :
  not_text t ->
  (exists dt, plus_minutes t m = Ok dt) \/ plus_minutes t m = Raise OverflowError \/
  (t = TNone /\ plus_minutes t m = Raise TypeError).
Proof.
  intros Ht. unfold plus_minutes, timedelta_minutes, datetime_add, rbind. cbv zeta.
  destruct ((timedelta_min <=? m * 60000000) && (m * 60000000 <=? timedelta_max));
    [|by right; left].
  destruct t as [|d|?]; [by right; right| |done].
  destruct ((datetime_min <=? d + m * 60000000) && (d + m * 60000000 <=? datetime_max));
    [by left; eexists|by right; left].
Qed.

Lemma fix_delta_overflow : overflow_fixer fix_delta_time_relative.
Proof.
  intros self fact w prev_time later conflicts Hp.
  unfold fix_delta_time_relative, infer_datetime_from_delta, rbind.
  destruct (getattr fact w) as [|d|s]; [left; by eauto|left; by eexists _, _, _|].
  destruct (parse_relative_minutes s) as [m|]; [|left; by eauto].
  assert (Hadd : forall a, (exists dt, plus_minutes (TDatetime a) m = Ok dt) \/
                           plus_minutes (TDatetime a) m = Raise OverflowError).
  { intros a. destruct (plus_minutes_outcome (TDatetime a) m I) as [?|[?|[? _]]];
      [by left|by right|done]. }
  destruct (0 <=? m).
  - destruct prev_time as [|p|?]; [left; by eexists _, _, _| |done].
    destruct (Hadd p) as [[dt ->]| ->]; [left; by eexists _, _, _|by right].
  - destruct w, (end_ fact) as [|e|?];
      try (destruct (Hadd e) as [[dt ->]| ->]; [left; by eexists _, _, _|by right]);
      (destruct (find_next_datetime later) as [[n ?]|]; [|left; by eexists _, _, _];
       destruct (Hadd n) as [[dt ->]| ->]; [left; by eexists _, _, _|by right]).
Qed.

Lemma fix_times_loop_total fix_time :
  total_fixer fix_time ->
  forall new_facts idx seqt prev_time conflicts,
    not_text prev_time ->
    exists facts' prev' conflicts',
      fix_times_loop fix_time no_guard idx new_facts seqt prev_time conflicts
      = Ok (facts', prev', conflicts') /\ not_text prev'.
Proof.
  intros Ht. induction new_facts as [|f rest IH]; intros idx seqt prev_time conflicts Hp.
  - by eexists _, _, _.
  - simpl.
    destruct (Ht (NewFact idx) f Wstart prev_time
                (tag_new (S idx) rest ++ seqt) conflicts Hp)
      as (f1 & p1 & c1 & -> & Hp1). simpl.
    destruct (Ht (NewFact idx) f1 Wend p1
                (tag_new (S idx) rest ++ seqt) c1 Hp1)
      as (f2 & p2 & c2 & -> & Hp2). simpl.
    destruct (IH (S idx) seqt p2 c2 Hp2) as (r3 & p3 & c3 & -> & Hp3). simpl.
    by eexists _, _, _.
Qed.

Lemma fix_times_loop_overflow fix_time :
  overflow_fixer fix_time ->
  forall new_facts idx seqt prev_time conflicts,
    not_text prev_time ->
    (exists facts' prev' conflicts',
        fix_times_loop fix_time no_guard idx new_facts seqt prev_time conflicts
        = Ok (facts', prev', conflicts') /\ not_text prev') \/
    fix_times_loop fix_time no_guard idx new_facts seqt prev_time conflicts
    = Raise OverflowError.
Proof.
  intros Ht. induction new_facts as [|f rest IH]; intros idx seqt prev_time conflicts Hp.
  - left. by eexists _, _, _.
  - simpl.
    destruct (Ht (NewFact idx) f Wstart prev_time
                (tag_new (S idx) rest ++ seqt) conflicts Hp)
      as [(f1 & p1 & c1 & -> & Hp1)| ->]; [|by right]. simpl.
    destruct (Ht (NewFact idx) f1 Wend p1
                (tag_new (S idx) rest ++ seqt) c1 Hp1)
      as [(f2 & p2 & c2 & -> & Hp2)| ->]; [|by right]. simpl.
    destruct (IH (S idx) seqt p2 c2 Hp2) as [(r3 & p3 & c3 & -> & Hp3)| ->];
      [|by right]. simpl.
    left. by eexists _, _, _.
Qed.

(** *** The blank pass *)

(** What the blank pass leaves in the end of a fact: a datetime end stays,
    a blank end becomes the next datetime found in [later_facts], or [now]
    when there is none. *)
Definition filled_end (fact : Fact) (later_facts : list (fact_ref * Fact)) : timeval :=
  match end_ fact with
  | TNone =>
      match find_next_datetime later_facts with
      | Some (next_time, _) => TDatetime next_time
      | None => TDatetime now
      end
  | v => v
  end.

(** What the blank pass leaves in the start of a fact, given the running
    [prev_time]. *)
Definition filled_start (fact : Fact) (prev_time : timeval) : timeval :=
  match start fact with
  | TNone => prev_time
  | v => v
  end.

(** The conflict of the blank pass: only for a blank start met while
    [prev_time] is still [None]. *)
Definition blank_conflicts (self : fact_ref) (fact : Fact) (prev_time : timeval)
  : list conflict :=
  match start fact, prev_time with
  | TNone, TNone => [(self, None, infer_reason Wstart "left blank")]
  | _, _ => []
  end.

(** The running [prev_time] on reaching the i-th fact: the starting value
    for the first fact, and after that the end the pass left in the fact
    before. *)
Definition prev_time_at (prev_time : timeval) (facts' : list Fact) (i : nat) : timeval :=
  match i with
  | O => prev_time
  | S j =>
      match facts' !! j with
      | Some before => end_ before
      | None => TNone
      end
  end.

(** The facts the blank pass is meant for: no text left in a time field,
    and at least one of the two times known. *)
Definition resolved_fact (fact : Fact) : Prop :=
  not_text (start fact) /\ not_text (end_ fact) /\ has_a_time fact = true.

Lemma fix_blank_fact self fact prev_time later conflicts :
  resolved_fact fact -> not_text prev_time ->
  exists fact2 e2,
    (s1 <- fix_blank_time_relative self fact Wstart prev_time later conflicts;;
     let '(fact1, prev1, conflicts1) := s1 in
     fix_blank_time_relative self fact1 Wend prev1 later conflicts1)%result
    = Ok (fact2, TDatetime e2, conflicts ++ blank_conflicts self fact prev_time) /\
    start fact2 = filled_start fact prev_time /\
    end_ fact2 = filled_end fact later /\
    end_ fact2 = TDatetime e2.
Proof.
  intros (Hs & He & Ht) Hp.
  unfold fix_blank_time_relative, filled_start, filled_end, blank_conflicts,
    has_a_time in *.
  destruct fact as [k st en dl dr]; simpl in *.
  destruct st as [|s|?], en as [|e|?], prev_time as [|p|?]; simpl in *; try done;
    try destruct (find_next_datetime later) as [[n r]|]; simpl;
    rewrite ?app_nil_r; eexists _, _; (split; [reflexivity|done]).
Qed.

Lemma fix_blank_loop new_facts :
  forall idx seqt prev_time conflicts,
    Forall resolved_fact new_facts -> not_text prev_time ->
    exists facts' prev',
      fix_times_loop fix_blank_time_relative has_a_time idx new_facts seqt
        prev_time conflicts
      = Ok (facts', prev',
            conflicts ++ match new_facts with
                         | fact :: _ => blank_conflicts (NewFact idx) fact prev_time
                         | [] => []
                         end) /\
      forall (i : nat) fact,
        new_facts !! i = Some fact ->
        exists fact',
          facts' !! i = Some fact' /\
          start fact' = filled_start fact (prev_time_at prev_time facts' i) /\
          end_ fact' =
            filled_end fact (tag_new (S (idx + i)) (drop (S i) new_facts) ++ seqt) /\
          exists e, end_ fact' = TDatetime e.
Proof.
  induction new_facts as [|f rest IH]; intros idx seqt prev_time conflicts Hall Hp.
  - simpl. rewrite app_nil_r. by eexists _, _.
  - inversion Hall as [|? ? Hf Hrest]; subst.
    destruct (fix_blank_fact (NewFact idx) f prev_time
                (tag_new (S idx) rest ++ seqt) conflicts Hf Hp)
      as (f2 & e2 & Hstep & Hs2 & He2 & He2').
    simpl. destruct Hf as (_ & _ & ->).
    destruct (fix_blank_time_relative (NewFact idx) f Wstart prev_time _ conflicts)
      as [[[f1 p1] c1]|]; [|done]. simpl in *. rewrite Hstep. simpl.
    destruct (IH (S idx) seqt (TDatetime e2)
                (conflicts ++ blank_conflicts (NewFact idx) f prev_time) Hrest I)
      as (r3 & p3 & Hloop & Hfill).
    assert (Hnone : match rest with
                    | fact :: _ => blank_conflicts (NewFact (S idx)) fact (TDatetime e2)
                    | [] => []
                    end = []).
    { destruct rest as [|g ?]; [done|]. unfold blank_conflicts. by destruct (start g). }
    rewrite Hnone, app_nil_r in Hloop. rewrite Hloop. simpl.
    eexists _, _. split; [reflexivity|].
    intros i fact Hi. destruct i as [|i]; simpl in *.
    + simplify_eq. exists f2. rewrite Nat.add_0_r, drop_0. eauto.
    + destruct (Hfill i fact Hi) as (fact' & Hi' & Hs' & He' & Hd').
      exists fact'. split; [done|].
      replace (idx + S i)%nat with (S idx + i)%nat by lia.
      split; [|by split].
      rewrite Hs'. f_equal. destruct i as [|i]; simpl; [by rewrite He2'|done].
Qed.

End Resolver.

(** ** The conflict detector: [verify_datetimes_sanity] *)

Definition starts_before_reason : string :=
  "New fact starts before previous fact ends".
Definition ends_after_reason : string :=
  "New fact ends after next fact starts".
Definition inverted_reason : string :=
  "New fact starts after it ends/ends before it starts".

(** [verify_datetimes_missing_already_caught]: nothing is appended; the
    fact must already head some conflict. *)
Definition verify_datetimes_missing_already_caught (self : fact_ref)
    (conflicts : list conflict) : result unit :=
  if existsb (fun c => fact_ref_eqb self (conflict_fact c)) conflicts
  then Ok tt else Raise AssertionError.

(** The body of the loop of [verify_datetimes_sanity] for one fact. *)
Definition verify_fact_sanity (self : fact_ref) (fact : Fact)
    (prev_time : timeval) (prev_fact : option fact_ref)
    (later_facts : list (fact_ref * Fact)) (conflicts : list conflict)
  : result (timeval * list conflict) :=
  (s1 <-
     (if negb (truthy (start fact)) then
        _ <- verify_datetimes_missing_already_caught self conflicts;;
        Ok (prev_time, conflicts)
      else
        c <- (if truthy prev_time then
                lt <- py_lt (start fact) prev_time;;
                Ok (if lt : bool
                    then conflicts ++ [(self, prev_fact, starts_before_reason)]
                    else conflicts)
              else Ok conflicts);;
        Ok (start fact, c));;
   let '(prev_time1, conflicts1) := s1 in
   s2 <-
     (if negb (truthy (end_ fact)) then
        _ <- verify_datetimes_missing_already_caught self conflicts1;;
        Ok (prev_time1, conflicts1)
      else
        c <- match find_next_datetime later_facts with
             | Some (next_time, next_fact) =>
                 gt <- py_gt (end_ fact) (TDatetime next_time);;
                 Ok (if gt : bool
                     then conflicts1 ++ [(self, Some next_fact, ends_after_reason)]
                     else conflicts1)
             | None => Ok conflicts1
             end;;
        Ok (end_ fact, c));;
   let '(prev_time2, conflicts2) := s2 in
   c <- (if truthy (start fact) && truthy (end_ fact) then
           gt <- py_gt (start fact) (end_ fact);;
           Ok (if gt : bool
               then conflicts2 ++ [(self, None, inverted_reason)]
               else conflicts2)
         else Ok conflicts2);;
   Ok (prev_time2, c))%result.

Fixpoint verify_sanity_loop (idx : nat) (new_facts : list Fact)
    (seqt : list (fact_ref * Fact)) (prev_time : timeval)
    (prev_fact : option fact_ref) (conflicts : list conflict)
  : result (list conflict) :=
  match new_facts with
  | [] => Ok conflicts
  | fact :: rest =>
      (s <- verify_fact_sanity (NewFact idx) fact prev_time prev_fact
              (tag_new (S idx) rest ++ seqt) conflicts;;
       verify_sanity_loop (S idx) rest seqt (fst s) (Some (NewFact idx)) (snd s))%result
  end.

Definition verify_datetimes_sanity (new_facts : list Fact)
    (ante_fact seqt_fact : option Fact) (conflicts : list conflict)
  : result (list conflict) :=
  (prev_time <- prev_and_later ante_fact seqt_fact;;
   verify_sanity_loop 0 new_facts (seqt_list seqt_fact) prev_time
     (match ante_fact with Some _ => Some AnteFact | None => None end)
     conflicts)%result.

(** *** What the detector appends for one fact *)

Definition already_caught (self : fact_ref) (conflicts : list conflict) : bool :=
  existsb (fun c => fact_ref_eqb self (conflict_fact c)) conflicts.

Lemma fact_ref_eqb_eq a b : fact_ref_eqb a b = true <-> a = b.
Proof.
  destruct a, b; simpl; try (split; [discriminate|by inversion 1]); try done.
  rewrite Nat.eqb_eq. split; [by intros ->|by inversion 1].
Qed.

(** The conflicts appended for the start, the end and the order of a fact
    whose times are datetimes or blank. *)
Definition start_conflicts (self : fact_ref) (fact : Fact) (prev_time : timeval)
    (prev_fact : option fact_ref) : list conflict :=
  match start fact, prev_time with
  | TDatetime s, TDatetime p =>
      if s <? p then [(self, prev_fact, starts_before_reason)] else []
  | _, _ => []
  end.

Definition end_conflicts (self : fact_ref) (fact : Fact)
    (later_facts : list (fact_ref * Fact)) : list conflict :=
  match end_ fact, find_next_datetime later_facts with
  | TDatetime e, Some (next_time, next_fact) =>
      if next_time <? e then [(self, Some next_fact, ends_after_reason)] else []
  | _, _ => []
  end.

Definition order_conflicts (self : fact_ref) (fact : Fact) : list conflict :=
  match start fact, end_ fact with
  | TDatetime s, TDatetime e =>
      if e <? s then [(self, None, inverted_reason)] else []
  | _, _ => []
  end.

(** [prev_time] after a fact: its end if it has one, else its start if it
    has one, else what it was. *)
Definition prev_time_after (fact : Fact) (prev_time : timeval) : timeval :=
  match end_ fact with
  | TNone => match start fact with TNone => prev_time | v => v end
  | v => v
  end.

Definition times_not_text (fact : Fact) : Prop :=
  not_text (start fact) /\ not_text (end_ fact).

(** The detector on one fact, in closed form. A blank start or end is
    only checked to be flagged already (for the end, the conflict just
    appended for the start counts); nothing is appended for it. *)
Lemma verify_fact_sanity_closed self fact prev_time prev_fact later conflicts :
  times_not_text fact -> not_text prev_time ->
  verify_fact_sanity self fact prev_time prev_fact later conflicts =
  if (match start fact with TNone => negb (already_caught self conflicts) | _ => false end)
     || (match end_ fact with
         | TNone => negb (already_caught self
                            (conflicts ++ start_conflicts self fact prev_time prev_fact))
         | _ => false
         end)
  then Raise AssertionError
  else Ok (prev_time_after fact prev_time,
           conflicts ++ start_conflicts self fact prev_time prev_fact
                     ++ end_conflicts self fact later
                     ++ order_conflicts self fact).
Proof.
  intros [Hs He] Hp.
  unfold verify_fact_sanity, verify_datetimes_missing_already_caught,
    start_conflicts, end_conflicts, order_conflicts, prev_time_after, py_gt, py_lt.
  destruct fact as [k st en dl dr]; simpl in *.
  destruct st as [|s|?], en as [|e|?], prev_time as [|p|?]; try done; simpl;
    rewrite ?app_nil_r;
    repeat match goal with
           | |- context [existsb ?f ?l] => fold (already_caught self l)
           | H : already_caught self ?l = _ |- context [already_caught self ?l] =>
               rewrite H; simpl
           | |- context [already_caught self ?l] =>
               destruct (already_caught self l) eqn:?; simpl
           | |- context [find_next_datetime later] =>
               destruct (find_next_datetime later) as [[? ?]|]; simpl
           | |- context [?a <? ?b] => destruct (a <? b); simpl
           end;
    rewrite ?app_nil_r, <- ?app_assoc in *; (done || congruence).
Qed.

(** *** The detector over a resolved sequence *)

Definition both_absolute (fact : Fact) : Prop :=
  exists s e, start fact = TDatetime s /\ end_ fact = TDatetime e.

(** The fact a "starts before" conflict of the i-th fact refers to: the
    antecedent stored fact for the first, the fact before for the others. *)
Definition prev_fact_at (prev_fact : option fact_ref) (idx i : nat) : option fact_ref :=
  match i with
  | O => prev_fact
  | S j => Some (NewFact (idx + j))
  end.

(** Everything the detector appends for a fact with both times, and for
    the i-th fact of a sequence. *)
Definition fact_conflicts (self : fact_ref) (fact : Fact) (prev_time : timeval)
    (prev_fact : option fact_ref) (later_facts : list (fact_ref * Fact))
  : list conflict :=
  start_conflicts self fact prev_time prev_fact
  ++ end_conflicts self fact later_facts
  ++ order_conflicts self fact.

Definition appended_for (idx : nat) (new_facts : list Fact)
    (seqt : list (fact_ref * Fact)) (prev_time : timeval)
    (prev_fact : option fact_ref) (i : nat) (fact : Fact) : list conflict :=
  fact_conflicts (NewFact (idx + i)) fact (prev_time_at prev_time new_facts i)
    (prev_fact_at prev_fact idx i)
    (tag_new (S (idx + i)) (drop (S i) new_facts) ++ seqt).

Lemma appended_for_head idx f rest seqt prev_time prev_fact :
  appended_for idx (f :: rest) seqt prev_time prev_fact 0 f
  = fact_conflicts (NewFact idx) f prev_time prev_fact (tag_new (S idx) rest ++ seqt).
Proof. unfold appended_for. simpl. by rewrite Nat.add_0_r, drop_0. Qed.

Lemma appended_for_tail idx f rest seqt prev_time prev_fact i fact :
  appended_for idx (f :: rest) seqt prev_time prev_fact (S i) fact
  = appended_for (S idx) rest seqt (end_ f) (Some (NewFact idx)) i fact.
Proof.
  unfold appended_for.
  replace (idx + S i)%nat with (S idx + i)%nat by lia.
  assert (prev_time_at prev_time (f :: rest) (S i) = prev_time_at (end_ f) rest i) as ->
    by by destruct i.
  assert (prev_fact_at prev_fact idx (S i)
          = prev_fact_at (Some (NewFact idx)) (S idx) i) as ->.
  { destruct i as [|i]; simpl; [by rewrite Nat.add_0_r|].
    by replace (idx + S i)%nat with (S (idx + i)) by lia. }
  done.
Qed.

(** The facts the detector meets after the blank pass: every end is a
    datetime, and a start is a datetime or is blank and already heads a
    conflict. *)
Definition flagged_or_absolute (idx : nat) (conflicts : list conflict)
    (new_facts : list Fact) : Prop :=
  forall (i : nat) fact,
    new_facts !! i = Some fact ->
    (exists e, end_ fact = TDatetime e) /\
    ((exists s, start fact = TDatetime s) \/
     (start fact = TNone /\ already_caught (NewFact (idx + i)) conflicts = true)).

Lemma already_caught_app self conflicts added :
  already_caught self conflicts = true ->
  already_caught self (conflicts ++ added) = true.
Proof. unfold already_caught. rewrite existsb_app. by intros ->. Qed.

Lemma already_caught_in self other reason conflicts :
  In (self, other, reason) conflicts -> already_caught self conflicts = true.
Proof.
  intros Hin. unfold already_caught. apply existsb_exists.
  exists (self, other, reason). split; [done|]. by apply fact_ref_eqb_eq.
Qed.

Lemma verify_sanity_loop_flagged new_facts :
  forall idx seqt prev_time prev_fact conflicts,
    flagged_or_absolute idx conflicts new_facts -> not_text prev_time ->
    exists added,
      verify_sanity_loop idx new_facts seqt prev_time prev_fact conflicts
      = Ok (conflicts ++ added) /\
      forall c,
        In c added <->
        exists (i : nat) fact,
          new_facts !! i = Some fact /\
          In c (appended_for idx new_facts seqt prev_time prev_fact i fact).
Proof.
  induction new_facts as [|f rest IH]; intros idx seqt prev_time prev_fact conflicts Hfl Hp.
  - exists []. simpl. rewrite app_nil_r. split; [done|].
    intros c. split; [done|]. by intros (i & fact & Hi & _).
  - destruct (Hfl 0%nat f eq_refl) as [[e He] Hs]. rewrite Nat.add_0_r in Hs.
    simpl. rewrite verify_fact_sanity_closed;
      [|split; [by destruct Hs as [[s ->]|[-> _]]|by rewrite He]|done].
    assert (Hcond : match start f with
                    | TNone => negb (already_caught (NewFact idx) conflicts)
                    | _ => false
                    end = false).
    { destruct Hs as [[s ->]|[-> Hc]]; [done|]. by rewrite Hc. }
    rewrite Hcond, He. simpl.
    assert (Hafter : prev_time_after f prev_time = end_ f).
    { unfold prev_time_after. by rewrite He. }
    rewrite Hafter.
    destruct (IH (S idx) seqt (end_ f) (Some (NewFact idx))
                (conflicts ++ appended_for idx (f :: rest) seqt prev_time prev_fact 0 f))
      as (added & Hloop & Hadded).
    { intros i fact Hi. destruct (Hfl (S i) fact Hi) as [Hend Hstart].
      split; [done|]. destruct Hstart as [?|[? Hc]]; [by left|right].
      split; [done|]. apply already_caught_app.
      by replace (S idx + i)%nat with (idx + S i)%nat by lia. }
    { by rewrite He. }
    rewrite appended_for_head in Hloop. unfold fact_conflicts in Hloop.
    rewrite Hloop.
    exists (appended_for idx (f :: rest) seqt prev_time prev_fact 0 f ++ added).
    split; [by rewrite appended_for_head; unfold fact_conflicts; rewrite <- !app_assoc|].
    intros c. rewrite in_app_iff, Hadded. split.
    + intros [Hhead|(i & fact & Hi & Hc)].
      * by exists 0%nat, f.
      * exists (S i), fact. by rewrite appended_for_tail.
    + intros (i & fact & Hi & Hc). destruct i as [|i]; simpl in Hi.
      * simplify_eq. by left.
      * right. exists i, fact. by rewrite appended_for_tail in Hc.
Qed.

Lemma in_start_conflicts c self fact prev_time prev_fact :
  In c (start_conflicts self fact prev_time prev_fact) <->
  c = (self, prev_fact, starts_before_reason) /\
  exists s p, start fact = TDatetime s /\ prev_time = TDatetime p /\ s < p.
Proof.
  unfold start_conflicts.
  destruct (start fact) as [|s|?], prev_time as [|p|?]; simpl;
    try (split; [done|by intros (_ & ? & ? & ? & ? & _)]).
  destruct (Z.ltb_spec s p); simpl.
  - split; [intros [<-|[]]; split; [done|by eexists _, _]|intros [-> _]; by left].
  - split; [done|]. intros (_ & s' & p' & ? & ? & ?). simplify_eq. lia.
Qed.

Lemma in_end_conflicts c self fact later :
  In c (end_conflicts self fact later) <->
  exists e next_time next_fact,
    end_ fact = TDatetime e /\
    find_next_datetime later = Some (next_time, next_fact) /\
    next_time < e /\ c = (self, Some next_fact, ends_after_reason).
Proof.
  unfold end_conflicts.
  destruct (end_ fact) as [|e|?], (find_next_datetime later) as [[n r]|]; simpl;
    try (split; [done|by intros (? & ? & ? & ? & ? & _)]).
  destruct (Z.ltb_spec n e); simpl.
  - split; [intros [<-|[]]; by eexists _, _, _|].
    intros (? & ? & ? & ? & ? & _ & ->). simplify_eq. by left.
  - split; [done|]. intros (? & ? & ? & ? & ? & ? & _). simplify_eq. lia.
Qed.

Lemma in_order_conflicts c self fact :
  In c (order_conflicts self fact) <->
  c = (self, None, inverted_reason) /\
  exists s e, start fact = TDatetime s /\ end_ fact = TDatetime e /\ e < s.
Proof.
  unfold order_conflicts.
  destruct (start fact) as [|s|?], (end_ fact) as [|e|?]; simpl;
    try (split; [done|by intros (_ & ? & ? & ? & ? & _)]).
  destruct (Z.ltb_spec e s); simpl.
  - split; [intros [<-|[]]; split; [done|by eexists _, _]|intros [-> _]; by left].
  - split; [done|]. intros (_ & s' & e' & ? & ? & ?). simplify_eq. lia.
Qed.

(** The conflicts a list holds for one fact, read off the three checks of
    the detector: the start against [prev_time] (naming [prev_fact]), the
    end against the next datetime of [later_facts] (naming the fact it was
    found in), and the start against the end (naming no other fact). *)
Definition holds_conflicts_of (self : fact_ref) (fact : Fact)
    (prev_time : timeval) (prev_fact : option fact_ref)
    (later_facts : list (fact_ref * Fact)) (added : list conflict) : Prop :=
  (forall other,
      In (self, other, starts_before_reason) added <->
      other = prev_fact /\
      exists s p, start fact = TDatetime s /\ prev_time = TDatetime p /\ s < p) /\
  (forall other,
      In (self, other, ends_after_reason) added <->
      exists e next_time next_fact,
        end_ fact = TDatetime e /\
        find_next_datetime later_facts = Some (next_time, next_fact) /\
        other = Some next_fact /\ next_time < e) /\
  (forall other,
      In (self, other, inverted_reason) added <->
      other = None /\
      exists s e, start fact = TDatetime s /\ end_ fact = TDatetime e /\ e < s).

Definition sanity_reason (reason : string) : Prop :=
  reason = starts_before_reason \/ reason = ends_after_reason \/
  reason = inverted_reason.

Lemma in_fact_conflicts c self fact prev_time prev_fact later :
  In c (fact_conflicts self fact prev_time prev_fact later) ->
  conflict_fact c = self /\ sanity_reason (snd c).
Proof.
  unfold fact_conflicts, sanity_reason.
  rewrite !in_app_iff, in_start_conflicts, in_end_conflicts, in_order_conflicts.
  intros [[-> _]|[(? & ? & ? & _ & _ & _ & ->)|[-> _]]]; simpl; eauto.
Qed.

Lemma fact_conflicts_holds self fact prev_time prev_fact later :
  holds_conflicts_of self fact prev_time prev_fact later
    (fact_conflicts self fact prev_time prev_fact later).
Proof.
  unfold holds_conflicts_of, fact_conflicts.
  split; [|split]; intros other;
    rewrite !in_app_iff, in_start_conflicts, in_end_conflicts, in_order_conflicts.
  - split.
    + intros [[? ?]|[(? & ? & ? & _ & _ & _ & ?)|[? _]]]; by simplify_eq.
    + intros [-> ?]. by left.
  - split.
    + intros [[? ?]|[(e & n & r & ? & ? & ? & ?)|[? _]]]; simplify_eq.
      by eexists _, _, _.
    + intros (e & n & r & ? & ? & -> & ?). right. left. by eexists _, _, _.
  - split.
    + intros [[? ?]|[(? & ? & ? & _ & _ & _ & ?)|[? ?]]]; by simplify_eq.
    + intros [-> ?]. by right; right.
Qed.

(** ** The import itself: [_import_facts] from the hydrated facts on *)

(** What the import shows and does, in order. *)
Inductive event :=
| EchoNewConflict (c : conflict)
| MendFactsTimes (i : nat) (hint : time_hint)
| EchoSavedConflict (i : nat) (edited original : Fact)
| SaveFact (i : nat) (fact : Fact)
| WriteFact (i : nat) (fact : Fact)
| EchoFact (i : nat) (fact : Fact).

Section ImportFacts.

Context {clock : Type}.
Variable parse_clock_time : string -> option clock.
Variable parse_relative_minutes : string -> option Z.
Variable datetime_from_clock_after : datetime -> clock -> datetime.
Variable datetime_from_clock_prior : datetime -> clock -> datetime.
Variable now : datetime.

(** [controller.facts.antecedent(ref_time=...)] and [subsequent]. *)
Variable antecedent : datetime -> option Fact.
Variable subsequent : datetime -> option Fact.

(** [mend_facts_times(controller, fact, time_hint)] of the [create] module
    this file was written against: the (edited, original) pairs of stored
    facts the new fact collides with. *)
Variable mend_facts_times : Fact -> time_hint -> list (Fact * Fact).

(** [FactsCarousel(...).gallop()]: whether the user confirmed all facts. *)
Variable gallop : list Fact -> bool.

Fixpoint antecedent_fact (new_facts : list Fact) : option Fact :=
  match new_facts with
  | [] => None
  | fact :: rest =>
      match start fact with
      | TDatetime t => antecedent t
      | _ =>
          match end_ fact with
          | TDatetime t => antecedent t
          | _ => antecedent_fact rest
          end
      end
  end.

(** The loop of [subsequent_fact], over the facts already reversed. *)
Fixpoint subsequent_fact_scan (reversed_facts : list Fact) : option Fact :=
  match reversed_facts with
  | [] => None
  | fact :: rest =>
      match end_ fact with
      | TDatetime t => subsequent t
      | _ =>
          match start fact with
          | TDatetime t => subsequent t
          | _ => subsequent_fact_scan rest
          end
      end
  end.

Definition subsequent_fact (new_facts : list Fact) : option Fact :=
  subsequent_fact_scan (rev new_facts).

(** The four passes of [must_complete_times], on a list that is not
    empty: the facts as completed and the conflicts collected. *)
Definition complete_times (new_facts : list Fact)
  : result (list Fact * list conflict) :=
  let ante_fact := antecedent_fact new_facts in
  let seqt_fact := subsequent_fact new_facts in
  (s1 <- fix_clock_times_relative parse_clock_time datetime_from_clock_after
           datetime_from_clock_prior new_facts ante_fact seqt_fact [];;
   s2 <- fix_delta_times_relative parse_relative_minutes (fst s1)
           ante_fact seqt_fact (snd s1);;
   s3 <- fix_blank_times_relative now (fst s2) ante_fact seqt_fact (snd s2);;
   conflicts <- verify_datetimes_sanity (fst s3) ante_fact seqt_fact (snd s3);;
   Ok (fst s3, conflicts))%result.

(** [barf_on_overlapping_facts_new]: every conflict is shown, then
    [barf_and_exit] ends the import. *)
Definition barf_on_overlapping_facts_new (conflicts : list conflict)
  : list event * result unit :=
  match conflicts with
  | [] => ([], Ok tt)
  | _ => (map EchoNewConflict conflicts, Raise SystemExit)
  end.

Definition must_complete_times (new_facts : list Fact)
  : list event * result (list Fact) :=
  match new_facts with
  | [] => ([], Ok [])
  | _ =>
      match complete_times new_facts with
      | Raise e => ([], Raise e)
      | Ok (facts, conflicts) =>
          let '(log, r) := barf_on_overlapping_facts_new conflicts in
          (log, rbind r (fun _ => Ok facts))
      end
  end.

(** The loop of [must_not_conflict_existing]: one call of
    [mend_facts_times] per fact, with hint [verify_both]; the facts with
    conflicts are kept with them. *)
Fixpoint mend_all (idx : nat) (new_facts : list Fact)
  : list event * list (nat * list (Fact * Fact)) :=
  match new_facts with
  | [] => ([], [])
  | fact :: rest =>
      let conflicts := mend_facts_times fact verify_both in
      let '(log, all_conflicts) := mend_all (S idx) rest in
      (MendFactsTimes idx verify_both :: log,
       match conflicts with
       | [] => all_conflicts
       | _ => (idx, conflicts) :: all_conflicts
       end)
  end.

Definition echo_saved_fact_conflicts (entry : nat * list (Fact * Fact)) : list event :=
  map (fun edit => EchoSavedConflict (fst entry) (fst edit) (snd edit)) (snd entry).

Definition barf_on_overlapping_facts_old (all_conflicts : list (nat * list (Fact * Fact)))
  : list event * result unit :=
  match all_conflicts with
  | [] => ([], Ok tt)
  | _ => (concat (map echo_saved_fact_conflicts all_conflicts), Raise SystemExit)
  end.

Definition must_not_conflict_existing (new_facts : list Fact)
  : list event * result unit :=
  let '(log, all_conflicts) := mend_all 0 new_facts in
  let '(log', r) := barf_on_overlapping_facts_old all_conflicts in
  (log ++ log', r).

(** [persist_fact] *)
Definition persist_fact (fact : Fact) (idx : nat) (file_out dry : bool) : event :=
  if negb dry then
    if negb file_out then SaveFact idx fact else WriteFact idx fact
  else EchoFact idx fact.

Fixpoint record_new_facts (idx : nat) (new_facts : list Fact) (file_out dry : bool)
  : list event :=
  match new_facts with
  | [] => []
  | fact :: rest =>
      persist_fact fact idx file_out dry :: record_new_facts (S idx) rest file_out dry
  end.

(** [prompt_and_save], without its backup file: [prompt_all] and then
    [persist_facts]. *)
Definition prompt_and_save (new_facts : list Fact) (file_out yes dry : bool)
  : list event * result unit :=
  let confirmed_all := if yes then true else gallop new_facts in
  if confirmed_all then (record_new_facts 0 new_facts file_out dry, Ok tt)
  else ([], Ok tt).

Definition import_facts (new_facts : list Fact) (file_out yes dry : bool)
  : list event * result unit :=
  let '(log1, r1) := must_complete_times new_facts in
  match r1 with
  | Raise e => (log1, Raise e)
  | Ok facts =>
      let '(log2, r2) := must_not_conflict_existing facts in
      match r2 with
      | Raise e => (log1 ++ log2, Raise e)
      | Ok _ =>
          let '(log3, r3) := prompt_and_save facts file_out yes dry in
          (log1 ++ log2 ++ log3, r3)
      end
  end.

Definition is_store_check (e : event) : bool :=
  match e with
  | MendFactsTimes _ _ => true
  | _ => false
  end.

Definition is_persisted (e : event) : bool :=
  match e with
  | SaveFact _ _ | WriteFact _ _ => true
  | _ => false
  end.

(** *** The third pass *)

(** All the datetimes of [later_facts], in the order the scan meets them. *)
Fixpoint datetimes_of (later_facts : list (fact_ref * Fact)) : list datetime :=
  match later_facts with
  | [] => []
  | (_, fact) :: rest =>
      match start fact with TDatetime t => [t] | _ => [] end
      ++ match end_ fact with TDatetime t => [t] | _ => [] end
      ++ datetimes_of rest
  end.

Lemma find_next_datetime_first later :
  match find_next_datetime later with
  | Some (t, _) => exists rest, datetimes_of later = t :: rest
  | None => datetimes_of later = []
  end.
Proof.
  induction later as [|[r f] later IH]; simpl; [done|].
  destruct (start f) as [|s|?]; simpl; eauto;
    destruct (end_ f) as [|e|?]; simpl; eauto.
Qed.

Lemma complete_times_passes new_facts facts conflicts :
  complete_times new_facts = Ok (facts, conflicts) ->
  exists facts1 conflicts1 facts2 conflicts2 conflicts3,
    fix_clock_times_relative parse_clock_time datetime_from_clock_after
      datetime_from_clock_prior new_facts
      (antecedent_fact new_facts) (subsequent_fact new_facts) []
    = Ok (facts1, conflicts1) /\
    fix_delta_times_relative parse_relative_minutes facts1
      (antecedent_fact new_facts) (subsequent_fact new_facts) conflicts1
    = Ok (facts2, conflicts2) /\
    fix_blank_times_relative now facts2
      (antecedent_fact new_facts) (subsequent_fact new_facts) conflicts2
    = Ok (facts, conflicts3) /\
    verify_datetimes_sanity facts
      (antecedent_fact new_facts) (subsequent_fact new_facts) conflicts3
    = Ok conflicts.
Proof.
  unfold complete_times. intros H.
  destruct (fix_clock_times_relative _ _ _ new_facts _ _ [])
    as [[facts1 conflicts1]|] eqn:Hclock; [|done]. simpl in H.
  destruct (fix_delta_times_relative _ facts1 _ _ conflicts1)
    as [[facts2 conflicts2]|] eqn:Hdelta; [|done]. simpl in H.
  destruct (fix_blank_times_relative _ facts2 _ _ conflicts2)
    as [[facts3 conflicts3]|] eqn:Hblank; [|done]. simpl in H.
  destruct (verify_datetimes_sanity facts3 _ _ conflicts3)
    as [conflicts4|] eqn:Hsanity; [|done]. simpl in H. simplify_eq.
  by eexists _, _, _, _, _.
Qed.

(** C10, as amended. [must_complete_times] runs the blank pass third,
    after the clock pass and the delta pass and before the sanity pass.
    That pass fills a blank start with the running [prev_time], and a
    blank end with the first datetime the scan of the later facts (and
    then the subsequent stored fact) meets, a fact's start before its end,
    or with [now] when the scan meets none; that datetime is the earliest
    of the later datetimes when these are in chronological order. A
    conflict is recorded for a blank field only for a blank start met with
    no [prev_time], which over a whole sequence is the start of the first
    fact when there is no antecedent stored fact. *)
Theorem blank_times_are_filled_from_neighbours :
  (forall new_facts facts conflicts,
      complete_times new_facts = Ok (facts, conflicts) ->
      exists facts1 conflicts1 facts2 conflicts2 conflicts3,
        fix_clock_times_relative parse_clock_time datetime_from_clock_after
          datetime_from_clock_prior new_facts
          (antecedent_fact new_facts) (subsequent_fact new_facts) []
        = Ok (facts1, conflicts1) /\
        fix_delta_times_relative parse_relative_minutes facts1
          (antecedent_fact new_facts) (subsequent_fact new_facts) conflicts1
        = Ok (facts2, conflicts2) /\
        fix_blank_times_relative now facts2
          (antecedent_fact new_facts) (subsequent_fact new_facts) conflicts2
        = Ok (facts, conflicts3) /\
        verify_datetimes_sanity facts
          (antecedent_fact new_facts) (subsequent_fact new_facts) conflicts3
        = Ok conflicts) /\
  (forall self fact w prev_time later conflicts,
      getattr fact w = TNone ->
      fix_blank_time_relative now self fact w prev_time later conflicts =
      match w, prev_time with
      | Wstart, TNone =>
          Ok (fact, TNone,
              conflicts ++ [(self, None, "Cannot infer date of start time left blank"%string)])
      | Wstart, _ => Ok (setattr fact Wstart prev_time, prev_time, conflicts)
      | Wend, _ =>
          let dt := match find_next_datetime later with
                    | Some (next_time, _) => next_time
                    | None => now
                    end in
          Ok (setattr fact Wend (TDatetime dt), TDatetime dt, conflicts)
      end) /\
  (forall later next_time next_fact,
      find_next_datetime later = Some (next_time, next_fact) ->
      StronglySorted Z.le (datetimes_of later) ->
      forall t, In t (datetimes_of later) -> next_time <= t) /\
  (forall new_facts ante_fact seqt_fact conflicts,
      Forall resolved_fact new_facts ->
      store_integrity ante_fact seqt_fact ->
      exists facts',
        fix_blank_times_relative now new_facts ante_fact seqt_fact conflicts
        = Ok (facts',
              conflicts ++
              match ante_fact, new_facts with
              | None, fact :: _ =>
                  match start fact with
                  | TNone => [(NewFact 0, None,
                               "Cannot infer date of start time left blank"%string)]
                  | _ => []
                  end
              | _, _ => []
              end) /\
        forall (i : nat) fact,
          new_facts !! i = Some fact ->
          exists fact',
            facts' !! i = Some fact' /\
            (start fact = TNone ->
             start fact' = prev_time_at (match ante_fact with
                                         | Some ante => end_ ante
                                         | None => TNone
                                         end) facts' i) /\
            (forall s, start fact = TDatetime s -> start fact' = TDatetime s) /\
            (end_ fact = TNone ->
             end_ fact' =
             TDatetime match find_next_datetime
                               (tag_new (S i) (drop (S i) new_facts)
                                  ++ seqt_list seqt_fact) with
                       | Some (next_time, _) => next_time
                       | None => now
                       end) /\
            (forall e, end_ fact = TDatetime e -> end_ fact' = TDatetime e)).
Proof.
  split; [apply complete_times_passes|]. split; [|split].
  - intros self fact w prev_time later conflicts Hw.
    unfold fix_blank_time_relative. rewrite Hw.
    destruct w; [by destruct prev_time|].
    by destruct (find_next_datetime later) as [[t r]|].
  - intros later next_time next_fact Hnext Hsorted t Ht.
    pose proof (find_next_datetime_first later) as Hfirst.
    rewrite Hnext in Hfirst. destruct Hfirst as [rest Hrest].
    rewrite Hrest in Hsorted, Ht. inversion Hsorted as [|? ? _ Hall]; subst.
    destruct Ht as [<-|Ht]; [lia|].
    rewrite Forall_forall in Hall. apply Hall. by apply list_elem_of_In.
  - intros new_facts ante_fact seqt_fact conflicts Hall Hint.
    destruct (prev_and_later_ok _ _ Hint) as (p & Hp & Hnt & Hnone & Hsome).
    unfold fix_blank_times_relative, fix_times_relative. rewrite Hp. simpl.
    destruct (fix_blank_loop now new_facts 0 (seqt_list seqt_fact) p conflicts
                Hall Hnt) as (facts' & prev' & Hloop & Hfill).
    rewrite Hloop. simpl. exists facts'. split.
    + do 2 f_equal. destruct ante_fact as [ante|].
      * destruct Hint as [Ha _]. destruct (Ha ante eq_refl) as [t Ht].
        rewrite (Hsome ante eq_refl), Ht.
        destruct new_facts as [|f ?]; [done|].
        unfold blank_conflicts. by destruct (start f).
      * rewrite (Hnone eq_refl). destruct new_facts as [|f ?]; [done|].
        unfold blank_conflicts. by destruct (start f).
    + intros i fact Hi.
      destruct (Hfill i fact Hi) as (fact' & Hi' & Hs' & He' & _).
      exists fact'. split; [done|].
      assert (Hp0 : p = match ante_fact with Some ante => end_ ante | None => TNone end).
      { destruct ante_fact as [ante|]; [by apply Hsome|by apply Hnone]. }
      rewrite <- Hp0. unfold filled_start in Hs'. unfold filled_end in He'.
      simpl in He'.
      split; [by intros Hs; rewrite Hs in Hs'|].
      split; [by intros s Hs; rewrite Hs in Hs'|].
      split; [|by intros e He; rewrite He in He'].
      intros He. rewrite He in He'. rewrite He'.
      by destruct (find_next_datetime _) as [[t r]|].
Qed.

(** *** Abort before the store check *)

Lemma mend_all_events idx new_facts e :
  In e (fst (mend_all idx new_facts)) -> exists i, e = MendFactsTimes i verify_both.
Proof.
  revert idx. induction new_facts as [|f rest IH]; intros idx; simpl; [done|].
  destruct (mend_all (S idx) rest) as [log all_conflicts] eqn:Hrest. simpl.
  intros [<-|Hin]; [by eexists|]. apply (IH (S idx)). by rewrite Hrest.
Qed.

Lemma import_facts_conflicts new_facts facts conflicts file_out yes dry :
  new_facts <> [] ->
  complete_times new_facts = Ok (facts, conflicts) ->
  conflicts <> [] ->
  import_facts new_facts file_out yes dry
  = (map EchoNewConflict conflicts, Raise SystemExit).
Proof.
  intros Hne Hcomplete Hconflicts. unfold import_facts, must_complete_times.
  destruct new_facts as [|f rest]; [done|]. rewrite Hcomplete.
  by destruct conflicts.
Qed.

Lemma import_facts_reaches_store new_facts file_out yes dry e :
  In e (fst (import_facts new_facts file_out yes dry)) ->
  is_store_check e || is_persisted e = true ->
  exists facts, complete_times new_facts = Ok (facts, []).
Proof.
  unfold import_facts, must_complete_times. intros Hin He.
  destruct new_facts as [|f rest].
  - unfold must_not_conflict_existing, prompt_and_save in Hin. simpl in Hin.
    destruct (if yes then true else gallop []); simpl in Hin; done.
  - destruct (complete_times (f :: rest)) as [[facts conflicts]|]; [|done].
    destruct conflicts as [|c conflicts]; [by eexists|].
    simpl in Hin. destruct Hin as [<-|Hin]; [done|].
    apply in_map_iff in Hin. by destruct Hin as (? & <- & _).
Qed.

(** C4, as amended. The store check of the import (one
    [mend_facts_times] per fact, with hint [verify_both]) and the saving
    run only when the four passes over the whole batch collected no
    conflict: with any conflict the import shows the conflicts and
    exits, with no store check made and no fact saved or written. Three
    drafts with all times given, in order but for the second ending after
    the third starts, and with no stored neighbours, yield two conflicts,
    both between facts 2 and 3 (fact 2 ends after fact 3 starts, fact 3
    starts before fact 2 ends), and nothing is saved. *)
Theorem internal_conflicts_abort_import :
  (forall new_facts facts conflicts file_out yes dry,
      new_facts <> [] ->
      complete_times new_facts = Ok (facts, conflicts) ->
      conflicts <> [] ->
      import_facts new_facts file_out yes dry
      = (map EchoNewConflict conflicts, Raise SystemExit) /\
      forall e, In e (fst (import_facts new_facts file_out yes dry)) ->
                is_store_check e = false /\ is_persisted e = false) /\
  (forall new_facts file_out yes dry e,
      In e (fst (import_facts new_facts file_out yes dry)) ->
      is_store_check e || is_persisted e = true ->
      (forall i hint, e = MendFactsTimes i hint -> hint = verify_both) /\
      exists facts, complete_times new_facts = Ok (facts, [])) /\
  (forall k1 k2 k3 s1 e1 s2 e2 s3 e3 file_out yes dry,
      let fact1 := mkFact k1 (TDatetime s1) (TDatetime e1) false [] in
      let fact2 := mkFact k2 (TDatetime s2) (TDatetime e2) false [] in
      let fact3 := mkFact k3 (TDatetime s3) (TDatetime e3) false [] in
      s1 <= e1 -> e1 <= s2 -> s2 <= e2 -> s3 < e2 -> s3 <= e3 ->
      antecedent s1 = None -> subsequent e3 = None ->
      import_facts [fact1; fact2; fact3] file_out yes dry
      = ([EchoNewConflict (NewFact 1, Some (NewFact 2), ends_after_reason);
          EchoNewConflict (NewFact 2, Some (NewFact 1), starts_before_reason)],
         Raise SystemExit)).
Proof.
  split; [|split].
  - intros new_facts facts conflicts file_out yes dry Hne Hcomplete Hconflicts.
    rewrite (import_facts_conflicts _ _ _ _ _ _ Hne Hcomplete Hconflicts).
    split; [done|]. simpl. intros e Hin.
    apply in_map_iff in Hin. by destruct Hin as (? & <- & _).
  - intros new_facts file_out yes dry e Hin He.
    split; [|by eapply import_facts_reaches_store].
    intros i hint ->.
    destruct (import_facts_reaches_store _ _ _ _ _ Hin He) as [facts Hcomplete].
    unfold import_facts, must_complete_times in Hin.
    assert (Hlogs : forall facts',
               In (MendFactsTimes i hint)
                  (fst (let '(log2, r2) := must_not_conflict_existing facts' in
                        match r2 with
                        | Raise e => ([] ++ log2, Raise e)
                        | Ok _ =>
                            let '(log3, r3) := prompt_and_save facts' file_out yes dry in
                            ([] ++ log2 ++ log3, r3)
                        end)) -> hint = verify_both).
    { intros facts'. unfold must_not_conflict_existing.
      pose proof (mend_all_events 0 facts' (MendFactsTimes i hint)) as Hmend.
      destruct (mend_all 0 facts') as [log all_conflicts]. simpl in Hmend.
      assert (Hrec : forall idx l, ~ In (MendFactsTimes i hint)
                                    (record_new_facts idx l file_out dry)).
      { intros idx l. revert idx. induction l as [|g l IHl]; intros idx; simpl; [tauto|].
        intros [Hg|Hl]; [|by eapply IHl].
        unfold persist_fact in Hg. by destruct dry, file_out. }
      destruct all_conflicts as [|entry all_conflicts]; simpl.
      - unfold prompt_and_save.
        destruct (if yes then true else gallop facts'); simpl;
          rewrite ?app_nil_r; rewrite ?in_app_iff.
        + intros [Hl|Hr]; [|by apply Hrec in Hr].
          destruct (Hmend Hl) as [j Hj]. by simplify_eq.
        + intros Hl. destruct (Hmend Hl) as [j Hj]. by simplify_eq.
      - rewrite !in_app_iff. intros [Hl|[Hr|Hr]].
        + destruct (Hmend Hl) as [j Hj]. by simplify_eq.
        + unfold echo_saved_fact_conflicts in Hr.
          apply in_map_iff in Hr. by destruct Hr as (? & ? & _).
        + apply in_concat in Hr. destruct Hr as (l & Hl & Hin').
          apply in_map_iff in Hl. destruct Hl as (entry' & <- & _).
          unfold echo_saved_fact_conflicts in Hin'.
          apply in_map_iff in Hin'. by destruct Hin' as (? & ? & _). }
    destruct new_facts as [|f rest]; [by apply (Hlogs [])|].
    rewrite Hcomplete in Hin. simpl in Hin. by apply (Hlogs facts).
  - intros k1 k2 k3 s1 e1 s2 e2 s3 e3 file_out yes dry fact1 fact2 fact3
      H1 H12 H2 H23 H3 Hante Hseqt.
    assert (Hcomplete : complete_times [fact1; fact2; fact3]
              = Ok ([fact1; fact2; fact3],
                    [(NewFact 1, Some (NewFact 2), ends_after_reason);
                     (NewFact 2, Some (NewFact 1), starts_before_reason)])).
    { unfold complete_times, subsequent_fact. simpl. rewrite Hante, Hseqt. simpl.
      destruct (Z.ltb_spec s2 e1); [lia|].
      destruct (Z.ltb_spec s2 e1); [lia|].
      destruct (Z.ltb_spec e1 s1); [lia|].
      destruct (Z.ltb_spec s3 e2); [|lia].
      destruct (Z.ltb_spec e2 s2); [lia|].
      destruct (Z.ltb_spec e3 s3); [lia|].
      done. }
    by apply (import_facts_conflicts _ _ _ file_out yes dry) in Hcomplete.
Qed.

End ImportFacts.

End Transcode.

(** * The save path ([dob/create.py]) *)

Module Create.

(** The facts of a save are Python objects that are handed around and
    mutated in place ([save_fact] clears a placeholder [pk], and
    [record_ready_facts] reads [fact.pk] again afterwards), so they live
    in a heap and the code passes addresses. *)
Definition addr := nat.
Definition heap := addr -> Fact.

Definition set_pk (fact : Fact) (k : option Z) : Fact :=
  mkFact k (start fact) (end_ fact) (deleted fact) (dirty_reasons fact).

Definition heap_set (h : heap) (a : addr) (fact : Fact) : heap :=
  fun b => if Nat.eqb b a then fact else h b.

(** What the save path shows, asks and does, in order. A mend call is
    recorded with the [other_edits] it is handed. *)
Inductive event :=
| MendFact (fact : addr) (hint : time_hint) (other_edits : gmap (option Z) addr)
| EchoBanner (n : nat)
| Confirm (n_conflict : nat) (edited original : Fact)
| EchoDryRun
| EchoDiff (edited original : Fact)
| EchoCompleted (fact : Fact)
| EchoFact (fact : Fact)
| StoreSave (fact : Fact) (ignore_pks : gset (option Z))
| WriteFact (fact : Fact) (is_first_fact : bool).

Section Save.

(** The store behind [controller.facts]. *)
Context {Store : Type}.

(** [controller.facts.save(fact, ignore_pks=...)]: the store afterwards
    and the saved fact, or nothing when it raises. It is given the fact's
    value and does not touch the caller's objects. *)
Variable facts_save : Store -> Fact -> gset (option Z) -> option (Store * Fact).

(** [mend_fact_timey_wimey(controller, fact, time_hint, other_edits)] of
    [dob/helpers/fix_times.py]: it may mutate and create facts, and it is
    handed the dict [other_edits] itself, not a copy. So it hands back the
    heap and [other_edits] as it leaves them, with [new_fact_or_two] and
    the (edited, original) conflicts; or it raises. *)
Variable mend_fact_timey_wimey :
  Store -> heap -> addr -> time_hint -> gmap (option Z) addr ->
  result (heap * gmap (option Z) addr * list addr * list (addr * addr)).

(** The user's answer to [click.confirm] for conflict number [n_conflict]. *)
Variable click_confirm : nat -> Fact -> Fact -> bool.

Record state := mkState { st_store : Store; st_heap : heap }.

(** A computation reads and changes the state, emits events, and returns
    or raises; the state and the events survive a raise. *)
Definition M (A : Type) : Type := state -> result A * state * list event.

Definition ret {A} (a : A) : M A := fun st => (Ok a, st, []).

Definition raise {A} (e : exn) : M A := fun st => (Raise e, st, []).

Definition emit (e : event) : M unit := fun st => (Ok tt, st, [e]).

Definition bind {A B} (m : M A) (k : A -> M B) : M B :=
  fun st =>
    match m st with
    | (Ok a, st1, log1) =>
        let '(r, st2, log2) := k a st1 in (r, st2, log1 ++ log2)
    | (Raise e, st1, log1) => (Raise e, st1, log1)
    end.

Definition get_fact (a : addr) : M Fact := fun st => (Ok (st_heap st a), st, []).

Notation "x <- m ;; k" := (bind m (fun x => k))
  (at level 100, m at next level, right associativity).
Notation "m ;;; k" := (bind m (fun _ => k))
  (at level 100, right associativity).

Definition is_stopped (fact : Fact) : bool :=
  existsb (String.eqb "stopped") (dirty_reasons fact).

(** ** [must_confirm_fact_edits] *)

Definition cull_stopped_ongoing (h : heap) (conflicts : list (addr * addr))
  : list (addr * addr) :=
  List.filter (fun con => negb (is_stopped (h (fst con)))) conflicts.

(** The loop over the culled conflicts, with its two counters. *)
Fixpoint confirm_loop (h : heap) (yes : bool) (conflicts : list (addr * addr))
    (n_conflict n_confirms : nat) : list event * nat * nat :=
  match conflicts with
  | [] => ([], n_conflict, n_confirms)
  | (edited_fact, original) :: rest =>
      let n_conflict := S n_conflict in
      if negb yes then
        let confirmed := click_confirm n_conflict (h edited_fact) (h original) in
        let '(log, n, m) :=
          confirm_loop h yes rest n_conflict
            (if confirmed then S n_confirms else n_confirms) in
        (Confirm n_conflict (h edited_fact) (h original) :: log, n, m)
      else confirm_loop h yes rest n_conflict n_confirms
  end.

Definition must_confirm_fact_edits (conflicts : list (addr * addr))
    (yes dry : bool) : M unit :=
  fun st =>
    let conflicts := cull_stopped_ongoing (st_heap st) conflicts in
    match conflicts with
    | [] => (Ok tt, st, [])
    | _ =>
        let yes := yes || dry in
        let banner := if negb yes then [EchoBanner (length conflicts)] else [] in
        let '(log, n_conflict, n_confirms) :=
          confirm_loop (st_heap st) yes conflicts 0 0 in
        if Nat.eqb n_conflict n_confirms
        then (Ok tt, st, banner ++ log)
        else (Raise SystemExit, st, banner ++ log)
    end.

(** ** [save_facts_maybe] *)

(** [if fact.pk and fact.pk < 0: fact.pk = None] *)
Definition clear_placeholder (fact : Fact) : Fact :=
  match pk fact with
  | Some k => if negb (k =? 0) && (k <? 0) then set_pk fact None else fact
  | None => fact
  end.

(** The same on the object at [a], in place; the fact as it is
    afterwards is handed back. *)
Definition clear_placeholder_pk (a : addr) : M Fact :=
  fun st =>
    let fact := clear_placeholder (st_heap st a) in
    (Ok fact, mkState (st_store st) (heap_set (st_heap st) a fact), []).

(** [controller.facts.save] and, when it raises, [dob_in_user_exit]. *)
Definition store_save (fact : Fact) (ignore_pks : gset (option Z)) : M Fact :=
  fun st =>
    match facts_save (st_store st) fact ignore_pks with
    | Some (store', new_fact) =>
        (Ok new_fact, mkState store' (st_heap st), [StoreSave fact ignore_pks])
    | None => (Raise SystemExit, st, [StoreSave fact ignore_pks])
    end.

Definition save_fact (a : addr) (dry : bool) (ignore_pks : gset (option Z))
  : M (list Fact) :=
  fact <- clear_placeholder_pk a;;
  match pk fact, deleted fact with
  | None, true => ret []
  | _, _ =>
      if negb dry then
        new_fact <- store_save fact ignore_pks;; ret [new_fact]
      else emit (EchoFact fact);;; ret [fact]
  end.

Fixpoint save_conflicts (conflicts : list (addr * addr)) (dry : bool)
  : M (list Fact) :=
  match conflicts with
  | [] => ret []
  | (edited_fact, original) :: rest =>
      saved <-
        (if negb dry then
           saved <- save_fact edited_fact dry ∅;;
           edited <- get_fact edited_fact;;
           (if is_stopped edited then emit (EchoCompleted edited) else ret tt);;;
           ret saved
         else
           edited <- get_fact edited_fact;;
           orig <- get_fact original;;
           emit (EchoDiff edited orig);;; ret []);;
      more <- save_conflicts rest dry;;
      ret (saved ++ more)
  end.

Fixpoint save_new_facts (new_facts : list addr) (dry : bool)
    (ignore_pks : gset (option Z)) : M (list Fact) :=
  match new_facts with
  | [] => ret []
  | fact :: rest =>
      saved <- save_fact fact dry ignore_pks;;
      more <- save_new_facts rest dry ignore_pks;;
      ret (saved ++ more)
  end.

Definition save_facts_maybe (new_facts : list addr) (conflicts : list (addr * addr))
    (ignore_pks : gset (option Z)) (dry : bool) : M (list Fact) :=
  (match conflicts with
   | [] => ret tt
   | _ => if dry then emit EchoDryRun else ret tt
   end);;;
  edited <- save_conflicts conflicts dry;;
  new <- save_new_facts new_facts dry ignore_pks;;
  ret (edited ++ new).

(** ** [mend_facts_confirm_and_save_maybe] *)

(** The call of the mender: the facts and the conflicts it returns, and
    [other_edits] as the call left it. *)
Definition mend (fact : addr) (hint : time_hint) (other_edits : gmap (option Z) addr)
  : M (gmap (option Z) addr * list addr * list (addr * addr)) :=
  fun st =>
    match mend_fact_timey_wimey (st_store st) (st_heap st) fact hint other_edits with
    | Ok (h', other_edits', new_fact_or_two, conflicts) =>
        (Ok (other_edits', new_fact_or_two, conflicts), mkState (st_store st) h',
         [MendFact fact hint other_edits])
    | Raise e => (Raise e, st, [MendFact fact hint other_edits])
    end.

Definition confirm_conflicts_and_save_all (new_fact_or_two : list addr)
    (conflicts : list (addr * addr)) (other_edits : gmap (option Z) addr)
    (yes dry : bool) : M (list Fact) :=
  let ignore_pks := dom other_edits in
  must_confirm_fact_edits conflicts yes dry;;;
  save_facts_maybe new_fact_or_two conflicts ignore_pks dry.

(** It returns the saved facts; [other_edits], which the caller reads
    again, is handed back next to them. *)
Definition mend_facts_confirm_and_save_maybe (fact : addr) (hint : time_hint)
    (other_edits : gmap (option Z) addr) (yes dry : bool)
  : M (list Fact * gmap (option Z) addr) :=
  mended <- mend fact hint other_edits;;
  let '(other_edits, new_fact_or_two, conflicts) := mended in
  saved_facts <-
    confirm_conflicts_and_save_all new_fact_or_two conflicts other_edits yes dry;;
  ret (saved_facts, other_edits).

(** ** The batch save loop: [record_ready_facts] *)

Definition persist_fact_save (fact : addr) (is_final_fact : bool)
    (other_edits : gmap (option Z) addr) (yes dry : bool)
  : M (list Fact * gmap (option Z) addr) :=
  let hint := if negb is_final_fact then verify_both else verify_last in
  mend_facts_confirm_and_save_maybe fact hint other_edits yes dry.

Definition persist_fact (fact : addr) (other_edits : gmap (option Z) addr)
    (is_first_fact is_final_fact file_out yes dry : bool)
  : M (list Fact * gmap (option Z) addr) :=
  if negb dry then
    if negb file_out then persist_fact_save fact is_final_fact other_edits yes dry
    else
      f <- get_fact fact;;
      emit (WriteFact f is_first_fact);;; ret ([f], other_edits)
  else
    f <- get_fact fact;;
    emit (EchoFact f);;; ret ([f], other_edits).

(** [{fact.pk: fact for fact in ready_facts}]: a later fact replaces an
    earlier one with the same [pk]. *)
Definition make_other_edits (h : heap) (ready_facts : list addr)
  : gmap (option Z) addr :=
  foldl (fun m fact => <[pk (h fact) := fact]> m) ∅ ready_facts.

(** [fact.pk is not None and fact.pk or fact_pk] *)
Definition edits_key (pk_now fact_pk : option Z) : option Z :=
  match pk_now with
  | Some k => if k =? 0 then fact_pk else Some k
  | None => fact_pk
  end.

(** The loop of [record_ready_facts] from index [idx] on; [n] is
    [len(ready_facts)]. It hands back the facts saved and [other_edits]
    as the deletions left it. *)
Fixpoint record_ready_loop (n idx : nat) (ready_facts : list addr)
    (other_edits : gmap (option Z) addr) (file_out yes dry : bool)
  : M (list Fact * gmap (option Z) addr) :=
  match ready_facts with
  | [] => ret ([], other_edits)
  | fact :: rest =>
      let is_first_fact := Nat.eqb idx 0 in
      let is_final_fact := Nat.eqb idx (n - 1) in
      before <- get_fact fact;;
      let fact_pk := pk before in
      persisted <- persist_fact fact other_edits is_first_fact is_final_fact
                     file_out yes dry;;
      let '(saved, other_edits) := persisted in
      after <- get_fact fact;;
      let key := edits_key (pk after) fact_pk in
      match other_edits !! key with
      | None => raise KeyError
      | Some _ =>
          more <- record_ready_loop n (S idx) rest (delete key other_edits)
                    file_out yes dry;;
          ret (saved ++ fst more, snd more)
      end
  end.

Definition record_ready_facts (ready_facts : list addr) (file_out yes dry : bool)
  : M (list Fact) :=
  fun st =>
    let other_edits := make_other_edits (st_heap st) ready_facts in
    (done <- record_ready_loop (length ready_facts) 0 ready_facts other_edits
               file_out yes dry;;
     if Nat.eqb (size (snd done)) 0 then ret (fst done) else raise AssertionError) st.

Definition persist_facts (ready_facts : list addr) (file_out yes dry : bool)
  : M (list Fact) :=
  match ready_facts with
  | [] => ret []
  | _ => record_ready_facts ready_facts file_out yes dry
  end.

(** ** Properties of the confirmation step *)

(** The prompt shown for the i-th conflict left after the culling, when
    counting starts after [n]. *)
Definition prompt_for (h : heap) (n i : nat) (con : addr * addr) : event :=
  Confirm (S (n + i)) (h (fst con)) (h (snd con)).

Definition answer_for (h : heap) (n i : nat) (con : addr * addr) : bool :=
  click_confirm (S (n + i)) (h (fst con)) (h (snd con)).

Lemma confirm_loop_prompts h conflicts :
  forall n m log n' m',
    confirm_loop h false conflicts n m = (log, n', m') ->
    log = imap (prompt_for h n) conflicts /\
    n' = (n + length conflicts)%nat /\
    (m <= m')%nat /\ (m' - m <= length conflicts)%nat /\
    ((m' - m = length conflicts)%nat <->
     forall (i : nat) con, conflicts !! i = Some con -> answer_for h n i con = true).
Proof.
  induction conflicts as [|[edited original] rest IH]; intros n m log n' m' Hloop.
  - simpl in Hloop. simplify_eq. simpl.
    repeat split; try lia. intros _ i con Hi. done.
  - simpl in Hloop.
    destruct (confirm_loop h false rest (S n)
                (if click_confirm (S n) (h edited) (h original) then S m else m))
      as [[log1 n1] m1] eqn:Hrest.
    injection Hloop as <- <- <-. apply IH in Hrest.
    destruct Hrest as (-> & -> & Hle & Hub & Hall).
    assert (Hshift : forall (i : nat) con,
               prompt_for h (S n) i con = prompt_for h n (S i) con).
    { intros i con. unfold prompt_for. do 2 f_equal. lia. }
    assert (Hshift' : forall (i : nat) con,
               answer_for h (S n) i con = answer_for h n (S i) con).
    { intros i con. unfold answer_for. f_equal. lia. }
    split.
    { rewrite imap_cons. f_equal.
      - unfold prompt_for. simpl. by rewrite Nat.add_0_r.
      - apply imap_ext. intros i con _. apply Hshift. }
    split; [simpl; lia|].
    destruct (click_confirm (S n) (h edited) (h original)) eqn:Hans; simpl.
    + split; [lia|]. split; [lia|]. split.
      * intros Hcount i con Hi. destruct i as [|i]; simpl in Hi.
        -- simplify_eq. unfold answer_for. simpl. by rewrite Nat.add_0_r.
        -- rewrite <- Hshift'. apply Hall; [lia|done].
      * intros Hyes.
        assert (m1 - S m = length rest)%nat; [|lia].
        apply Hall. intros i con Hi. rewrite Hshift'. by apply (Hyes (S i)).
    + split; [lia|]. split; [lia|]. split.
      * intros Hcount. lia.
      * intros Hyes. specialize (Hyes 0%nat (edited, original) eq_refl).
        unfold answer_for in Hyes. simpl in Hyes. rewrite Nat.add_0_r in Hyes.
        congruence.
Qed.

Definition is_store_save (e : event) : bool :=
  match e with
  | StoreSave _ _ => true
  | _ => false
  end.

(** What is shown and asked for a list of conflicts: nothing when no
    conflict is left after the culling, else the banner and one prompt for
    each conflict left, numbered from 1. *)
Definition asked_events (h : heap) (conflicts : list (addr * addr)) : list event :=
  let kept := cull_stopped_ongoing h conflicts in
  match kept with
  | [] => []
  | _ => EchoBanner (length kept) :: imap (prompt_for h 0) kept
  end.

(** The user says yes to every prompt. *)
Definition all_confirmed (h : heap) (conflicts : list (addr * addr)) : Prop :=
  forall (i : nat) con,
    cull_stopped_ongoing h conflicts !! i = Some con -> answer_for h 0 i con = true.

Lemma must_confirm_fact_edits_asks conflicts st :
  exists r,
    must_confirm_fact_edits conflicts false false st
    = (r, st, asked_events (st_heap st) conflicts) /\
    (r = Ok tt \/ r = Raise SystemExit) /\
    (r = Ok tt <-> all_confirmed (st_heap st) conflicts).
Proof.
  unfold must_confirm_fact_edits, asked_events, all_confirmed.
  destruct (cull_stopped_ongoing (st_heap st) conflicts) as [|con kept'] eqn:Hkept.
  - exists (Ok tt). split; [done|]. split; [by left|]. split; [done|done].
  - change (false || false) with false. simpl negb. cbv iota.
    destruct (confirm_loop (st_heap st) false (con :: kept') 0 0)
      as [[log n] m] eqn:Hloop.
    apply confirm_loop_prompts in Hloop.
    destruct Hloop as (-> & -> & _ & Hub & Hall).
    rewrite Nat.sub_0_r in Hall, Hub. change (0 + length (con :: kept'))%nat
      with (length (con :: kept')).
    destruct (Nat.eqb_spec (length (con :: kept')) m) as [Heq|Hne].
    + exists (Ok tt). split; [done|]. split; [by left|].
      split; [|done]. intros _. by apply Hall.
    + exists (Raise SystemExit). split; [done|]. split; [by right|].
      split; [done|]. intros Hyes. apply Hall in Hyes. lia.
Qed.

Lemma must_confirm_fact_edits_rejected conflicts st :
  ~ all_confirmed (st_heap st) conflicts ->
  must_confirm_fact_edits conflicts false false st
  = (Raise SystemExit, st, asked_events (st_heap st) conflicts).
Proof.
  intros Hnot.
  destruct (must_confirm_fact_edits_asks conflicts st) as (r & Hrun & Hr & Hiff).
  rewrite Hrun. destruct Hr as [->| ->]; [|done].
  exfalso. apply Hnot. by apply Hiff.
Qed.

(** C7, as amended. With neither [yes] nor [dry] set,
    [must_confirm_fact_edits] first culls the conflicts whose edited fact
    has the dirty reason stopped, then asks once for each conflict that is
    left, in order and numbered from 1, whatever the answers are; it
    returns only when every answer was yes and exits otherwise. The
    conflicts culled are never asked about. When it exits,
    [confirm_conflicts_and_save_all] and so
    [mend_facts_confirm_and_save_maybe] end there: the store is as it was
    before that call and no save was attempted. In the batch loop the exit
    ends the loop at that fact, with the store as the facts before it left
    it: what was saved for them stays saved. *)
Theorem unconfirmed_edits_abort_before_saving :
  (forall h conflicts con,
      In con (cull_stopped_ongoing h conflicts) <->
      In con conflicts /\ is_stopped (h (fst con)) = false) /\
  (forall conflicts st,
      all_confirmed (st_heap st) conflicts ->
      must_confirm_fact_edits conflicts false false st
      = (Ok tt, st, asked_events (st_heap st) conflicts)) /\
  (forall conflicts st,
      ~ all_confirmed (st_heap st) conflicts ->
      must_confirm_fact_edits conflicts false false st
      = (Raise SystemExit, st, asked_events (st_heap st) conflicts) /\
      forall new_fact_or_two other_edits,
        confirm_conflicts_and_save_all new_fact_or_two conflicts other_edits
          false false st
        = (Raise SystemExit, st, asked_events (st_heap st) conflicts)) /\
  (forall h conflicts e,
      In e (asked_events h conflicts) ->
      is_store_save e = false /\
      forall n edited original,
        e = Confirm n edited original ->
        exists (i : nat) con,
          cull_stopped_ongoing h conflicts !! i = Some con /\
          n = S i /\ edited = h (fst con) /\ original = h (snd con) /\
          is_stopped edited = false) /\
  (forall fact hint other_edits st h' other_edits' new_fact_or_two conflicts,
      mend_fact_timey_wimey (st_store st) (st_heap st) fact hint other_edits
      = Ok (h', other_edits', new_fact_or_two, conflicts) ->
      ~ all_confirmed h' conflicts ->
      mend_facts_confirm_and_save_maybe fact hint other_edits false false st
      = (Raise SystemExit, mkState (st_store st) h',
         MendFact fact hint other_edits :: asked_events h' conflicts)) /\
  (forall n idx fact rest other_edits st h' other_edits' new_fact_or_two conflicts,
      let hint := if Nat.eqb idx (n - 1) then verify_last else verify_both in
      mend_fact_timey_wimey (st_store st) (st_heap st) fact hint other_edits
      = Ok (h', other_edits', new_fact_or_two, conflicts) ->
      ~ all_confirmed h' conflicts ->
      record_ready_loop n idx (fact :: rest) other_edits false false false st
      = (Raise SystemExit, mkState (st_store st) h',
         MendFact fact hint other_edits :: asked_events h' conflicts)).
Proof.
  assert (Hcull : forall h conflicts con,
             In con (cull_stopped_ongoing h conflicts) <->
             In con conflicts /\ is_stopped (h (fst con)) = false).
  { intros h conflicts con. unfold cull_stopped_ongoing. rewrite filter_In.
    by rewrite negb_true_iff. }
  assert (Hcall : forall fact hint other_edits st h' other_edits' new_fact_or_two
                         conflicts,
             mend_fact_timey_wimey (st_store st) (st_heap st) fact hint other_edits
             = Ok (h', other_edits', new_fact_or_two, conflicts) ->
             ~ all_confirmed h' conflicts ->
             mend_facts_confirm_and_save_maybe fact hint other_edits false false st
             = (Raise SystemExit, mkState (st_store st) h',
                MendFact fact hint other_edits :: asked_events h' conflicts)).
  { intros fact hint other_edits st h' other_edits' new_fact_or_two conflicts Hmend Hnot.
    unfold mend_facts_confirm_and_save_maybe, bind, mend. rewrite Hmend. simpl.
    unfold confirm_conflicts_and_save_all, bind.
    by rewrite (must_confirm_fact_edits_rejected conflicts
                  (mkState (st_store st) h') Hnot). }
  split; [done|]. split; [|split; [|split; [|split; [done|]]]].
  - intros conflicts st Hyes.
    destruct (must_confirm_fact_edits_asks conflicts st) as (r & Hrun & _ & Hiff).
    apply Hiff in Hyes. by rewrite Hrun, Hyes.
  - intros conflicts st Hnot. split; [by apply must_confirm_fact_edits_rejected|].
    intros new_fact_or_two other_edits.
    unfold confirm_conflicts_and_save_all, bind.
    by rewrite (must_confirm_fact_edits_rejected _ _ Hnot).
  - intros h conflicts e He. unfold asked_events in He.
    destruct (cull_stopped_ongoing h conflicts) as [|con kept'] eqn:Hkept; [done|].
    destruct He as [<-|He]; [done|].
    apply list_elem_of_In, elem_of_lookup_imap in He.
    destruct He as (i & con' & -> & Hi). split; [done|].
    intros n edited original Heq. unfold prompt_for in Heq. simpl in Heq.
    injection Heq as <- <- <-.
    exists i, con'. repeat split; try done.
    apply (Hcull h conflicts con'). rewrite Hkept.
    apply list_elem_of_In. by eapply list_elem_of_lookup_2.
  - intros n idx fact rest other_edits st h' other_edits' new_fact_or_two conflicts
      hint Hmend Hnot.
    cbn [record_ready_loop]. unfold bind at 1. unfold get_fact at 1. cbv iota beta.
    unfold bind at 1. unfold persist_fact, persist_fact_save. cbn [negb].
    assert (Hhint : (if negb (Nat.eqb idx (n - 1)) then verify_both else verify_last)
                    = hint).
    { subst hint. by destruct (Nat.eqb idx (n - 1)). }
    rewrite Hhint.
    by rewrite (Hcall _ _ _ _ _ _ _ _ Hmend Hnot).
Qed.

(** ** What a save does to the state *)

Definition mend_of (e : event) : option (addr * time_hint) :=
  match e with
  | MendFact fact hint _ => Some (fact, hint)
  | _ => None
  end.

(** The mend calls of a log, in order. *)
Definition mends (log : list event) : list (addr * time_hint) := omap mend_of log.



(** A [pk] that [save_fact] clears: a negative placeholder. *)
Definition is_placeholder (k : option Z) : Prop := exists z, k = Some z /\ z < 0.

(** From heap [h] to heap [h']: the [pk] of a fact is kept, or it was a
    placeholder and is cleared, and the fact is one of [touched]. *)
Definition pk_kept_or_cleared (touched : addr -> Prop) (h h' : heap) : Prop :=
  forall b,
    pk (h' b) = pk (h b) \/
    (touched b /\ is_placeholder (pk (h b)) /\ pk (h' b) = None).

(** A computation is tame when it makes no mend call and keeps or clears
    [pk]s as above, however it ends, and ends by [SystemExit] if it raises. *)
Definition tame {A} (touched : addr -> Prop) (m : M A) : Prop :=
  forall st r st' log,
    m st = (r, st', log) ->
    mends log = [] /\ pk_kept_or_cleared touched (st_heap st) (st_heap st') /\
    (forall e, r = Raise e -> e = SystemExit).

Lemma pk_kept_refl touched h : pk_kept_or_cleared touched h h.
Proof. intros b. by left. Qed.

Lemma pk_kept_trans touched h1 h2 h3 :
  pk_kept_or_cleared touched h1 h2 -> pk_kept_or_cleared touched h2 h3 ->
  pk_kept_or_cleared touched h1 h3.
Proof.
  intros H12 H23 b. destruct (H23 b) as [Heq|(Ht & Hp & Hn)].
  - rewrite Heq. apply H12.
  - destruct (H12 b) as [Heq|(_ & Hp' & _)]; [|by right].
    right. by rewrite <- Heq.
Qed.

Lemma bind_inv {A B} (m : M A) (k : A -> M B) st r st2 log :
  bind m k st = (r, st2, log) ->
  (exists a st1 log1 log2,
      m st = (Ok a, st1, log1) /\ k a st1 = (r, st2, log2) /\ log = log1 ++ log2) \/
  (exists e, m st = (Raise e, st2, log) /\ r = Raise e).
Proof.
  unfold bind. destruct (m st) as [[[a|e] st1] log1].
  - destruct (k a st1) as [[r' st2'] log2] eqn:Hk. intros [= <- <- <-].
    left. by eexists _, _, _, _.
  - intros [= <- <- <-]. right. by eexists.
Qed.

Lemma tame_mono {A} (touched touched' : addr -> Prop) (m : M A) :
  (forall b, touched b -> touched' b) -> tame touched m -> tame touched' m.
Proof.
  intros Hsub Hm st r st' log Hrun. destruct (Hm _ _ _ _ Hrun) as (Hlog & Hpk & He).
  split; [done|]. split; [|done].
  intros b. destruct (Hpk b) as [?|(? & ? & ?)]; [by left|right; eauto].
Qed.

Lemma tame_ret {A} touched (a : A) : tame touched (ret a).
Proof.
  intros st r st' log [= <- <- <-]. split; [done|]. split; [apply pk_kept_refl|done].
Qed.

Lemma tame_get_fact touched a : tame touched (get_fact a).
Proof.
  intros st r st' log [= <- <- <-]. split; [done|]. split; [apply pk_kept_refl|done].
Qed.

Lemma tame_emit touched e : mend_of e = None -> tame touched (emit e).
Proof.
  intros He st r st' log [= <- <- <-]. split; [|split; [apply pk_kept_refl|done]].
  unfold mends. simpl. by rewrite He.
Qed.

Lemma tame_bind {A B} touched (m : M A) (k : A -> M B) :
  tame touched m -> (forall a, tame touched (k a)) -> tame touched (bind m k).
Proof.
  intros Hm Hk st r st2 log Hrun.
  apply bind_inv in Hrun.
  destruct Hrun as [(a & st1 & log1 & log2 & Hm1 & Hk1 & ->)|(e & Hm1 & ->)].
  - destruct (Hm _ _ _ _ Hm1) as (Hl1 & Hp1 & _),
      (Hk a _ _ _ _ Hk1) as (Hl2 & Hp2 & He2).
    split; [|split; [by eapply pk_kept_trans|done]].
    unfold mends in *. by rewrite omap_app, Hl1, Hl2.
  - destruct (Hm _ _ _ _ Hm1) as (Hl1 & Hp1 & He1).
    split; [done|]. split; [done|]. intros e' [= <-]. by apply He1.
Qed.

Lemma clear_placeholder_keeps_or_clears fact :
  pk (clear_placeholder fact) = pk fact \/
  (is_placeholder (pk fact) /\ pk (clear_placeholder fact) = None).
Proof.
  unfold clear_placeholder. destruct (pk fact) as [k|] eqn:Hk; [|by left].
  destruct (negb (k =? 0) && (k <? 0)) eqn:Hneg; [|by left].
  right. split; [|done]. exists k. split; [done|].
  apply andb_true_iff in Hneg. destruct Hneg as [_ Hlt]. by apply Z.ltb_lt.
Qed.

Lemma tame_clear_placeholder_pk a : tame (eq a) (clear_placeholder_pk a).
Proof.
  intros st r st' log [= <- <- <-]. split; [done|]. split; [|done]. simpl.
  intros b. unfold heap_set. destruct (Nat.eqb_spec b a) as [->|Hne]; [|by left].
  destruct (clear_placeholder_keeps_or_clears (st_heap st a)) as [?|[? ?]];
    [by left|by right].
Qed.

Lemma tame_store_save touched fact ignore_pks : tame touched (store_save fact ignore_pks).
Proof.
  intros st r st' log. unfold store_save.
  destruct (facts_save (st_store st) fact ignore_pks) as [[store' new_fact]|];
    intros [= <- <- <-]; (split; [done|]; split; [apply pk_kept_refl|]);
    by intros e [= <-].
Qed.

Lemma tame_save_fact a dry ignore_pks : tame (eq a) (save_fact a dry ignore_pks).
Proof.
  unfold save_fact. apply tame_bind; [apply tame_clear_placeholder_pk|].
  intros fact.
  assert (Hsave : tame (eq a)
                    (if negb dry
                     then new_fact <- store_save fact ignore_pks;; ret [new_fact]
                     else emit (EchoFact fact);;; ret [fact])).
  { destruct dry; simpl.
    - apply tame_bind; [by apply tame_emit|]. intros _. apply tame_ret.
    - apply tame_bind; [apply tame_store_save|]. intros ?. apply tame_ret. }
  destruct (pk fact), (deleted fact); try done. apply tame_ret.
Qed.

Lemma tame_save_conflicts conflicts dry :
  tame (fun b => In b (map fst conflicts)) (save_conflicts conflicts dry).
Proof.
  induction conflicts as [|[edited original] rest IH]; simpl; [apply tame_ret|].
  apply tame_bind.
  - destruct dry; simpl.
    + apply tame_bind; [apply tame_get_fact|]. intros e.
      apply tame_bind; [apply tame_get_fact|]. intros o.
      apply tame_bind; [by apply tame_emit|]. intros _. apply tame_ret.
    + apply tame_bind.
      { eapply tame_mono; [|apply tame_save_fact]. intros b <-. by left. }
      intros saved. apply tame_bind; [apply tame_get_fact|]. intros e.
      apply tame_bind; [|intros _; apply tame_ret].
      destruct (is_stopped e); [by apply tame_emit|apply tame_ret].
  - intros saved. apply tame_bind; [|intros more; apply tame_ret].
    eapply tame_mono; [|apply IH]. intros b Hb. by right.
Qed.

Lemma tame_save_new_facts new_facts dry ignore_pks :
  tame (fun b => In b new_facts) (save_new_facts new_facts dry ignore_pks).
Proof.
  induction new_facts as [|a rest IH]; simpl; [apply tame_ret|].
  apply tame_bind.
  - eapply tame_mono; [|apply tame_save_fact]. intros b <-. by left.
  - intros saved. apply tame_bind; [|intros more; apply tame_ret].
    eapply tame_mono; [|apply IH]. intros b Hb. by right.
Qed.

Lemma tame_save_facts_maybe new_facts conflicts ignore_pks dry :
  tame (fun b => In b new_facts \/ In b (map fst conflicts))
    (save_facts_maybe new_facts conflicts ignore_pks dry).
Proof.
  unfold save_facts_maybe. apply tame_bind.
  - destruct conflicts; [apply tame_ret|].
    destruct dry; [by apply tame_emit|apply tame_ret].
  - intros _. apply tame_bind.
    + eapply tame_mono; [|apply tame_save_conflicts]. intros b Hb. by right.
    + intros edited. apply tame_bind; [|intros new; apply tame_ret].
      eapply tame_mono; [|apply tame_save_new_facts]. intros b Hb. by left.
Qed.

Lemma confirm_loop_no_mend h yes conflicts :
  forall n m log n' m',
    confirm_loop h yes conflicts n m = (log, n', m') -> mends log = [].
Proof.
  induction conflicts as [|[edited original] rest IH]; intros n m log n' m'; simpl.
  - by intros [= <- _ _].
  - destruct yes; simpl; [apply IH|].
    destruct (confirm_loop h false rest (S n) _) as [[log1 n1] m1] eqn:Hrest.
    intros [= <- _ _]. simpl. by apply IH in Hrest.
Qed.

Lemma tame_must_confirm_fact_edits touched conflicts yes dry :
  tame touched (must_confirm_fact_edits conflicts yes dry).
Proof.
  intros st r st' log. unfold must_confirm_fact_edits.
  destruct (cull_stopped_ongoing (st_heap st) conflicts) as [|con kept].
  - intros [= <- <- <-]. split; [done|]. split; [apply pk_kept_refl|done].
  - destruct (confirm_loop (st_heap st) (yes || dry) (con :: kept) 0 0)
      as [[log1 n] m] eqn:Hloop.
    apply confirm_loop_no_mend in Hloop.
    assert (Hlog : mends ((if negb (yes || dry)
                           then [EchoBanner (length (con :: kept))] else []) ++ log1) = []).
    { unfold mends in *. rewrite omap_app, Hloop. by destruct (yes || dry). }
    destruct (n =? m)%nat; intros [= <- <- <-];
      (split; [done|]; split; [apply pk_kept_refl|]); by intros e [= <-].
Qed.

Lemma tame_confirm_conflicts_and_save_all new_fact_or_two conflicts other_edits yes dry :
  tame (fun b => In b new_fact_or_two \/ In b (map fst conflicts))
    (confirm_conflicts_and_save_all new_fact_or_two conflicts other_edits yes dry).
Proof.
  unfold confirm_conflicts_and_save_all.
  apply tame_bind; [apply tame_must_confirm_fact_edits|].
  intros _. apply tame_save_facts_maybe.
Qed.

(** ** What is handed to the store *)

Definition save_of (e : event) : option (Fact * gset (option Z)) :=
  match e with
  | StoreSave fact ignore_pks => Some (fact, ignore_pks)
  | _ => None
  end.

(** The calls of [controller.facts.save] of a log, in order: the fact
    handed over and the [ignore_pks] it is saved with. *)
Definition saves (log : list event) : list (Fact * gset (option Z)) := omap save_of log.

(** [fact.pk is None and fact.deleted]: a fact [save_fact] drops. *)
Definition is_dead (fact : Fact) : bool :=
  match pk fact, deleted fact with
  | None, true => true
  | _, _ => false
  end.

(** What [save_facts_maybe] is to save, in order: the edited fact of each
    conflict, with no [ignore_pks], then each new fact, with the caller's. *)
Definition save_items (conflicts : list (addr * addr)) (new_facts : list addr)
    (ignore_pks : gset (option Z)) : list (addr * gset (option Z)) :=
  map (fun con => (fst con, ∅)) conflicts ++ map (fun a => (a, ignore_pks)) new_facts.

(** The saves these make from heap [h]: each fact with a placeholder [pk]
    cleared, the dead ones left out. *)
Definition expected_saves (h : heap) (items : list (addr * gset (option Z)))
  : list (Fact * gset (option Z)) :=
  omap (fun item =>
          let fact := clear_placeholder (h (fst item)) in
          if is_dead fact then None else Some (fact, snd item)) items.

(** The store after a sequence of saves. *)
Definition store_after (store : Store) (saved : list (Fact * gset (option Z))) : Store :=
  foldl (fun store item =>
           match facts_save store (fst item) (snd item) with
           | Some (store', _) => store'
           | None => store
           end) store saved.

(** From heap [h] to heap [h'] only placeholders were cleared. *)
Definition cleared (h h' : heap) : Prop :=
  forall b, clear_placeholder (h' b) = clear_placeholder (h b).

Lemma clear_placeholder_idem fact :
  clear_placeholder (clear_placeholder fact) = clear_placeholder fact.
Proof.
  unfold clear_placeholder. destruct (pk fact) as [k|] eqn:Hk; [|by rewrite Hk].
  destruct (negb (k =? 0) && (k <? 0)) eqn:Hc; simpl; [done|]. by rewrite Hk, Hc.
Qed.

Lemma cleared_trans h1 h2 h3 : cleared h1 h2 -> cleared h2 h3 -> cleared h1 h3.
Proof. intros H12 H23 b. by rewrite H23, H12. Qed.

Lemma expected_saves_cleared h h' items :
  cleared h h' -> expected_saves h' items = expected_saves h items.
Proof.
  intros Hc. unfold expected_saves.
  induction items as [|item rest IH]; [done|]. cbn [omap list_omap].
  by rewrite Hc, IH.
Qed.

Lemma expected_saves_app h items1 items2 :
  expected_saves h (items1 ++ items2)
  = expected_saves h items1 ++ expected_saves h items2.
Proof. unfold expected_saves. apply omap_app. Qed.

Lemma saves_app log1 log2 : saves (log1 ++ log2) = saves log1 ++ saves log2.
Proof. unfold saves. apply omap_app. Qed.

Lemma store_after_app store saved1 saved2 :
  store_after store (saved1 ++ saved2) = store_after (store_after store saved1) saved2.
Proof. unfold store_after. apply foldl_app. Qed.

(** A computation saves [items] when the saves it makes are, in order,
    the saves expected of [items], all of them if it returns; the store
    changes by these saves only, and the heap by cleared placeholders. *)
Definition saver {A : Type} (items : list (addr * gset (option Z))) (m : M A) : Prop :=
  forall st r st' log,
    m st = (r, st', log) ->
    cleared (st_heap st) (st_heap st') /\
    st_store st' = store_after (st_store st) (saves log) /\
    saves log `prefix_of` expected_saves (st_heap st) items /\
    ((exists v, r = Ok v) -> saves log = expected_saves (st_heap st) items).

Lemma saver_ret {A : Type} (a : A) : saver [] (ret a).
Proof. intros st r st' log [= <- <- <-]. by repeat split. Qed.

Lemma saver_get_fact a : saver [] (get_fact a).
Proof. intros st r st' log [= <- <- <-]. by repeat split. Qed.

Lemma saver_emit e : save_of e = None -> saver [] (emit e).
Proof.
  intros He st r st' log [= <- <- <-]. unfold saves. simpl. rewrite He.
  by repeat split.
Qed.

Lemma saver_bind {A B : Type} items1 items2 (m : M A) (k : A -> M B) :
  saver items1 m -> (forall a, saver items2 (k a)) -> saver (items1 ++ items2) (bind m k).
Proof.
  intros Hm Hk st r st2 log Hrun. apply bind_inv in Hrun.
  rewrite expected_saves_app.
  destruct Hrun as [(a & st1 & log1 & log2 & Hm1 & Hk1 & ->)|(e & Hm1 & ->)].
  - destruct (Hm _ _ _ _ Hm1) as (Hc1 & Hs1 & _ & Hf1).
    destruct (Hk a _ _ _ _ Hk1) as (Hc2 & Hs2 & Hp2 & Hf2).
    rewrite (expected_saves_cleared _ _ _ Hc1) in Hp2, Hf2.
    rewrite saves_app, (Hf1 (ex_intro _ a eq_refl)) in *.
    split; [by eapply cleared_trans|]. split.
    + by rewrite store_after_app, <- Hs1.
    + split; [by apply prefix_app|]. intros Hok. by rewrite (Hf2 Hok).
  - destruct (Hm _ _ _ _ Hm1) as (Hc1 & Hs1 & Hp1 & _).
    split; [done|]. split; [done|]. split; [by apply prefix_app_r|].
    by intros [v [=]].
Qed.

Lemma saver_nil_bind {A B : Type} items (m : M A) (k : A -> M B) :
  saver [] m -> (forall a, saver items (k a)) -> saver items (bind m k).
Proof. intros Hm Hk. by apply (saver_bind [] items). Qed.

Lemma saver_bind_nil {A B : Type} items (m : M A) (k : A -> M B) :
  saver items m -> (forall a, saver [] (k a)) -> saver items (bind m k).
Proof.
  intros Hm Hk. rewrite <- (app_nil_r items). by apply saver_bind.
Qed.

Lemma saver_save_fact a ignore_pks : saver [(a, ignore_pks)] (save_fact a false ignore_pks).
Proof.
  intros st r st' log Hrun. unfold save_fact in Hrun. apply bind_inv in Hrun.
  destruct Hrun as [(f & st1 & log1 & log2 & Hm & Hk & ->)|(e & Hm & _)];
    [|by unfold clear_placeholder_pk in Hm].
  unfold clear_placeholder_pk in Hm. injection Hm as <- <- <-.
  unfold expected_saves. cbn [omap list_omap fst snd app negb] in *.
  set (fact := clear_placeholder (st_heap st a)) in *.
  assert (Hc : cleared (st_heap st) (heap_set (st_heap st) a fact)).
  { intros b. unfold heap_set. destruct (Nat.eqb_spec b a) as [->|]; [|done].
    apply clear_placeholder_idem. }
  assert (Hsave : bind (store_save fact ignore_pks) (fun new_fact => ret [new_fact])
                    (mkState (st_store st) (heap_set (st_heap st) a fact))
                  = (r, st', log2) ->
                  cleared (st_heap st) (st_heap st') /\
                  st_store st' = store_after (st_store st) (saves log2) /\
                  saves log2 `prefix_of` [(fact, ignore_pks)] /\
                  ((exists v, r = Ok v) -> saves log2 = [(fact, ignore_pks)])).
  { unfold bind, store_save, ret. cbn [st_store st_heap].
    destruct (facts_save (st_store st) fact ignore_pks) as [[store' new_fact]|] eqn:Hfs;
      intros [= <- <- <-]; cbn [st_heap st_store];
      (split; [done|]); unfold saves, store_after; cbn; rewrite Hfs;
      (split; [done|]); (split; [done|]); [done|by intros [v [=]]]. }
  unfold is_dead.
  destruct (pk fact) as [k|] eqn:Hpk; [by destruct (deleted fact); apply Hsave|].
  destruct (deleted fact) eqn:Hdel; [|by apply Hsave].
  injection Hk as <- <- <-. by repeat split.
Qed.

Lemma saver_save_conflicts conflicts :
  saver (map (fun con => (fst con, ∅)) conflicts) (save_conflicts conflicts false).
Proof.
  induction conflicts as [|[edited original] rest IH]; [apply saver_ret|].
  cbn [save_conflicts map negb fst].
  apply (saver_bind [(edited, ∅)]).
  - apply saver_bind_nil; [apply saver_save_fact|]. intros saved.
    apply saver_nil_bind; [apply saver_get_fact|]. intros e.
    apply saver_nil_bind; [|intros _; apply saver_ret].
    destruct (is_stopped e); [by apply saver_emit|apply saver_ret].
  - intros saved. apply saver_bind_nil; [apply IH|]. intros more. apply saver_ret.
Qed.

Lemma saver_save_new_facts new_facts ignore_pks :
  saver (map (fun a => (a, ignore_pks)) new_facts)
    (save_new_facts new_facts false ignore_pks).
Proof.
  induction new_facts as [|a rest IH]; [apply saver_ret|].
  cbn [save_new_facts map].
  apply (saver_bind [(a, ignore_pks)]); [apply saver_save_fact|].
  intros saved. apply saver_bind_nil; [apply IH|]. intros more. apply saver_ret.
Qed.

Lemma saver_save_facts_maybe new_facts conflicts ignore_pks :
  saver (save_items conflicts new_facts ignore_pks)
    (save_facts_maybe new_facts conflicts ignore_pks false).
Proof.
  unfold save_facts_maybe, save_items. apply saver_nil_bind.
  - destruct conflicts; apply saver_ret.
  - intros _. apply saver_bind; [apply saver_save_conflicts|].
    intros edited. apply saver_bind_nil; [apply saver_save_new_facts|].
    intros new. apply saver_ret.
Qed.

Lemma confirm_loop_no_save h yes conflicts :
  forall n m log n' m',
    confirm_loop h yes conflicts n m = (log, n', m') -> saves log = [].
Proof.
  induction conflicts as [|[edited original] rest IH]; intros n m log n' m'; simpl.
  - by intros [= <- _ _].
  - destruct yes; simpl; [apply IH|].
    destruct (confirm_loop h false rest (S n) _) as [[log1 n1] m1] eqn:Hrest.
    intros [= <- _ _]. unfold saves. simpl. by apply IH in Hrest.
Qed.

Lemma must_confirm_fact_edits_quiet conflicts yes dry st r st' log :
  must_confirm_fact_edits conflicts yes dry st = (r, st', log) ->
  st' = st /\ saves log = [].
Proof.
  unfold must_confirm_fact_edits.
  destruct (cull_stopped_ongoing (st_heap st) conflicts) as [|con kept].
  - by intros [= <- <- <-].
  - destruct (confirm_loop (st_heap st) (yes || dry) (con :: kept) 0 0)
      as [[log1 n] m] eqn:Hloop.
    apply confirm_loop_no_save in Hloop.
    assert (Hlog : saves ((if negb (yes || dry)
                           then [EchoBanner (length (con :: kept))] else []) ++ log1) = []).
    { rewrite saves_app, Hloop. by destruct (yes || dry). }
    by destruct (n =? m)%nat; intros [= <- <- <-].
Qed.

(** ** The batch save loop *)

(** The hint of the save loop for the fact at index [i] of [n]. *)
Definition hint_at (n i : nat) : time_hint :=
  if Nat.eqb i (n - 1) then verify_last else verify_both.

(** What [persist_fact] does without saving: it shows or writes the fact. *)
Lemma tame_show_fact (oe : gmap (option Z) addr) a e_of :
  (forall f, mend_of (e_of f) = None) ->
  tame (fun _ => False) (f <- get_fact a;; emit (e_of f);;; ret ([f], oe)).
Proof.
  intros He. apply tame_bind; [apply tame_get_fact|]. intros f.
  apply tame_bind; [by apply tame_emit|]. intros _. apply tame_ret.
Qed.

Lemma mend_inv a hint oe st r st' log :
  mend a hint oe st = (r, st', log) ->
  log = [MendFact a hint oe] /\
  match mend_fact_timey_wimey (st_store st) (st_heap st) a hint oe with
  | Ok (h', oe', new_fact_or_two, conflicts) =>
      r = Ok (oe', new_fact_or_two, conflicts) /\ st' = mkState (st_store st) h'
  | Raise e => r = Raise e /\ st' = st
  end.
Proof.
  unfold mend.
  destruct (mend_fact_timey_wimey _ _ _ _ _) as [[[[h' oe'] fs] cs]|e];
    by intros [= <- <- <-].
Qed.

(** [mend_facts_confirm_and_save_maybe] taken apart: the mend call, then
    the confirmation and the saves on what the mender handed back. *)
Lemma mend_facts_confirm_and_save_maybe_inv a hint oe yes dry st r st' log :
  mend_facts_confirm_and_save_maybe a hint oe yes dry st = (r, st', log) ->
  match mend_fact_timey_wimey (st_store st) (st_heap st) a hint oe with
  | Raise e => r = Raise e /\ st' = st /\ log = [MendFact a hint oe]
  | Ok (h', oe', new_fact_or_two, conflicts) =>
      exists r2 log2,
        confirm_conflicts_and_save_all new_fact_or_two conflicts oe' yes dry
          (mkState (st_store st) h') = (r2, st', log2) /\
        log = MendFact a hint oe :: log2 /\
        r = match r2 with
            | Ok saved => Ok (saved, oe')
            | Raise e => Raise e
            end
  end.
Proof.
  unfold mend_facts_confirm_and_save_maybe. intros Hrun. apply bind_inv in Hrun.
  destruct Hrun as [(mended & st1 & log1 & log2 & Hm & Hk & ->)|(e & Hm & ->)];
    apply mend_inv in Hm; destruct Hm as [-> Hm];
    destruct (mend_fact_timey_wimey _ _ _ _ _) as [[[[h' oe'] fs] cs]|e'];
    destruct Hm as [Hr ->]; simplify_eq; [|done].
  apply bind_inv in Hk.
  destruct Hk as [(saved & st2 & log3 & log4 & Hc & Hret & ->)|(e & Hc & ->)].
  - injection Hret as <- <- <-. eexists _, _. split; [exact Hc|].
    by rewrite app_nil_r.
  - by eexists _, _.
Qed.

Lemma mends_mend a hint oe log :
  mends (MendFact a hint oe :: log) = (a, hint) :: mends log.
Proof. done. Qed.


Lemma persist_fact_mends a oe first final file_out yes dry st r st' log :
  persist_fact a oe first final file_out yes dry st = (r, st', log) ->
  mends log =
  if negb dry && negb file_out
  then [(a, if final then verify_last else verify_both)] else [].
Proof.
  unfold persist_fact. destruct dry; simpl.
  - intros Hrun. apply (tame_show_fact oe a EchoFact) in Hrun; [|done].
    by destruct Hrun.
  - destruct file_out; simpl.
    + intros Hrun.
      apply (tame_show_fact oe a (fun f => WriteFact f first)) in Hrun; [|done].
      by destruct Hrun.
    + unfold persist_fact_save. intros Hrun.
      apply mend_facts_confirm_and_save_maybe_inv in Hrun.
      destruct (mend_fact_timey_wimey _ _ _ _ _) as [[[[h' oe'] fs] cs]|e].
      * destruct Hrun as (r2 & log2 & Hk & -> & _).
        apply tame_confirm_conflicts_and_save_all in Hk. destruct Hk as [Hk _].
        rewrite mends_mend, Hk. by destruct final.
      * destruct Hrun as (_ & _ & ->). by destruct final.
Qed.



(** Persisting a fact to the store: it is mended with [verify_last] when
    it is the final fact and with [verify_both] otherwise; then what the
    mender handed back is confirmed and saved, the edited facts of the
    conflicts with no [ignore_pks] and the new facts with the keys of
    [other_edits], and the store changes by these saves only. *)
Lemma persist_fact_store a oe first final yes st r st' log :
  persist_fact a oe first final false yes false st = (r, st', log) ->
  let hint := if final then verify_last else verify_both in
  match mend_fact_timey_wimey (st_store st) (st_heap st) a hint oe with
  | Raise e => r = Raise e /\ st' = st /\ log = [MendFact a hint oe]
  | Ok (h', oe', new_fact_or_two, conflicts) =>
      exists shown,
        log = MendFact a hint oe :: shown /\ mends shown = [] /\
        st_store st' = store_after (st_store st) (saves shown) /\
        saves shown
          `prefix_of` expected_saves h' (save_items conflicts new_fact_or_two (dom oe')) /\
        (forall v, r = Ok v ->
                   snd v = oe' /\
                   saves shown
                   = expected_saves h' (save_items conflicts new_fact_or_two (dom oe'))) /\
        (forall e, r = Raise e -> e = SystemExit)
  end.
Proof.
  intros Hrun hint. unfold persist_fact, persist_fact_save in Hrun. cbn [negb] in Hrun.
  assert (Hhint : (if negb final then verify_both else verify_last) = hint)
    by (subst hint; by destruct final).
  rewrite Hhint in Hrun. apply mend_facts_confirm_and_save_maybe_inv in Hrun.
  destruct (mend_fact_timey_wimey _ _ _ _ _) as [[[[h' oe'] fs] cs]|e]; [|done].
  destruct Hrun as (r2 & shown & Hk & -> & ->). exists shown. split; [done|].
  pose proof (tame_confirm_conflicts_and_save_all _ _ _ _ _ _ _ _ _ Hk)
    as (Hmends & _ & Hexit).
  split; [done|].
  unfold confirm_conflicts_and_save_all in Hk. apply bind_inv in Hk.
  destruct Hk as [([] & st1 & log1 & log2 & Hc & Hs & ->)|(e & Hc & ->)].
  - apply must_confirm_fact_edits_quiet in Hc. destruct Hc as [-> Hq].
    apply saver_save_facts_maybe in Hs. cbn [st_heap st_store] in Hs.
    destruct Hs as (_ & Hstore & Hpre & Hfull).
    rewrite saves_app, Hq. cbn [app].
    split; [done|]. split; [done|]. split.
    + intros v Hv. destruct r2 as [saved|]; [|done]. injection Hv as <-.
      split; [done|]. apply Hfull. by eexists.
    + intros e He. destruct r2 as [saved|e']; [done|]. injection He as <-.
      by apply Hexit.
  - apply must_confirm_fact_edits_quiet in Hc. destruct Hc as [-> Hq].
    rewrite Hq. split; [done|]. split; [apply prefix_nil|]. split; [done|].
    intros e' [= <-]. by apply Hexit.
Qed.



Lemma edits_key_original pk_now fact_pk :
  pk_now = fact_pk \/ pk_now = None -> edits_key pk_now fact_pk = fact_pk.
Proof.
  unfold edits_key. intros [->| ->]; [|done].
  destruct fact_pk as [k|]; [|done]. by destruct (k =? 0).
Qed.

Lemma make_other_edits_dom h ready_facts :
  dom (make_other_edits h ready_facts)
  = list_to_set (map (fun a => pk (h a)) ready_facts).
Proof.
  unfold make_other_edits.
  assert (Hgen : forall (m : gmap (option Z) addr),
             dom (foldl (fun m fact => <[pk (h fact) := fact]> m) m ready_facts)
             = dom m ∪ list_to_set (map (fun a => pk (h a)) ready_facts)).
  { induction ready_facts as [|a rest IH]; intros m; simpl.
    - by rewrite (right_id_L ∅ (∪)).
    - rewrite IH, dom_insert_L.
      rewrite (comm_L (∪) {[pk (h a)]} (dom m)). by rewrite (assoc_L (∪)). }
  by rewrite Hgen, dom_empty_L, (left_id_L ∅ (∪)).
Qed.

(** One turn of the loop: the fact is persisted; then the key is looked up
    in [other_edits] as the persisting left it, and deleted, before the
    loop goes on to the next fact. *)
Lemma record_ready_loop_step n idx a rest oe file_out yes dry st :
  record_ready_loop n idx (a :: rest) oe file_out yes dry st =
  match persist_fact a oe (Nat.eqb idx 0) (Nat.eqb idx (n - 1)) file_out yes dry st with
  | (Raise e, st1, log1) => (Raise e, st1, log1)
  | (Ok (saved, oe1), st1, log1) =>
      let key := edits_key (pk (st_heap st1 a)) (pk (st_heap st a)) in
      match oe1 !! key with
      | None => (Raise KeyError, st1, log1)
      | Some _ =>
          match record_ready_loop n (S idx) rest (delete key oe1) file_out yes dry st1 with
          | (Ok more, st2, log2) => (Ok (saved ++ fst more, snd more), st2, log1 ++ log2)
          | (Raise e, st2, log2) => (Raise e, st2, log1 ++ log2)
          end
      end
  end.
Proof.
  cbn [record_ready_loop]. unfold bind at 1. unfold get_fact at 1. cbv iota beta.
  unfold bind at 1.
  destruct (persist_fact a oe (Nat.eqb idx 0) (Nat.eqb idx (n - 1)) file_out yes dry st)
    as [[[[saved oe1]|e] st1] log1]; [|done].
  unfold bind at 1. unfold get_fact at 1. cbv iota beta zeta.
  destruct (oe1 !! edits_key (pk (st_heap st1 a)) (pk (st_heap st a))) as [v|].
  - unfold bind at 1.
    destruct (record_ready_loop n (S idx) rest _ file_out yes dry st1)
      as [[[more|e] st2] log2]; [|done].
    unfold ret. by rewrite !app_nil_r.
  - unfold raise. by rewrite app_nil_r.
Qed.

Lemma record_ready_loop_cons n idx a rest oe file_out yes dry st r st' log :
  record_ready_loop n idx (a :: rest) oe file_out yes dry st = (r, st', log) ->
  exists r1 st1 log1,
    persist_fact a oe (Nat.eqb idx 0) (Nat.eqb idx (n - 1)) file_out yes dry st
    = (r1, st1, log1) /\
    match r1 with
    | Raise e => r = Raise e /\ st' = st1 /\ log = log1
    | Ok (saved, oe1) =>
        let key := edits_key (pk (st_heap st1 a)) (pk (st_heap st a)) in
        match oe1 !! key with
        | None => r = Raise KeyError /\ st' = st1 /\ log = log1
        | Some _ =>
            exists r2 log2,
              record_ready_loop n (S idx) rest (delete key oe1) file_out yes dry st1
              = (r2, st', log2) /\
              log = log1 ++ log2 /\
              r = match r2 with
                  | Ok more => Ok (saved ++ fst more, snd more)
                  | Raise e => Raise e
                  end
        end
    end.
Proof.
  rewrite record_ready_loop_step.
  destruct (persist_fact a oe (Nat.eqb idx 0) (Nat.eqb idx (n - 1)) file_out yes dry st)
    as [[[[saved oe1]|e] st1] log1].
  - intros Hrun. exists (Ok (saved, oe1)), st1, log1. split; [done|]. cbv zeta in *.
    destruct (oe1 !! edits_key (pk (st_heap st1 a)) (pk (st_heap st a))) as [v|].
    + destruct (record_ready_loop n (S idx) rest _ file_out yes dry st1)
        as [[[more|e] st2] log2]; injection Hrun as <- <- <-; by eexists _, _.
    + by injection Hrun as <- <- <-.
  - intros [= <- <- <-]. by exists (Raise e), st1, log1.
Qed.

Lemma record_ready_loop_quiet file_out yes dry rest :
  negb dry && negb file_out = false ->
  forall n idx oe st r st' log,
    record_ready_loop n idx rest oe file_out yes dry st = (r, st', log) ->
    mends log = [].
Proof.
  intros Hmode. induction rest as [|a rest IH]; intros n idx oe st r st' log Hrun.
  - simpl in Hrun. by injection Hrun as <- <- <-.
  - apply record_ready_loop_cons in Hrun.
    destruct Hrun as (r1 & st1 & log1 & Hpersist & Hrest).
    apply persist_fact_mends in Hpersist. rewrite Hmode in Hpersist.
    destruct r1 as [[saved oe1]|e].
    + cbv zeta in Hrest.
      destruct (oe1 !! edits_key (pk (st_heap st1 a)) (pk (st_heap st a))) as [v|].
      * destruct Hrest as (r2 & log2 & Hloop & -> & _).
        apply IH in Hloop. unfold mends in *. by rewrite omap_app, Hpersist, Hloop.
      * by destruct Hrest as (_ & _ & ->).
    + by destruct Hrest as (_ & _ & ->).
Qed.

Lemma record_ready_loop_mends yes rest :
  forall n idx oe st r st' log,
    record_ready_loop n idx rest oe false yes false st = (r, st', log) ->
    mends log `prefix_of` imap (fun i a => (a, hint_at n (idx + i))) rest /\
    ((exists v, r = Ok v) ->
     mends log = imap (fun i a => (a, hint_at n (idx + i))) rest).
Proof.
  induction rest as [|a rest IH]; intros n idx oe st r st' log Hrun.
  - simpl in Hrun. inversion Hrun; subst. simpl. split; [done|done].
  - apply record_ready_loop_cons in Hrun.
    destruct Hrun as (r1 & st1 & log1 & Hpersist & Hrest).
    apply persist_fact_mends in Hpersist. simpl in Hpersist.
    rewrite imap_cons.
    assert (Hhead : (a, if Nat.eqb idx (n - 1) then verify_last else verify_both)
                    = (a, hint_at n (idx + 0))).
    { unfold hint_at. by rewrite Nat.add_0_r. }
    assert (Htail : imap ((fun i a => (a, hint_at n (idx + i))) ∘ S) rest
                    = imap (fun i a => (a, hint_at n (S idx + i))) rest).
    { apply imap_ext. intros i b _. simpl. do 2 f_equal. lia. }
    rewrite Htail, <- Hhead.
    destruct r1 as [[saved oe1]|e].
    + cbv zeta in Hrest.
      destruct (oe1 !! edits_key (pk (st_heap st1 a)) (pk (st_heap st a))) as [v|].
      * destruct Hrest as (r2 & log2 & Hloop & -> & ->).
        apply IH in Hloop. destruct Hloop as [Hpre Hfull].
        unfold mends in *. rewrite omap_app, Hpersist. simpl. split.
        -- by apply prefix_cons.
        -- intros [v' Hv']. destruct r2 as [more|]; [|done].
           f_equal. apply Hfull. by eexists.
      * destruct Hrest as (-> & -> & ->). rewrite Hpersist. split.
        -- apply prefix_cons, prefix_nil.
        -- by intros [v' Hv'].
    + destruct Hrest as (-> & -> & ->). rewrite Hpersist. split.
      * apply prefix_cons, prefix_nil.
      * by intros [v' Hv'].
Qed.

(** A stretch of the log in which a fact is mended with a hint, from store
    [store], and what the mender handed back is then saved: the edited
    facts of its conflicts and its new facts, each with a placeholder [pk]
    cleared, the new facts with the keys of [other_edits] for
    [ignore_pks]. *)
Definition mended_and_saved (store : Store) (fact : addr) (hint : time_hint)
    (seg : list event) : Prop :=
  exists h oe h' oe' new_fact_or_two conflicts shown,
    mend_fact_timey_wimey store h fact hint oe
    = Ok (h', oe', new_fact_or_two, conflicts) /\
    seg = MendFact fact hint oe :: shown /\
    mends shown = [] /\
    saves shown = expected_saves h' (save_items conflicts new_fact_or_two (dom oe')).

Lemma record_ready_loop_saves yes rest :
  forall n idx oe st r st' log,
    record_ready_loop n idx rest oe false yes false st = (r, st', log) ->
    st_store st' = store_after (st_store st) (saves log) /\
    forall done,
      r = Ok done ->
      exists segs,
        log = concat segs /\ length segs = length rest /\
        forall (j : nat) fact,
          rest !! j = Some fact ->
          exists seg,
            segs !! j = Some seg /\
            mended_and_saved
              (store_after (st_store st) (saves (concat (take j segs))))
              fact (hint_at n (idx + j)) seg.
Proof.
  induction rest as [|a rest IH]; intros n idx oe st r st' log Hrun.
  - simpl in Hrun. injection Hrun as <- <- <-. split; [done|].
    intros done _. exists []. by repeat split.
  - apply record_ready_loop_cons in Hrun.
    destruct Hrun as (r1 & st1 & log1 & Hpersist & Hrest).
    apply persist_fact_store in Hpersist. cbv zeta in Hpersist.
    destruct (mend_fact_timey_wimey (st_store st) (st_heap st) a _ oe)
      as [[[[h' oe'] fs] cs]|e] eqn:Hmend.
    2:{ destruct Hpersist as (-> & -> & ->). destruct Hrest as (-> & -> & ->).
        split; [done|]. by intros done [=]. }
    destruct Hpersist as (shown & -> & Hquiet & Hstore1 & Hpre & Hfull & Hexit).
    assert (Hsaves1 : saves (MendFact a (if Nat.eqb idx (n - 1)
                                         then verify_last else verify_both) oe :: shown)
                      = saves shown) by done.
    destruct r1 as [[saved oe1]|e].
    2:{ destruct Hrest as (-> & -> & ->). rewrite Hsaves1.
        split; [done|]. by intros done [=]. }
    cbv zeta in Hrest.
    destruct (oe1 !! edits_key (pk (st_heap st1 a)) (pk (st_heap st a))) as [v|].
    2:{ destruct Hrest as (-> & -> & ->). rewrite Hsaves1.
        split; [done|]. by intros done [=]. }
    destruct Hrest as (r2 & log2 & Hloop & -> & ->).
    destruct (IH _ _ _ _ _ _ _ Hloop) as [Hstore2 Hsegs].
    rewrite saves_app, Hsaves1, store_after_app, <- Hstore1.
    split; [done|].
    intros done Hdone. destruct r2 as [more|]; [|done].
    destruct (Hsegs more eq_refl) as (segs & -> & Hlen & Hseg).
    destruct (Hfull _ eq_refl) as [_ Hall].
    exists ((MendFact a (if Nat.eqb idx (n - 1) then verify_last else verify_both) oe
             :: shown) :: segs).
    split; [done|]. split; [by simpl; rewrite Hlen|].
    intros j fact Hj. destruct j as [|j]; simpl in Hj.
    + simplify_eq. eexists. split; [done|].
      cbn [take concat]. unfold hint_at. rewrite Nat.add_0_r.
      by exists (st_heap st), oe, h', oe', fs, cs, shown.
    + destruct (Hseg j fact Hj) as (seg & Hlook & Hms).
      exists seg. split; [done|].
      cbn [take concat]. rewrite saves_app, Hsaves1, store_after_app, <- Hstore1.
      by replace (idx + S j)%nat with (S idx + j)%nat by lia.
Qed.

(** C6. When the save loop saves to the store (no dry run, no output
    file), the mend calls it makes are, in order, one for each fact of the
    batch from the first on, the fact at index [i] of [n] mended with
    [verify_last] when [i = n - 1] and with [verify_both] otherwise; and
    when the loop runs to its end, every fact of the batch was mended so:
    the last one with [verify_last], each earlier one with [verify_both].
    Each fact is persisted with its hint: the store changes by the saves
    of the log only, and the log of a batch that runs to its end is, fact
    after fact, the mend call for the fact with its hint, made on the
    store as the facts before it left it, followed by the saves of what
    that call handed back. (On a dry run or with an output file the loop
    mends nothing.) *)
Theorem final_fact_is_mended_with_verify_last :
  (forall ready_facts yes st r st' log,
      record_ready_facts ready_facts false yes false st = (r, st', log) ->
      let n := length ready_facts in
      (forall (j : nat) fact hint,
          mends log !! j = Some (fact, hint) ->
          ready_facts !! j = Some fact /\
          (j = (n - 1)%nat -> hint = verify_last) /\
          (j <> (n - 1)%nat -> hint = verify_both)) /\
      st_store st' = store_after (st_store st) (saves log) /\
      ((exists saved, r = Ok saved) ->
       length (mends log) = n /\
       (forall (j : nat) fact,
           ready_facts !! j = Some fact ->
           mends log !! j
           = Some (fact, if Nat.eqb j (n - 1) then verify_last else verify_both)) /\
       exists segs,
         log = concat segs /\ length segs = n /\
         forall (j : nat) fact,
           ready_facts !! j = Some fact ->
           exists seg,
             segs !! j = Some seg /\
             mended_and_saved
               (store_after (st_store st) (saves (concat (take j segs))))
               fact (if Nat.eqb j (n - 1) then verify_last else verify_both) seg)) /\
  (forall ready_facts file_out yes dry st r st' log,
      dry = true \/ file_out = true ->
      record_ready_facts ready_facts file_out yes dry st = (r, st', log) ->
      mends log = []).
Proof.
  split; cycle 1.
  { intros ready_facts file_out yes dry st r st' log Hmode Hrun.
    assert (Hquiet : negb dry && negb file_out = false).
    { destruct Hmode as [-> | ->]; [done|by destruct dry]. }
    unfold record_ready_facts in Hrun. apply bind_inv in Hrun.
    destruct Hrun as [(v & st1 & log1 & log2 & Hm & Hk & ->)|(e & Hm & ->)].
    - apply (record_ready_loop_quiet _ _ _ _ Hquiet) in Hm.
      unfold mends in *. rewrite omap_app, Hm.
      by destruct (Nat.eqb (size (snd v)) 0); injection Hk as <- <- <-.
    - by apply (record_ready_loop_quiet _ _ _ _ Hquiet) in Hm. }
  intros ready_facts yes st r st' log Hrun n.
  unfold record_ready_facts in Hrun. apply bind_inv in Hrun.
  assert (Hloop : exists r0 log0,
             record_ready_loop n 0 ready_facts
               (make_other_edits (st_heap st) ready_facts) false yes false st
             = (r0, st', log0) /\
             log = log0 /\
             ((exists saved, r = Ok saved) -> exists v, r0 = Ok v)).
  { destruct Hrun as [(v & st1 & log1 & log2 & Hm & Hk & ->)|(e & Hm & ->)].
    - destruct (Nat.eqb (size (snd v)) 0); inversion Hk; subst; rewrite app_nil_r.
      + eexists _, _. split; [done|]. split; [done|]. by eexists.
      + eexists _, _. split; [done|]. split; [done|]. by intros [? ?].
    - eexists _, _. split; [done|]. split; [done|]. by intros [? ?]. }
  destruct Hloop as (r0 & log0 & Hloop & -> & Hok).
  pose proof (record_ready_loop_saves _ _ _ _ _ _ _ _ _ Hloop) as [Hstore Hsegs].
  apply record_ready_loop_mends in Hloop. destruct Hloop as [Hpre Hfull].
  assert (Hexp : forall (j : nat) fact hint,
             imap (fun i a => (a, hint_at n (0 + i))) ready_facts !! j
             = Some (fact, hint) <->
             ready_facts !! j = Some fact /\ hint = hint_at n j).
  { intros j fact hint. rewrite list_lookup_imap.
    destruct (ready_facts !! j) as [a|]; simpl; [|by split; [|intros [? _]]].
    split; [by intros [= -> ->]|by intros [[= ->] ->]]. }
  split; [|split; [done|]].
  - intros j fact hint Hj.
    eapply prefix_lookup_Some in Hj; [|exact Hpre].
    apply Hexp in Hj. destruct Hj as [Hj ->]. split; [done|].
    unfold hint_at. split.
    + intros ->. by rewrite Nat.eqb_refl.
    + intros Hne. by destruct (Nat.eqb_spec j (n - 1)).
  - intros Hsaved. destruct (Hok Hsaved) as [v ->].
    rewrite (Hfull (ex_intro _ v eq_refl)). split; [by rewrite length_imap|].
    split; [intros j fact Hj; by apply Hexp|].
    destruct (Hsegs v eq_refl) as (segs & -> & Hlen & Hseg).
    exists segs. split; [done|]. split; [done|].
    intros j fact Hj. destruct (Hseg j fact Hj) as (seg & Hlook & Hms).
    exists seg. by split.
Qed.

(** ** [other_edits] over the batch *)





End Save.

End Create.

(** * Worked examples *)

(** Stand-ins for [nark.helpers.dated], which is a library outside this
    repository, to run the model on concrete inputs: a clock time is the
    microseconds since midnight, a datetime the microseconds since
    0001-01-01T00:00, and the closest clock time after (before) a datetime
    is on its day or on the day after (before). No theorem above depends
    on them. *)
Module Examples.

Definition digit (c : Ascii.ascii) : option Z :=
  let n := Z.of_nat (Ascii.nat_of_ascii c) in
  if (48 <=? n) && (n <=? 57) then Some (n - 48) else None.

Fixpoint digits (acc : Z) (s : string) : option Z :=
  match s with
  | EmptyString => Some acc
  | String c rest =>
      match digit c with
      | Some d => digits (10 * acc + d) rest
      | None => None
      end
  end.

Definition parse_relative_minutes (s : string) : option Z :=
  match s with
  | String sign (String c rest) =>
      if Ascii.eqb sign "+"%char then digits 0 (String c rest)
      else if Ascii.eqb sign "-"%char then Z.opp <$> digits 0 (String c rest)
      else None
  | _ => None
  end.

Definition parse_clock_time (s : string) : option Z :=
  match s with
  | String h1 (String h2 (String colon (String m1 (String m2 EmptyString)))) =>
      match digit h1, digit h2, digit m1, digit m2 with
      | Some a, Some b, Some c, Some d =>
          let hh := 10 * a + b in
          let mm := 10 * c + d in
          if Ascii.eqb colon ":"%char && (hh <? 24) && (mm <? 60)
          then Some ((hh * 60 + mm) * 60000000) else None
      | _, _, _, _ => None
      end
  | _ => None
  end.

Definition day : Z := 86400000000.

Definition datetime_from_clock_after (d : datetime) (c : Z) : datetime :=
  let t := d - d mod day + c in
  if t <? d then t + day else t.

Definition datetime_from_clock_prior (d : datetime) (c : Z) : datetime :=
  let t := d - d mod day + c in
  if d <? t then t - day else t.

(** hh:mm on the day [n] days after 0001-01-01. *)
Definition at_ (n hh mm : Z) : datetime := n * day + (hh * 60 + mm) * 60000000.

Definition draft (k : Z) (s e : timeval) : Fact := mkFact (Some k) s e false [].

(** A store with no facts, a mender that finds no conflict, a user who
    confirms. *)
Definition no_neighbour (t : datetime) : option Fact := None.
Definition mend_facts_times (fact : Fact) (hint : time_hint) : list (Fact * Fact) := [].
Definition gallop (facts : list Fact) : bool := true.

End Examples.

Import Transcode.

Lemma parse_examples :
  Examples.parse_clock_time "14:30" = Some (Examples.at_ 0 14 30) /\
  Examples.parse_clock_time "+30" = None /\
  Examples.parse_relative_minutes "+30" = Some 30 /\
  Examples.parse_relative_minutes "-15" = Some (-15) /\
  Examples.parse_relative_minutes "14:30" = None.
Proof. repeat split; reflexivity. Qed.

(** The clock-time round trip of the specification: 14:30 as a start with
    no other anchor than a next time of 09:00 on the day after is 14:30 on
    the day before that. *)
Lemma clock_time_resolution_precedence_witness :
  let fact := Examples.draft (-1) (TText "14:30") TNone in
  let next := Examples.draft (-2) (TDatetime (Examples.at_ 1 9 0)) TNone in
  fix_clock_time_relative Examples.parse_clock_time
    Examples.datetime_from_clock_after Examples.datetime_from_clock_prior
    (NewFact 0) fact Wstart TNone [(NewFact 1, next)] []
  = Ok (setattr fact Wstart (TDatetime (Examples.at_ 0 14 30)),
        TDatetime (Examples.at_ 0 14 30), []).
Proof.
  intros fact next.
  destruct (clock_time_resolution_precedence Examples.parse_clock_time
              Examples.datetime_from_clock_after Examples.datetime_from_clock_prior
              (NewFact 0) fact Wstart "14:30" (Examples.at_ 0 14 30) TNone
              [(NewFact 1, next)] [] eq_refl eq_refl) as (_ & Hb & _).
  destruct Hb as [_ Hc]; [intros dt; discriminate|].
  exact (Hc (Examples.at_ 1 9 0) (NewFact 1) eq_refl eq_refl).
Defined.

(** C3, the claim as stated fails: an offset that takes the sum past
    [datetime.max] is not resolved to the sum; the addition raises
    [OverflowError]. *)
Lemma minute_offset_overflow_counterexample :
  let fact := Examples.draft (-1) (TText "+99999999999") TNone in
  let T := Examples.at_ 738000 9 0 in
  Examples.parse_relative_minutes "+99999999999" = Some 99999999999 /\
  fix_delta_time_relative Examples.parse_relative_minutes
    (NewFact 0) fact Wstart (TDatetime T) [] [] = Raise OverflowError /\
  fix_delta_time_relative Examples.parse_relative_minutes
    (NewFact 0) fact Wstart (TDatetime T) [] []
  <> Ok (setattr fact Wstart (TDatetime (T + 99999999999 * 60000000)),
         TDatetime (T + 99999999999 * 60000000), []).
Proof. repeat split; try reflexivity. intros [=]. Qed.

Lemma minute_offset_resolution_witness :
  let fact := Examples.draft (-1) (TText "+30") TNone in
  fix_delta_time_relative Examples.parse_relative_minutes
    (NewFact 0) fact Wstart (TDatetime (Examples.at_ 738000 9 0)) [] []
  = Ok (setattr fact Wstart (TDatetime (Examples.at_ 738000 9 0 + 30 * 60000000)),
        TDatetime (Examples.at_ 738000 9 0 + 30 * 60000000), []).
Proof.
  intros fact.
  apply (proj1 (proj2 (proj2 (minute_offset_resolution Examples.parse_relative_minutes)))
           (NewFact 0) fact (Examples.at_ 738000 9 0) [] [] eq_refl eq_refl).
  unfold datetime_min, datetime_max, Examples.at_, Examples.day. lia.
Defined.

Lemma absolute_time_resolution_is_identity_witness :
  let fact := Examples.draft (-1) (TDatetime (Examples.at_ 0 9 0)) (TText "+30") in
  fix_delta_time_relative Examples.parse_relative_minutes
    (NewFact 0) fact Wstart TNone [] []
  = Ok (fact, TDatetime (Examples.at_ 0 9 0), []).
Proof.
  intros fact.
  exact (proj2 (proj1 (absolute_time_resolution_is_identity
                         Examples.parse_clock_time Examples.parse_relative_minutes
                         Examples.datetime_from_clock_after
                         Examples.datetime_from_clock_prior)
                  (NewFact 0) fact Wstart (Examples.at_ 0 9 0) TNone [] [] eq_refl)).
Defined.

(** C4, the claim as stated fails: three drafts of which the second ends
    after the third starts yield two conflicts, not one. Both are between
    facts 2 and 3; nothing is saved. *)
Lemma three_drafts_counterexample :
  let fact1 := Examples.draft (-1) (TDatetime (Examples.at_ 0 9 0))
                 (TDatetime (Examples.at_ 0 10 0)) in
  let fact2 := Examples.draft (-2) (TDatetime (Examples.at_ 0 10 0))
                 (TDatetime (Examples.at_ 0 12 0)) in
  let fact3 := Examples.draft (-3) (TDatetime (Examples.at_ 0 11 0))
                 (TDatetime (Examples.at_ 0 13 0)) in
  let run :=
    import_facts Examples.parse_clock_time Examples.parse_relative_minutes
      Examples.datetime_from_clock_after Examples.datetime_from_clock_prior
      (Examples.at_ 0 18 0) Examples.no_neighbour Examples.no_neighbour
      Examples.mend_facts_times Examples.gallop
      [fact1; fact2; fact3] false true false in
  run = ([EchoNewConflict (NewFact 1, Some (NewFact 2), ends_after_reason);
          EchoNewConflict (NewFact 2, Some (NewFact 1), starts_before_reason)],
         Raise SystemExit) /\
  length (fst run) <> 1%nat.
Proof. split; [reflexivity|]. intros [=]. Qed.

Lemma internal_conflicts_abort_import_witness :
  let fact1 := mkFact (Some (-1)) (TDatetime 0) (TDatetime 10) false [] in
  let fact2 := mkFact (Some (-2)) (TDatetime 10) (TDatetime 30) false [] in
  let fact3 := mkFact (Some (-3)) (TDatetime 20) (TDatetime 40) false [] in
  import_facts Examples.parse_clock_time Examples.parse_relative_minutes
    Examples.datetime_from_clock_after Examples.datetime_from_clock_prior
    100 Examples.no_neighbour Examples.no_neighbour
    Examples.mend_facts_times Examples.gallop
    [fact1; fact2; fact3] false true false
  = ([EchoNewConflict (NewFact 1, Some (NewFact 2), ends_after_reason);
      EchoNewConflict (NewFact 2, Some (NewFact 1), starts_before_reason)],
     Raise SystemExit).
Proof.
  intros fact1 fact2 fact3.
  apply (proj2 (proj2 (internal_conflicts_abort_import
                         Examples.parse_clock_time Examples.parse_relative_minutes
                         Examples.datetime_from_clock_after
                         Examples.datetime_from_clock_prior
                         100 Examples.no_neighbour Examples.no_neighbour
                         Examples.mend_facts_times Examples.gallop))
           (Some (-1)) (Some (-2)) (Some (-3)) 0 10 10 30 20 40 false true false);
    (lia || reflexivity).
Defined.

(** C10, the claim as stated fails: the blank end of the first fact is
    filled with the first datetime the scan of the later facts meets (the
    start of the second fact), which is not the earliest datetime among
    them when a later fact ends before it starts. *)
Lemma blank_end_counterexample :
  let fact1 := Examples.draft (-1) (TDatetime (Examples.at_ 0 9 0)) TNone in
  let fact2 := Examples.draft (-2) (TDatetime (Examples.at_ 0 12 0))
                 (TDatetime (Examples.at_ 0 10 0)) in
  fix_blank_times_relative (Examples.at_ 0 18 0) [fact1; fact2] None None []
  = Ok ([setattr fact1 Wend (TDatetime (Examples.at_ 0 12 0)); fact2], []) /\
  In (Examples.at_ 0 10 0) (datetimes_of (tag_new 1 [fact2])) /\
  Examples.at_ 0 10 0 < Examples.at_ 0 12 0.
Proof. repeat split; try reflexivity. simpl. by right; left. Qed.

Lemma blank_times_are_filled_from_neighbours_witness :
  let fact1 := Examples.draft (-1) (TDatetime (Examples.at_ 0 9 0)) TNone in
  let fact2 := Examples.draft (-2) TNone (TDatetime (Examples.at_ 0 11 0)) in
  exists facts',
    fix_blank_times_relative (Examples.at_ 0 18 0) [fact1; fact2] None None []
    = Ok (facts', [] ++ []).
Proof.
  intros fact1 fact2.
  destruct (proj2 (proj2 (proj2 (blank_times_are_filled_from_neighbours
                                   Examples.parse_clock_time
                                   Examples.parse_relative_minutes
                                   Examples.datetime_from_clock_after
                                   Examples.datetime_from_clock_prior
                                   (Examples.at_ 0 18 0)
                                   Examples.no_neighbour Examples.no_neighbour)))
              [fact1; fact2] None None []) as (facts' & Hrun & _).
  - repeat constructor.
  - split; intros ? [=].
  - exists facts'. exact Hrun.
Defined.

Import Create.

(** A store that numbers the facts it is given, a mender that hands the
    fact back with no conflict, one that finds an edit of a stored fact to
    confirm for the fact at address 1, and a batch of new facts. *)
Module SaveExamples.

Definition facts_save (store : list Fact) (fact : Fact)
    (ignore_pks : gset (option Z)) : option (list Fact * Fact) :=
  let saved := set_pk fact (Some (Z.of_nat (length store) + 1)) in
  Some (store ++ [saved], saved).

Definition mend_fact_timey_wimey (store : list Fact) (h : heap) (a : addr)
    (hint : time_hint) (other_edits : gmap (option Z) addr)
  : result (heap * gmap (option Z) addr * list addr * list (addr * addr)) :=
  Ok (h, other_edits, [a], []).

Definition mend_with_conflict (store : list Fact) (h : heap) (a : addr)
    (hint : time_hint) (other_edits : gmap (option Z) addr)
  : result (heap * gmap (option Z) addr * list addr * list (addr * addr)) :=
  Ok (h, other_edits, [a], if Nat.eqb a 1 then [(7%nat, 8%nat)] else []).

Definition says_yes (n : nat) (edited original : Fact) : bool := true.
Definition says_no (n : nat) (edited original : Fact) : bool := false.

(** The fact at address [a]: a new fact with placeholder [pk] [-(a+1)],
    one hour long. *)
Definition batch_heap : heap :=
  fun a =>
    Examples.draft (- Z.of_nat a - 1)
      (TDatetime (Examples.at_ 0 (9 + Z.of_nat a) 0))
      (TDatetime (Examples.at_ 0 (10 + Z.of_nat a) 0)).

Definition batch_state : state := mkState ([] : list Fact) batch_heap.

End SaveExamples.

Lemma final_fact_is_mended_with_verify_last_witness :
  let run :=
    record_ready_facts SaveExamples.facts_save SaveExamples.mend_fact_timey_wimey
      SaveExamples.says_yes [0; 1; 2]%nat false true false SaveExamples.batch_state in
  length (mends (snd run)) = 3%nat /\
  mends (snd run) !! 1%nat = Some (1%nat, verify_both) /\
  mends (snd run) !! 2%nat = Some (2%nat, verify_last) /\
  st_store (snd (fst run))
  = store_after SaveExamples.facts_save [] (saves (snd run)) /\
  length (saves (snd run)) = 3%nat.
Proof.
  intros run.
  destruct (proj1 (final_fact_is_mended_with_verify_last
                     SaveExamples.facts_save SaveExamples.mend_fact_timey_wimey
                     SaveExamples.says_yes)
              [0; 1; 2]%nat true SaveExamples.batch_state
              (fst (fst run)) (snd (fst run)) (snd run)) as (_ & Hstore & Hfull).
  - change (run = (fst (fst run), snd (fst run), snd run)).
    clearbody run. by destruct run as [[r st'] log].
  - destruct Hfull as (Hlen & Hat & _).
    + vm_compute. by eexists.
    + split; [exact Hlen|].
      split; [exact (Hat 1%nat 1%nat eq_refl)|].
      split; [exact (Hat 2%nat 2%nat eq_refl)|].
      split; [exact Hstore|]. reflexivity.
Defined.

(** C7, the claim as stated fails: in a batch of two facts of which the
    second needs an edit confirmed, a user who refuses ends the run, but
    the first fact has been saved by then and stays in the store. *)
Lemma refused_edit_keeps_earlier_saves_counterexample :
  let run :=
    record_ready_facts SaveExamples.facts_save SaveExamples.mend_with_conflict
      SaveExamples.says_no [0; 1]%nat false false false SaveExamples.batch_state in
  fst (fst run) = Raise SystemExit /\
  st_store (snd (fst run))
  = [mkFact (Some 1) (TDatetime (Examples.at_ 0 9 0))
       (TDatetime (Examples.at_ 0 10 0)) false []] /\
  st_store (snd (fst run)) <> st_store SaveExamples.batch_state.
Proof. repeat split; try reflexivity. vm_compute. intros [=]. Qed.

Lemma unconfirmed_edits_abort_before_saving_witness :
  let other_edits : gmap (option Z) addr := {[Some (-2) := 1%nat]} in
  record_ready_loop SaveExamples.facts_save SaveExamples.mend_with_conflict
    SaveExamples.says_no 2 1 [1%nat] other_edits false false false
    SaveExamples.batch_state
  = (Raise SystemExit, SaveExamples.batch_state,
     [MendFact 1%nat verify_last other_edits; EchoBanner 1;
      Confirm 1 (SaveExamples.batch_heap 7%nat) (SaveExamples.batch_heap 8%nat)]).
Proof.
  intros other_edits.
  apply (proj2 (proj2 (proj2 (proj2 (proj2 (unconfirmed_edits_abort_before_saving
                                              SaveExamples.facts_save
                                              SaveExamples.mend_with_conflict
                                              SaveExamples.says_no)))))
           2%nat 1%nat 1%nat [] other_edits SaveExamples.batch_state
           SaveExamples.batch_heap other_edits [1%nat] [(7%nat, 8%nat)] eq_refl).
  intros Hall. specialize (Hall 0%nat (7%nat, 8%nat) eq_refl). discriminate.
Defined.


(** * More of the import path *)

Module ImportProps.

Import Transcode.

(** ** The scan for the next datetime *)

Definition holds_no_datetime (fact : Fact) : Prop :=
  (forall t, start fact <> TDatetime t) /\ (forall t, end_ fact <> TDatetime t).

(** The datetime a scan takes from a fact: its start, else its end. *)
Definition first_time_is (fact : Fact) (t : datetime) : Prop :=
  start fact = TDatetime t \/
  ((forall s, start fact <> TDatetime s) /\ end_ fact = TDatetime t).

(** X1. [find_next_datetime] hands back the datetime of the first fact of
    [later_facts] that holds one (its start, else its end) together with
    that fact, every fact before it holding none; it hands back nothing
    exactly when no fact of the list holds a datetime. *)
Theorem find_next_datetime_first_holder :
  forall later,
    match find_next_datetime later with
    | Some (t, r) =>
        exists before fact after,
          later = before ++ (r, fact) :: after /\
          Forall (fun p => holds_no_datetime (snd p)) before /\
          first_time_is fact t
    | None => Forall (fun p => holds_no_datetime (snd p)) later
    end.
Proof.
  induction later as [|[r f] later IH]; simpl; [by constructor|].
  destruct (start f) as [|s|x] eqn:Hs.
  - destruct (end_ f) as [|e|y] eqn:He.
    + assert (Hf : holds_no_datetime f) by (split; intros t; congruence).
      destruct (find_next_datetime later) as [[t r']|].
      * destruct IH as (before & fact & after & -> & Hbefore & Hfirst).
        exists ((r, f) :: before), fact, after. split; [done|].
        split; [by constructor|done].
      * by constructor.
    + exists [], f, later. split; [done|]. split; [by constructor|].
      right. split; [intros ?; congruence|done].
    + assert (Hf : holds_no_datetime f) by (split; intros t; congruence).
      destruct (find_next_datetime later) as [[t r']|].
      * destruct IH as (before & fact & after & -> & Hbefore & Hfirst).
        exists ((r, f) :: before), fact, after. split; [done|].
        split; [by constructor|done].
      * by constructor.
  - exists [], f, later. split; [done|]. split; [by constructor|by left].
  - destruct (end_ f) as [|e|y] eqn:He.
    + assert (Hf : holds_no_datetime f) by (split; intros t; congruence).
      destruct (find_next_datetime later) as [[t r']|].
      * destruct IH as (before & fact & after & -> & Hbefore & Hfirst).
        exists ((r, f) :: before), fact, after. split; [done|].
        split; [by constructor|done].
      * by constructor.
    + exists [], f, later. split; [done|]. split; [by constructor|].
      right. split; [intros ?; congruence|done].
    + assert (Hf : holds_no_datetime f) by (split; intros t; congruence).
      destruct (find_next_datetime later) as [[t r']|].
      * destruct IH as (before & fact & after & -> & Hbefore & Hfirst).
        exists ((r, f) :: before), fact, after. split; [done|].
        split; [by constructor|done].
      * by constructor.
Qed.

(** ** The stored neighbours of a batch *)

(** The datetime a backward scan takes from a fact: its end, else its
    start. *)
Definition last_time_is (fact : Fact) (t : datetime) : Prop :=
  end_ fact = TDatetime t \/
  ((forall e, end_ fact <> TDatetime e) /\ start fact = TDatetime t).

Section Neighbours.

Variable antecedent : datetime -> option Fact.
Variable subsequent : datetime -> option Fact.

Lemma antecedent_fact_scan new_facts idx :
  antecedent_fact antecedent new_facts
  = match find_next_datetime (tag_new idx new_facts) with
    | Some (t, _) => antecedent t
    | None => None
    end.
Proof.
  revert idx. induction new_facts as [|f rest IH]; intros idx; simpl; [done|].
  destruct (start f); try done; destruct (end_ f); try done; apply IH.
Qed.

Lemma subsequent_fact_scan_skip skipped rest :
  Forall holds_no_datetime skipped ->
  subsequent_fact_scan subsequent (skipped ++ rest)
  = subsequent_fact_scan subsequent rest.
Proof.
  induction 1 as [|f skipped [Hs He] _ IH]; simpl; [done|].
  destruct (end_ f) as [|e|?] eqn:Hend; [|by destruct (He e)|];
    (destruct (start f) as [|t|?] eqn:Hstart; [|by destruct (Hs t)|]); apply IH.
Qed.

(** X2. The stored neighbours of a batch are looked up at its two ends:
    [antecedent_fact] asks the store for the fact before the first
    datetime a forward scan of the batch meets (a start before an end),
    [subsequent_fact] for the fact after the first datetime a backward scan
    meets (an end before a start); for a batch holding no datetime at all
    the store is not asked and there is no neighbour. *)
Theorem store_neighbours_are_looked_up_at_the_ends :
  (forall new_facts,
      antecedent_fact antecedent new_facts
      = match find_next_datetime (tag_new 0 new_facts) with
        | Some (t, _) => antecedent t
        | None => None
        end) /\
  (forall before fact after t,
      Forall holds_no_datetime after ->
      last_time_is fact t ->
      subsequent_fact subsequent (before ++ fact :: after) = subsequent t) /\
  (forall new_facts,
      Forall holds_no_datetime new_facts ->
      antecedent_fact antecedent new_facts = None /\
      subsequent_fact subsequent new_facts = None).
Proof.
  split; [intros new_facts; apply antecedent_fact_scan|]. split.
  - intros before fact after t Hafter Hlast. unfold subsequent_fact.
    rewrite rev_app_distr. simpl. rewrite <- app_assoc.
    rewrite subsequent_fact_scan_skip.
    + simpl. destruct Hlast as [->|[Hno ->]]; [done|].
      destruct (end_ fact) as [|e|?] eqn:He; try done. by destruct (Hno e).
    + apply Forall_forall. intros f Hf. rewrite Forall_forall in Hafter.
      apply Hafter. apply list_elem_of_In. apply list_elem_of_In in Hf.
      by apply in_rev.
  - intros new_facts Hnone. split.
    + induction Hnone as [|f rest [Hs He] _ IH]; simpl; [done|].
      destruct (start f) as [|t|?] eqn:Hstart; [|by destruct (Hs t)|];
        (destruct (end_ f) as [|e|?] eqn:Hend; [|by destruct (He e)|]); apply IH.
    + unfold subsequent_fact.
      rewrite <- (app_nil_r (rev new_facts)), subsequent_fact_scan_skip; [done|].
      apply Forall_forall. intros f Hf. rewrite Forall_forall in Hnone.
      apply Hnone. apply list_elem_of_In. apply list_elem_of_In in Hf.
      by apply in_rev.
Qed.

End Neighbours.

(** ** What the passes keep *)

(** Two facts that differ at most in their times. *)
Definition same_identity (fact fact' : Fact) : Prop :=
  pk fact' = pk fact /\ deleted fact' = deleted fact /\
  dirty_reasons fact' = dirty_reasons fact.

Lemma same_identity_refl fact : same_identity fact fact.
Proof. done. Qed.

Lemma same_identity_setattr fact w v : same_identity fact (setattr fact w v).
Proof. by destruct w. Qed.

Lemma same_identity_trans f1 f2 f3 :
  same_identity f1 f2 -> same_identity f2 f3 -> same_identity f1 f3.
Proof. unfold same_identity. intros (? & ? & ?) (? & ? & ?). repeat split; congruence. Qed.

Section Passes.

Context {clock : Type}.
Variable parse_clock_time : string -> option clock.
Variable parse_relative_minutes : string -> option Z.
Variable datetime_from_clock_after : datetime -> clock -> datetime.
Variable datetime_from_clock_prior : datetime -> clock -> datetime.
Variable now : datetime.
Variable antecedent : datetime -> option Fact.
Variable subsequent : datetime -> option Fact.

Abbreviation fix_clock := (fix_clock_time_relative parse_clock_time
                         datetime_from_clock_after datetime_from_clock_prior).
Abbreviation fix_delta := (fix_delta_time_relative parse_relative_minutes).
Abbreviation fix_blank := (fix_blank_time_relative now).
Abbreviation clock_pass := (fix_clock_times_relative parse_clock_time
                          datetime_from_clock_after datetime_from_clock_prior).
Abbreviation delta_pass := (fix_delta_times_relative parse_relative_minutes).
Abbreviation blank_pass := (fix_blank_times_relative now).
Abbreviation all_passes := (complete_times parse_clock_time parse_relative_minutes
                          datetime_from_clock_after datetime_from_clock_prior now
                          antecedent subsequent).

Definition keeps_identity (fix_time : fixer) : Prop :=
  forall self fact w prev_time later conflicts fact' prev' conflicts',
    fix_time self fact w prev_time later conflicts = Ok (fact', prev', conflicts') ->
    same_identity fact fact'.

Lemma fix_clock_keeps_identity : keeps_identity fix_clock.
Proof.
  intros self fact w prev_time later conflicts fact' prev' conflicts' H.
  unfold fix_clock_time_relative in H.
  destruct (getattr fact w) as [|d|s]; simplify_eq; try done.
  destruct (parse_clock_time s) as [c|]; simplify_eq; try done.
  apply infer_datetime_from_clock_shape in H.
  destruct H as [(dt & -> & _)|(-> & _)]; [apply same_identity_setattr|done].
Qed.

Lemma fix_delta_keeps_identity : keeps_identity fix_delta.
Proof.
  intros self fact w prev_time later conflicts fact' prev' conflicts' H.
  unfold fix_delta_time_relative in H.
  destruct (getattr fact w) as [|d|s]; simplify_eq; try done.
  destruct (parse_relative_minutes s) as [m|]; simplify_eq; try done.
  apply infer_datetime_from_delta_shape in H.
  destruct H as [(dt & -> & _)|(-> & _)]; [apply same_identity_setattr|done].
Qed.

Lemma fix_blank_keeps_identity : keeps_identity fix_blank.
Proof.
  intros self fact w prev_time later conflicts fact' prev' conflicts' H.
  unfold fix_blank_time_relative in H.
  destruct (getattr fact w) as [|d|s]; simplify_eq; try done.
  destruct w; simpl in H.
  - destruct prev_time; simplify_eq; try done; apply same_identity_setattr.
  - destruct (find_next_datetime later) as [[t r]|]; simplify_eq;
      apply same_identity_setattr.
Qed.

Lemma fix_times_loop_keeps_identity fix_time guard :
  keeps_identity fix_time ->
  forall new_facts idx seqt prev_time conflicts facts' prev' conflicts',
    fix_times_loop fix_time guard idx new_facts seqt prev_time conflicts
    = Ok (facts', prev', conflicts') ->
    Forall2 same_identity new_facts facts'.
Proof.
  intros Hk. induction new_facts as [|f rest IH];
    intros idx seqt prev_time conflicts facts' prev' conflicts' Hloop.
  - simpl in Hloop. simplify_eq. constructor.
  - simpl in Hloop. destruct (guard f); [|done].
    destruct (fix_time (NewFact idx) f Wstart prev_time _ conflicts)
      as [[[f1 p1] c1]|] eqn:H1; [|done]. simpl in Hloop.
    destruct (fix_time (NewFact idx) f1 Wend p1 _ c1)
      as [[[f2 p2] c2]|] eqn:H2; [|done]. simpl in Hloop.
    destruct (fix_times_loop fix_time guard (S idx) rest seqt p2 c2)
      as [[[r3 p3] c3]|] eqn:H3; [|done]. simpl in Hloop. simplify_eq.
    constructor; [|by eapply IH].
    eapply same_identity_trans; [by eapply Hk|by eapply Hk].
Qed.

Lemma fix_times_relative_keeps_identity fix_time guard :
  keeps_identity fix_time ->
  forall new_facts ante_fact seqt_fact conflicts facts' conflicts',
    fix_times_relative fix_time guard new_facts ante_fact seqt_fact conflicts
    = Ok (facts', conflicts') ->
    Forall2 same_identity new_facts facts'.
Proof.
  intros Hk new_facts ante_fact seqt_fact conflicts facts' conflicts' Hpass.
  unfold fix_times_relative in Hpass.
  destruct (prev_and_later ante_fact seqt_fact) as [p|]; [|done]. simpl in Hpass.
  destruct (fix_times_loop fix_time guard 0 new_facts (seqt_list seqt_fact) p conflicts)
    as [[[fs pr] cs]|] eqn:Hloop; [|done]. simpl in Hpass. simplify_eq.
  by eapply fix_times_loop_keeps_identity.
Qed.

Lemma Forall2_same_identity_trans l1 l2 l3 :
  Forall2 same_identity l1 l2 -> Forall2 same_identity l2 l3 ->
  Forall2 same_identity l1 l3.
Proof.
  intros H12. revert l3. induction H12 as [|a b l1 l2 Hab _ IH]; intros l3 H23.
  - inversion H23. constructor.
  - inversion H23 as [|? c ? l3' Hbc Hrest]; subst.
    constructor; [by eapply same_identity_trans|by apply IH].
Qed.

(** X3. The three resolution passes, and the four passes together, touch
    nothing but times: the facts handed back are as many as the facts given
    and are, position by position, the same facts with the same [pk], the
    same [deleted] flag and the same dirty reasons. *)
Theorem passes_keep_the_facts_and_their_identity :
  forall new_facts facts' conflicts',
    (forall ante_fact seqt_fact conflicts,
        clock_pass new_facts ante_fact seqt_fact conflicts = Ok (facts', conflicts') \/
        delta_pass new_facts ante_fact seqt_fact conflicts = Ok (facts', conflicts') \/
        blank_pass new_facts ante_fact seqt_fact conflicts = Ok (facts', conflicts') ->
        length facts' = length new_facts /\ Forall2 same_identity new_facts facts') /\
    (all_passes new_facts = Ok (facts', conflicts') ->
     length facts' = length new_facts /\ Forall2 same_identity new_facts facts').
Proof.
  intros new_facts facts' conflicts'.
  assert (Hlen : forall l, Forall2 same_identity new_facts l ->
                           length l = length new_facts /\ Forall2 same_identity new_facts l).
  { intros l Hl. split; [|done]. symmetry. by eapply Forall2_length. }
  split.
  - intros ante_fact seqt_fact conflicts [H|[H|H]]; apply Hlen.
    + eapply fix_times_relative_keeps_identity; [apply fix_clock_keeps_identity|exact H].
    + eapply fix_times_relative_keeps_identity; [apply fix_delta_keeps_identity|exact H].
    + eapply fix_times_relative_keeps_identity; [apply fix_blank_keeps_identity|exact H].
  - intros Hall. apply Hlen.
    apply complete_times_passes in Hall.
    destruct Hall as (f1 & c1 & f2 & c2 & c3 & Hclock & Hdelta & Hblank & _).
    eapply Forall2_same_identity_trans;
      [eapply fix_times_relative_keeps_identity;
       [apply fix_clock_keeps_identity|exact Hclock]|].
    eapply Forall2_same_identity_trans;
      [eapply fix_times_relative_keeps_identity;
       [apply fix_delta_keeps_identity|exact Hdelta]|].
    eapply fix_times_relative_keeps_identity;
      [apply fix_blank_keeps_identity|exact Hblank].
Qed.

(** ** A batch whose times are all given *)

Definition identity_on_absolute (fix_time : fixer) : Prop :=
  forall self fact w dt prev_time later conflicts,
    getattr fact w = TDatetime dt ->
    fix_time self fact w prev_time later conflicts = Ok (fact, TDatetime dt, conflicts).

Lemma fix_clock_identity_on_absolute : identity_on_absolute fix_clock.
Proof. intros ? ? ? ? ? ? ? Hw. unfold fix_clock_time_relative. by rewrite Hw. Qed.

Lemma fix_delta_identity_on_absolute : identity_on_absolute fix_delta.
Proof. intros ? ? ? ? ? ? ? Hw. unfold fix_delta_time_relative. by rewrite Hw. Qed.

Lemma fix_blank_identity_on_absolute : identity_on_absolute fix_blank.
Proof. intros ? ? ? ? ? ? ? Hw. unfold fix_blank_time_relative. by rewrite Hw. Qed.

Lemma fix_times_loop_absolute fix_time guard :
  identity_on_absolute fix_time ->
  (forall fact, both_absolute fact -> guard fact = true) ->
  forall new_facts idx seqt prev_time conflicts,
    Forall both_absolute new_facts ->
    exists prev',
      fix_times_loop fix_time guard idx new_facts seqt prev_time conflicts
      = Ok (new_facts, prev', conflicts).
Proof.
  intros Hid Hguard. induction new_facts as [|f rest IH];
    intros idx seqt prev_time conflicts Hall.
  - by eexists.
  - inversion Hall as [|? ? Hf Hrest]; subst. simpl.
    rewrite (Hguard f Hf). destruct Hf as (s & e & Hs & He).
    rewrite (Hid _ f Wstart s) by done. simpl.
    rewrite (Hid _ f Wend e) by done. simpl.
    destruct (IH (S idx) seqt (TDatetime e) conflicts Hrest) as [prev' ->].
    by eexists.
Qed.

Lemma fix_times_relative_absolute fix_time guard :
  identity_on_absolute fix_time ->
  (forall fact, both_absolute fact -> guard fact = true) ->
  forall new_facts ante_fact seqt_fact conflicts,
    Forall both_absolute new_facts ->
    fix_times_relative fix_time guard new_facts ante_fact seqt_fact conflicts
    = rbind (prev_and_later ante_fact seqt_fact) (fun _ => Ok (new_facts, conflicts)).
Proof.
  intros Hid Hguard new_facts ante_fact seqt_fact conflicts Hall.
  unfold fix_times_relative.
  destruct (prev_and_later ante_fact seqt_fact) as [p|]; [|done]. simpl.
  destruct (fix_times_loop_absolute _ _ Hid Hguard new_facts 0
              (seqt_list seqt_fact) p conflicts Hall) as [prev' ->].
  done.
Qed.

Lemma has_a_time_absolute fact : both_absolute fact -> has_a_time fact = true.
Proof. intros (s & e & Hs & He). unfold has_a_time. by rewrite Hs. Qed.

(** X4. For a batch in which every fact has both an absolute start and an
    absolute end, the four passes of [must_complete_times] change no fact:
    they end as the sanity pass run on the batch as given ends, and hand
    back the batch itself with the conflicts of that pass. *)
Theorem passes_leave_an_absolute_batch_alone :
  forall new_facts,
    Forall both_absolute new_facts ->
    all_passes new_facts
    = rbind (verify_datetimes_sanity new_facts
               (antecedent_fact antecedent new_facts)
               (subsequent_fact subsequent new_facts) [])
        (fun conflicts => Ok (new_facts, conflicts)).
Proof.
  intros new_facts Hall. unfold complete_times, fix_clock_times_relative,
    fix_delta_times_relative, fix_blank_times_relative.
  rewrite (fix_times_relative_absolute _ _ fix_clock_identity_on_absolute) by done.
  unfold verify_datetimes_sanity.
  destruct (prev_and_later _ _) as [p|] eqn:Hprev; [|done]. simpl.
  rewrite (fix_times_relative_absolute _ _ fix_delta_identity_on_absolute) by done.
  rewrite Hprev. simpl.
  rewrite (fix_times_relative_absolute _ _ fix_blank_identity_on_absolute)
    by (done || apply has_a_time_absolute).
  by rewrite Hprev.
Qed.

(** ** The detector accepts exactly the chronological batches *)

Definition bound_time (v : timeval) : list datetime :=
  match v with
  | TDatetime t => [t]
  | _ => []
  end.

Definition times_of (fact : Fact) : list datetime :=
  bound_time (start fact) ++ bound_time (end_ fact).

Definition seqt_times (seqt_fact : option Fact) : list datetime :=
  match seqt_fact with
  | Some seqt => bound_time (start seqt)
  | None => []
  end.

(** The end of the antecedent stored fact, the start and the end of every
    fact of the batch in order, the start of the subsequent stored fact. *)
Definition timeline (ante_fact : option Fact) (new_facts : list Fact)
    (seqt_fact : option Fact) : list datetime :=
  match ante_fact with
  | Some ante => bound_time (end_ ante)
  | None => []
  end ++ flat_map times_of new_facts ++ seqt_times seqt_fact.

Lemma Sorted_le_cons2 a b l :
  Sorted Z.le (a :: b :: l) <-> a <= b /\ Sorted Z.le (b :: l).
Proof.
  split.
  - intros H. apply Sorted_inv in H. destruct H as [Hs Hh].
    split; [by inversion Hh|done].
  - intros [Hab Hs]. constructor; [done|by constructor].
Qed.

Lemma Sorted_le_one a : Sorted Z.le [a].
Proof. by repeat constructor. Qed.

Lemma Sorted_le_bound prev_time a l :
  not_text prev_time ->
  Sorted Z.le (bound_time prev_time ++ a :: l)
  <-> (forall p, prev_time = TDatetime p -> p <= a) /\ Sorted Z.le (a :: l).
Proof.
  intros Hp. destruct prev_time as [|p|?]; [| |done]; simpl.
  - split; [by intros ?|by intros [_ ?]].
  - rewrite Sorted_le_cons2. split.
    + intros [? ?]. split; [by intros ? [= <-]|done].
    + intros [Hle ?]. split; [by apply Hle|done].
Qed.

Lemma start_conflicts_nil self fact prev_time prev_fact s :
  start fact = TDatetime s -> not_text prev_time ->
  start_conflicts self fact prev_time prev_fact = [] <->
  (forall p, prev_time = TDatetime p -> p <= s).
Proof.
  intros Hs Hp. unfold start_conflicts. rewrite Hs.
  destruct prev_time as [|p|?]; [| |done].
  - split; [by intros ?|done].
  - destruct (Z.ltb_spec s p); split; try done.
    + intros Hle. specialize (Hle p eq_refl). lia.
    + intros _ ? [= <-]. lia.
Qed.

Lemma order_conflicts_nil self fact s e :
  start fact = TDatetime s -> end_ fact = TDatetime e ->
  order_conflicts self fact = [] <-> s <= e.
Proof.
  intros Hs He. unfold order_conflicts. rewrite Hs, He.
  destruct (Z.ltb_spec e s); split; try done; lia.
Qed.

Lemma end_conflicts_nil self fact later e :
  end_ fact = TDatetime e ->
  end_conflicts self fact later = [] <->
  (forall n r, find_next_datetime later = Some (n, r) -> e <= n).
Proof.
  intros He. unfold end_conflicts. rewrite He.
  destruct (find_next_datetime later) as [[n r]|]; [|by split].
  destruct (Z.ltb_spec n e); split; try done.
  - intros Hle. specialize (Hle n r eq_refl). lia.
  - intros _ ? ? [= <- <-]. lia.
Qed.

Lemma verify_sanity_loop_sorted seqt_fact rest :
  (forall seqt, seqt_fact = Some seqt -> exists t, start seqt = TDatetime t) ->
  forall f idx prev_time prev_fact conflicts,
    Forall both_absolute (f :: rest) -> not_text prev_time ->
    exists added,
      verify_sanity_loop idx (f :: rest) (seqt_list seqt_fact) prev_time prev_fact
        conflicts
      = Ok (conflicts ++ added) /\
      (added = [] <->
       Sorted Z.le (bound_time prev_time ++ flat_map times_of (f :: rest)
                      ++ seqt_times seqt_fact)).
Proof.
  intros Hseqt. induction rest as [|g rest IH];
    intros f idx prev_time prev_fact conflicts Hall Hp;
    inversion Hall as [|? ? (s & e & Hs & He) Hrest]; subst.
  - simpl. rewrite verify_fact_sanity_closed;
      [|by unfold times_not_text; rewrite Hs, He|done].
    rewrite Hs, He. simpl. eexists. split; [reflexivity|].
    unfold times_of. rewrite Hs, He. simpl.
    rewrite Sorted_le_bound by done. rewrite Sorted_le_cons2.
    rewrite <- (start_conflicts_nil (NewFact idx) f prev_time prev_fact s Hs Hp).
    rewrite <- (order_conflicts_nil (NewFact idx) f s e Hs He).
    split.
    + intros Hnil. apply app_eq_nil in Hnil. destruct Hnil as [H1 Hnil].
      apply app_eq_nil in Hnil. destruct Hnil as [H2 H3].
      split; [done|]. split; [done|].
      destruct seqt_fact as [seqt|]; simpl; [|apply Sorted_le_one].
      destruct (Hseqt seqt eq_refl) as [n Hn]. rewrite Hn. simpl.
      apply Sorted_le_cons2. split; [|apply Sorted_le_one].
      apply (proj1 (end_conflicts_nil (NewFact idx) f (seqt_list (Some seqt)) e He)
               H2 n SeqtFact).
      simpl. by rewrite Hn.
    + intros (H1 & H3 & Hsorted). rewrite H1, H3, app_nil_r. simpl.
      apply (end_conflicts_nil (NewFact idx) f _ e He). intros n r Hnext.
      destruct seqt_fact as [seqt|]; simpl in *; [|done].
      destruct (Hseqt seqt eq_refl) as [n' Hn]. rewrite Hn in *. simpl in *.
      injection Hnext as <- <-.
      by destruct (proj1 (Sorted_le_cons2 _ _ _) Hsorted) as [? _].
  - inversion Hrest as [|? ? (sg & eg & Hsg & Heg) _]; subst.
    change (verify_sanity_loop idx (f :: g :: rest) (seqt_list seqt_fact)
              prev_time prev_fact conflicts)
      with (rbind (verify_fact_sanity (NewFact idx) f prev_time prev_fact
                     (tag_new (S idx) (g :: rest) ++ seqt_list seqt_fact) conflicts)
              (fun s0 => verify_sanity_loop (S idx) (g :: rest) (seqt_list seqt_fact)
                           (fst s0) (Some (NewFact idx)) (snd s0))).
    rewrite verify_fact_sanity_closed;
      [|by unfold times_not_text; rewrite Hs, He|done].
    rewrite Hs, He. cbn [orb rbind fst snd].
    assert (Hafter : prev_time_after f prev_time = TDatetime e).
    { unfold prev_time_after. by rewrite He. }
    rewrite Hafter.
    destruct (IH g (S idx) (TDatetime e) (Some (NewFact idx))
                (conflicts ++ start_conflicts (NewFact idx) f prev_time prev_fact
                   ++ end_conflicts (NewFact idx) f
                        (tag_new (S idx) (g :: rest) ++ seqt_list seqt_fact)
                   ++ order_conflicts (NewFact idx) f) Hrest I)
      as (added & -> & Hadded).
    eexists. split; [by rewrite <- !app_assoc|].
    assert (Hnext : find_next_datetime
                      (tag_new (S idx) (g :: rest) ++ seqt_list seqt_fact)
                    = Some (sg, NewFact (S idx))).
    { simpl. by rewrite Hsg. }
    assert (Htimes : flat_map times_of (f :: g :: rest) ++ seqt_times seqt_fact
                     = s :: e :: sg :: eg :: flat_map times_of rest
                         ++ seqt_times seqt_fact).
    { simpl. unfold times_of. by rewrite Hs, He, Hsg, Heg. }
    rewrite Htimes. rewrite Sorted_le_bound by done. rewrite Sorted_le_cons2.
    assert (Hrest_times : bound_time (TDatetime e) ++ flat_map times_of (g :: rest)
                            ++ seqt_times seqt_fact
                          = e :: sg :: eg :: flat_map times_of rest
                              ++ seqt_times seqt_fact).
    { simpl. unfold times_of. by rewrite Hsg, Heg. }
    rewrite Hrest_times in Hadded.
    rewrite <- (start_conflicts_nil (NewFact idx) f prev_time prev_fact s Hs Hp).
    rewrite <- (order_conflicts_nil (NewFact idx) f s e Hs He).
    rewrite <- Hadded. split.
    + intros Hnil. apply app_eq_nil in Hnil. destruct Hnil as [H1 Hnil].
      apply app_eq_nil in Hnil. destruct Hnil as [H2 Hnil].
      apply app_eq_nil in Hnil. by destruct Hnil as [H3 H4].
    + intros (H1 & H3 & H4). rewrite H1, H3, H4, !app_nil_r, app_nil_l.
      apply (end_conflicts_nil (NewFact idx) f _ e He). intros n r.
      rewrite Hnext. intros [= <- <-].
      by destruct (proj1 (Sorted_le_cons2 _ _ _) (proj1 Hadded H4)) as [? _].
Qed.

Lemma verify_datetimes_sanity_sorted fact rest ante_fact seqt_fact conflicts :
  Forall both_absolute (fact :: rest) ->
  store_integrity ante_fact seqt_fact ->
  verify_datetimes_sanity (fact :: rest) ante_fact seqt_fact conflicts = Ok conflicts
  <-> Sorted Z.le (timeline ante_fact (fact :: rest) seqt_fact).
Proof.
  intros Hall Hint.
  destruct (prev_and_later_ok _ _ Hint) as (p & Hp & Hnt & Hnone & Hsome).
  unfold verify_datetimes_sanity. rewrite Hp. cbn [rbind].
  destruct (verify_sanity_loop_sorted seqt_fact rest (proj2 Hint) fact 0 p
              (match ante_fact with Some _ => Some AnteFact | None => None end)
              conflicts Hall Hnt) as (added & -> & Hadded).
  assert (Htl : timeline ante_fact (fact :: rest) seqt_fact
                = bound_time p ++ flat_map times_of (fact :: rest)
                    ++ seqt_times seqt_fact).
  { unfold timeline. destruct ante_fact as [ante|].
    - by rewrite (Hsome ante eq_refl).
    - by rewrite (Hnone eq_refl). }
  rewrite Htl, <- Hadded. split.
  - intros [= Heq]. rewrite <- (app_nil_r conflicts) in Heq at 2.
    by apply app_inv_head in Heq.
  - intros ->. by rewrite app_nil_r.
Qed.

(** X5. Over a batch that is not empty and whose facts all have both
    times, bounded by sound stored neighbours, the sanity pass adds no
    conflict exactly when the batch is in chronological order with its
    neighbours: the end of the antecedent stored fact, then the start and
    the end of every fact in turn, then the start of the subsequent stored
    fact, never going back in time (equal times are accepted). *)
Theorem sanity_pass_accepts_exactly_chronological_batches :
  forall fact rest ante_fact seqt_fact conflicts,
    Forall both_absolute (fact :: rest) ->
    store_integrity ante_fact seqt_fact ->
    verify_datetimes_sanity (fact :: rest) ante_fact seqt_fact conflicts = Ok conflicts
    <-> Sorted Z.le (timeline ante_fact (fact :: rest) seqt_fact).
Proof. intros. by apply verify_datetimes_sanity_sorted. Qed.

(** ** Tokens the first two passes leave behind *)

Definition holds_text (fact : Fact) : Prop :=
  exists w s, getattr fact w = TText s.

Lemma prev_and_later_raises ante_fact seqt_fact e :
  prev_and_later ante_fact seqt_fact = Raise e -> e = AssertionError.
Proof.
  unfold prev_and_later.
  destruct ante_fact as [ante|]; [destruct (truthy (end_ ante))|];
    destruct seqt_fact as [seqt|]; simpl; try destruct (start seqt); congruence.
Qed.

(** The blank fixer on the two fields of one fact: it returns only for a
    fact without text, and fails only on its assertion. *)
Lemma fix_blank_fact_outcome self fact prev_time later conflicts :
  match (s1 <- fix_blank self fact Wstart prev_time later conflicts;;
         let '(fact1, prev1, conflicts1) := s1 in
         fix_blank self fact1 Wend prev1 later conflicts1)%result with
  | Ok _ => times_not_text fact
  | Raise e => e = AssertionError
  end.
Proof.
  unfold fix_blank_time_relative, times_not_text, setattr.
  destruct fact as [k st en dl dr]; simpl.
  destruct st as [|s|?], en as [|e|?], prev_time as [|p|?]; simpl; try done;
    destruct (find_next_datetime later) as [[n r]|]; simpl; done.
Qed.

Lemma fix_blank_loop_outcome new_facts :
  forall idx seqt prev_time conflicts,
    match fix_times_loop fix_blank has_a_time idx new_facts seqt prev_time conflicts with
    | Ok _ => Forall resolved_fact new_facts
    | Raise e => e = AssertionError
    end.
Proof.
  induction new_facts as [|f rest IH]; intros idx seqt prev_time conflicts.
  - by constructor.
  - cbn [fix_times_loop]. destruct (has_a_time f) eqn:Hguard; [|done].
    pose proof (fix_blank_fact_outcome (NewFact idx) f prev_time
                  (tag_new (S idx) rest ++ seqt) conflicts) as Hfact.
    destruct (fix_blank (NewFact idx) f Wstart prev_time _ conflicts)
      as [[[f1 p1] c1]|e1]; [|done]. cbn [rbind] in *.
    destruct (fix_blank (NewFact idx) f1 Wend p1 _ c1)
      as [[[f2 p2] c2]|e2]; [|done]. cbn [rbind].
    specialize (IH (S idx) seqt p2 c2).
    destruct (fix_times_loop fix_blank has_a_time (S idx) rest seqt p2 c2)
      as [[[r3 p3] c3]|e3]; [|done]. cbn [rbind].
    constructor; [|done]. by destruct Hfact.
Qed.

Lemma blank_pass_outcome new_facts ante_fact seqt_fact conflicts :
  match blank_pass new_facts ante_fact seqt_fact conflicts with
  | Ok _ => Forall resolved_fact new_facts
  | Raise e => e = AssertionError
  end.
Proof.
  unfold fix_blank_times_relative, fix_times_relative.
  destruct (prev_and_later ante_fact seqt_fact) as [p|e] eqn:Hprev.
  - cbn [rbind].
    pose proof (fix_blank_loop_outcome new_facts 0 (seqt_list seqt_fact) p conflicts)
      as Hloop.
    by destruct (fix_times_loop fix_blank has_a_time 0 new_facts _ p conflicts).
  - by apply prev_and_later_raises in Hprev.
Qed.

Lemma holds_text_not_resolved facts :
  Exists holds_text facts -> Forall resolved_fact facts -> False.
Proof.
  intros Hex Hall. apply Exists_exists in Hex. destruct Hex as (f & Hin & w & s & Hw).
  rewrite Forall_forall in Hall. destruct (Hall f Hin) as (Hs & He & _).
  destruct w; simpl in Hw; [by rewrite Hw in Hs|by rewrite Hw in He].
Qed.

(** A fixer that, when it appends a conflict, leaves text in the field,
    and that never touches the opposite field. *)
Definition quiet_or_text (fix_time : fixer) : Prop :=
  forall self fact w prev_time later conflicts fact' prev' conflicts',
    fix_time self fact w prev_time later conflicts = Ok (fact', prev', conflicts') ->
    getattr fact' (at_oppo w) = getattr fact (at_oppo w) /\
    (conflicts' = conflicts \/ exists s, getattr fact' w = TText s).

(** A fixer that leaves alone a token it does not read. *)
Definition keeps_unread (fix_time : fixer) (reads : string -> Prop) : Prop :=
  forall self fact w prev_time later conflicts fact' prev' conflicts' s,
    fix_time self fact w prev_time later conflicts = Ok (fact', prev', conflicts') ->
    getattr fact w = TText s -> ~ reads s -> fact' = fact.

Lemma fix_clock_quiet_or_text : quiet_or_text fix_clock.
Proof.
  intros self fact w prev_time later conflicts fact' prev' conflicts' H.
  unfold fix_clock_time_relative in H.
  destruct (getattr fact w) as [|d|s] eqn:Hw; simplify_eq; [by auto|by auto|].
  destruct (parse_clock_time s) as [c|]; simplify_eq; [|by auto].
  apply infer_datetime_from_clock_shape in H.
  destruct H as [(dt & -> & -> & ->)|(-> & -> & ->)].
  - split; [apply getattr_setattr_oppo|by left].
  - split; [done|right; by exists s].
Qed.

Lemma fix_delta_quiet_or_text : quiet_or_text fix_delta.
Proof.
  intros self fact w prev_time later conflicts fact' prev' conflicts' H.
  unfold fix_delta_time_relative in H.
  destruct (getattr fact w) as [|d|s] eqn:Hw; simplify_eq; [by auto|by auto|].
  destruct (parse_relative_minutes s) as [m|]; simplify_eq; [|by auto].
  apply infer_datetime_from_delta_shape in H.
  destruct H as [(dt & -> & -> & ->)|(-> & -> & ->)].
  - split; [apply getattr_setattr_oppo|by left].
  - split; [done|right; by exists s].
Qed.

Lemma fix_clock_keeps_unread :
  keeps_unread fix_clock (fun s => is_Some (parse_clock_time s)).
Proof.
  intros self fact w prev_time later conflicts fact' prev' conflicts' s H Hw Hno.
  unfold fix_clock_time_relative in H. rewrite Hw in H.
  destruct (parse_clock_time s) as [c|]; [by destruct Hno|]. by simplify_eq.
Qed.

Lemma fix_delta_keeps_unread :
  keeps_unread fix_delta (fun s => is_Some (parse_relative_minutes s)).
Proof.
  intros self fact w prev_time later conflicts fact' prev' conflicts' s H Hw Hno.
  unfold fix_delta_time_relative in H. rewrite Hw in H.
  destruct (parse_relative_minutes s) as [m|]; [by destruct Hno|]. by simplify_eq.
Qed.

Lemma fix_times_loop_quiet_or_text fix_time guard :
  quiet_or_text fix_time ->
  forall new_facts idx seqt prev_time conflicts facts' prev' conflicts',
    fix_times_loop fix_time guard idx new_facts seqt prev_time conflicts
    = Ok (facts', prev', conflicts') ->
    conflicts' = conflicts \/ Exists holds_text facts'.
Proof.
  intros Hq. induction new_facts as [|f rest IH];
    intros idx seqt prev_time conflicts facts' prev' conflicts' Hloop.
  - simpl in Hloop. simplify_eq. by left.
  - simpl in Hloop. destruct (guard f); [|done].
    destruct (fix_time (NewFact idx) f Wstart prev_time _ conflicts)
      as [[[f1 p1] c1]|] eqn:H1; [|done]. simpl in Hloop.
    destruct (fix_time (NewFact idx) f1 Wend p1 _ c1)
      as [[[f2 p2] c2]|] eqn:H2; [|done]. simpl in Hloop.
    destruct (fix_times_loop fix_time guard (S idx) rest seqt p2 c2)
      as [[[r3 p3] c3]|] eqn:H3; [|done]. simpl in Hloop. simplify_eq.
    destruct (Hq _ _ _ _ _ _ _ _ _ H1) as [_ Hc1].
    destruct (Hq _ _ _ _ _ _ _ _ _ H2) as [Ho2 Hc2].
    destruct (IH _ _ _ _ _ _ _ H3) as [Hc3|Hex]; [|by right; constructor 2].
    destruct Hc2 as [Hc2|[s Hs]]; [|right; constructor 1; by exists Wend, s].
    destruct Hc1 as [Hc1|[s Hs]]; [left; congruence|].
    right. constructor 1. exists Wstart, s. simpl in *. congruence.
Qed.

Lemma fix_times_loop_keeps_unread fix_time guard reads :
  keeps_unread fix_time reads -> quiet_or_text fix_time ->
  forall new_facts idx seqt prev_time conflicts facts' prev' conflicts',
    fix_times_loop fix_time guard idx new_facts seqt prev_time conflicts
    = Ok (facts', prev', conflicts') ->
    forall (i : nat) fact w s,
      new_facts !! i = Some fact -> getattr fact w = TText s -> ~ reads s ->
      exists fact', facts' !! i = Some fact' /\ getattr fact' w = TText s.
Proof.
  intros Hk Hq. induction new_facts as [|f rest IH];
    intros idx seqt prev_time conflicts facts' prev' conflicts' Hloop i fact w s Hi Hw Hno.
  - done.
  - simpl in Hloop. destruct (guard f); [|done].
    destruct (fix_time (NewFact idx) f Wstart prev_time _ conflicts)
      as [[[f1 p1] c1]|] eqn:H1; [|done]. simpl in Hloop.
    destruct (fix_time (NewFact idx) f1 Wend p1 _ c1)
      as [[[f2 p2] c2]|] eqn:H2; [|done]. simpl in Hloop.
    destruct (fix_times_loop fix_time guard (S idx) rest seqt p2 c2)
      as [[[r3 p3] c3]|] eqn:H3; [|done]. simpl in Hloop. simplify_eq.
    destruct i as [|i]; simpl in Hi.
    + simplify_eq. exists f2. split; [done|].
      destruct (Hq _ _ _ _ _ _ _ _ _ H1) as [Ho1 _].
      destruct (Hq _ _ _ _ _ _ _ _ _ H2) as [Ho2 _].
      destruct w; simpl in *.
      * rewrite Ho2. by rewrite (Hk _ _ _ _ _ _ _ _ _ s H1 Hw Hno).
      * assert (Hw1 : getattr f1 Wend = TText s) by (simpl; congruence).
        by rewrite (Hk _ _ _ _ _ _ _ _ _ s H2 Hw1 Hno).
    + exact (IH _ _ _ _ _ _ _ H3 i fact w s Hi Hw Hno).
Qed.

Lemma fix_times_relative_total fix_time new_facts ante_fact seqt_fact conflicts :
  total_fixer fix_time -> store_integrity ante_fact seqt_fact ->
  exists prev_time facts' prev' conflicts',
    prev_and_later ante_fact seqt_fact = Ok prev_time /\
    fix_times_loop fix_time no_guard 0 new_facts (seqt_list seqt_fact) prev_time conflicts
    = Ok (facts', prev', conflicts') /\
    fix_times_relative fix_time no_guard new_facts ante_fact seqt_fact conflicts
    = Ok (facts', conflicts').
Proof.
  intros Ht Hint.
  destruct (prev_and_later_ok _ _ Hint) as (p & Hp & Hnt & _).
  destruct (fix_times_loop_total fix_time Ht new_facts 0 (seqt_list seqt_fact) p
              conflicts Hnt) as (fs & pr & cs & Hloop & _).
  exists p, fs, pr, cs. split; [done|]. split; [done|].
  unfold fix_times_relative. rewrite Hp. cbn [rbind]. by rewrite Hloop.
Qed.

Lemma leftover_text_fails new_facts s1 s2 :
  clock_pass new_facts (antecedent_fact antecedent new_facts)
    (subsequent_fact subsequent new_facts) [] = Ok s1 ->
  delta_pass (fst s1) (antecedent_fact antecedent new_facts)
    (subsequent_fact subsequent new_facts) (snd s1) = Ok s2 ->
  Exists holds_text (fst s2) ->
  all_passes new_facts = Raise AssertionError.
Proof.
  intros H1 H2 Hex. unfold complete_times. rewrite H1. cbn [rbind].
  rewrite H2. cbn [rbind].
  pose proof (blank_pass_outcome (fst s2) (antecedent_fact antecedent new_facts)
                (subsequent_fact subsequent new_facts) (snd s2)) as Hblank.
  destruct (blank_pass (fst s2) _ _ (snd s2)) as [s3|e].
  - destruct (holds_text_not_resolved _ Hex Hblank).
  - by rewrite Hblank.
Qed.

Lemma must_complete_times_raises new_facts e :
  all_passes new_facts = Raise e ->
  must_complete_times parse_clock_time parse_relative_minutes
    datetime_from_clock_after datetime_from_clock_prior now
    antecedent subsequent new_facts = ([], Raise e).
Proof.
  intros Hall. destruct new_facts as [|f rest]; [discriminate|].
  unfold must_complete_times. by rewrite Hall.
Qed.

Lemma fix_times_relative_overflow fix_time new_facts ante_fact seqt_fact conflicts :
  overflow_fixer fix_time -> store_integrity ante_fact seqt_fact ->
  (exists prev_time facts' prev' conflicts',
      prev_and_later ante_fact seqt_fact = Ok prev_time /\
      fix_times_loop fix_time no_guard 0 new_facts (seqt_list seqt_fact) prev_time conflicts
      = Ok (facts', prev', conflicts') /\
      fix_times_relative fix_time no_guard new_facts ante_fact seqt_fact conflicts
      = Ok (facts', conflicts')) \/
  fix_times_relative fix_time no_guard new_facts ante_fact seqt_fact conflicts
  = Raise OverflowError.
Proof.
  intros Ht Hint.
  destruct (prev_and_later_ok _ _ Hint) as (p & Hp & Hnt & _).
  unfold fix_times_relative. rewrite Hp. cbn [rbind].
  destruct (fix_times_loop_overflow fix_time Ht new_facts 0 (seqt_list seqt_fact) p
              conflicts Hnt) as [(fs & pr & cs & Hloop & _)|Hloop].
  - left. exists p, fs, pr, cs. split; [done|]. split; [done|]. by rewrite Hloop.
  - right. by rewrite Hloop.
Qed.

(** X6. A token that the clock pass and the delta pass leave in a time
    field ends [must_complete_times] on the assertion of the blank pass,
    with no conflict shown. This is the fate of every token for which the
    delta pass records its "Cannot infer" conflict, and of a token neither
    pass can read: over sound stored neighbours the clock pass returns,
    and then either the delta pass returns and the blank pass fails its
    assertion, or the delta pass ends on the [OverflowError] of an offset
    elsewhere in the batch. *)
Theorem leftover_tokens_fail_the_blank_pass_assertion :
  forall new_facts,
    let ante_fact := antecedent_fact antecedent new_facts in
    let seqt_fact := subsequent_fact subsequent new_facts in
    let must_complete :=
      must_complete_times parse_clock_time parse_relative_minutes
        datetime_from_clock_after datetime_from_clock_prior now
        antecedent subsequent new_facts in
    (forall s1 s2,
        clock_pass new_facts ante_fact seqt_fact [] = Ok s1 ->
        delta_pass (fst s1) ante_fact seqt_fact (snd s1) = Ok s2 ->
        Exists holds_text (fst s2) \/ snd s2 <> snd s1 ->
        must_complete = ([], Raise AssertionError)) /\
    (forall (i : nat) fact w s,
        store_integrity ante_fact seqt_fact ->
        new_facts !! i = Some fact ->
        getattr fact w = TText s ->
        parse_clock_time s = None -> parse_relative_minutes s = None ->
        exists s1,
          clock_pass new_facts ante_fact seqt_fact [] = Ok s1 /\
          match delta_pass (fst s1) ante_fact seqt_fact (snd s1) with
          | Ok _ => must_complete = ([], Raise AssertionError)
          | Raise e => e = OverflowError /\ must_complete = ([], Raise OverflowError)
          end).
Proof.
  intros new_facts ante_fact seqt_fact must_complete. subst must_complete. split.
  - intros s1 s2 H1 H2 Hleft. apply must_complete_times_raises.
    apply (leftover_text_fails new_facts s1 s2 H1 H2).
    destruct Hleft as [Hex|Hne]; [done|].
    unfold fix_delta_times_relative, fix_times_relative in H2.
    destruct (prev_and_later _ _) as [p|]; [|done]. cbn [rbind] in H2.
    destruct (fix_times_loop fix_delta no_guard 0 (fst s1) _ p (snd s1))
      as [[[fs pr] cs]|] eqn:Hloop; [|done]. cbn [rbind] in H2. simplify_eq.
    simpl in *.
    by destruct (fix_times_loop_quiet_or_text _ _ fix_delta_quiet_or_text
                   _ _ _ _ _ _ _ _ Hloop).
  - intros i fact w s Hint Hi Hw Hclock Hdelta.
    destruct (fix_times_relative_total fix_clock new_facts ante_fact seqt_fact []
                (fix_clock_total _ _ _) Hint)
      as (p & fs1 & pr1 & cs1 & Hp & Hloop1 & Hpass1).
    exists (fs1, cs1). split; [done|]. cbn [fst snd].
    destruct (fix_times_relative_overflow fix_delta fs1 ante_fact seqt_fact cs1
                (fix_delta_overflow _) Hint)
      as [(p' & fs2 & pr2 & cs2 & _ & Hloop2 & Hpass2)|Hpass2].
    + change (delta_pass fs1 ante_fact seqt_fact cs1 = Ok (fs2, cs2)) in Hpass2.
      rewrite Hpass2.
      apply must_complete_times_raises.
      apply (leftover_text_fails new_facts (fs1, cs1) (fs2, cs2) Hpass1 Hpass2).
      destruct (fix_times_loop_keeps_unread _ _ _ fix_clock_keeps_unread
                  fix_clock_quiet_or_text _ _ _ _ _ _ _ _ Hloop1 i fact w s Hi Hw)
        as (f1 & Hi1 & Hw1).
      { rewrite Hclock. by intros [? ?]. }
      destruct (fix_times_loop_keeps_unread _ _ _ fix_delta_keeps_unread
                  fix_delta_quiet_or_text _ _ _ _ _ _ _ _ Hloop2 i f1 w s Hi1 Hw1)
        as (f2 & Hi2 & Hw2).
      { rewrite Hdelta. by intros [? ?]. }
      apply Exists_exists. exists f2. split; [by eapply list_elem_of_lookup_2|].
      by exists w, s.
    + change (delta_pass fs1 ante_fact seqt_fact cs1 = Raise OverflowError) in Hpass2.
      rewrite Hpass2. split; [done|].
      apply must_complete_times_raises.
      unfold complete_times. fold ante_fact seqt_fact.
      change (clock_pass new_facts ante_fact seqt_fact [] = Ok (fs1, cs1)) in Hpass1.
      rewrite Hpass1. cbn [rbind fst snd]. by rewrite Hpass2.
Qed.

(** ** A token without an anchor *)

(** C5. The claim describes what the specification asks for; the code
    falls short of it. For a relative token without a usable anchor the
    resolver does record the conflict without raising: in an import whose
    only fact has a clock time or a minute offset for its start, no end,
    and no stored neighbour, the clock pass (the delta pass) returns the
    fact untouched with the one conflict (fact, None, Cannot infer date of
    start time ...). But the failure so collected is never handed back:
    the blank pass that follows asserts that a time field that is not
    [None] is a datetime, so [must_complete_times] ends on an
    [AssertionError] before a single conflict is shown. *)
Theorem unanchored_token_is_recorded_but_never_reported :
  forall fact s,
    start fact = TText s -> end_ fact = TNone ->
    let ante_fact := antecedent_fact antecedent [fact] in
    let seqt_fact := subsequent_fact subsequent [fact] in
    ante_fact = None /\ seqt_fact = None /\
    (forall clock_time,
        parse_clock_time s = Some clock_time ->
        clock_pass [fact] ante_fact seqt_fact []
        = Ok ([fact],
              [(NewFact 0, None, infer_reason Wstart "specified with clock time")])) /\
    (forall delta_mins,
        parse_clock_time s = None ->
        parse_relative_minutes s = Some delta_mins ->
        clock_pass [fact] ante_fact seqt_fact [] = Ok ([fact], []) /\
        delta_pass [fact] ante_fact seqt_fact []
        = Ok ([fact],
              [(NewFact 0, None, infer_reason Wstart "specified with delta time")])) /\
    must_complete_times parse_clock_time parse_relative_minutes
      datetime_from_clock_after datetime_from_clock_prior now
      antecedent subsequent [fact] = ([], Raise AssertionError).
Proof.
  intros fact s Hs He ante_fact seqt_fact. subst ante_fact seqt_fact.
  destruct fact as [k st en dl dr]. simpl in Hs, He. subst st en.
  unfold subsequent_fact. cbn [rev app antecedent_fact subsequent_fact_scan start end_].
  split; [done|]. split; [done|].
  unfold must_complete_times, complete_times, subsequent_fact.
  cbn [rev app antecedent_fact subsequent_fact_scan start end_].
  unfold fix_clock_times_relative, fix_delta_times_relative, fix_blank_times_relative,
    fix_times_relative, prev_and_later, fix_clock_time_relative,
    fix_delta_time_relative, fix_blank_time_relative, infer_datetime_from_clock,
    infer_datetime_from_delta, has_a_time.
  cbn [fix_times_loop tag_new seqt_list app getattr start end_ at_oppo rbind fst snd
       no_guard find_next_datetime truthy orb].
  split; [|split].
  - intros clock_time ->. reflexivity.
  - intros delta_mins -> ->. split; [reflexivity|].
    by destruct (0 <=? delta_mins).
  - destruct (parse_clock_time s) as [c|]; cbn;
      (destruct (parse_relative_minutes s) as [m|]; [destruct (0 <=? m)|]; cbn);
      by destruct (String.eqb s "").
Qed.

(** ** What a completed batch looks like *)

Lemma prev_time_after_not_text fact prev_time :
  times_not_text fact -> not_text prev_time -> not_text (prev_time_after fact prev_time).
Proof.
  intros [Hs He] Hp. unfold prev_time_after.
  destruct (end_ fact); [|done|done]. by destruct (start fact).
Qed.

Lemma verify_sanity_loop_appends new_facts :
  forall idx seqt prev_time prev_fact conflicts conflicts',
    Forall times_not_text new_facts -> not_text prev_time ->
    verify_sanity_loop idx new_facts seqt prev_time prev_fact conflicts = Ok conflicts' ->
    exists added, conflicts' = conflicts ++ added.
Proof.
  induction new_facts as [|f rest IH];
    intros idx seqt prev_time prev_fact conflicts conflicts' Hall Hp Hloop.
  - simpl in Hloop. simplify_eq. exists []. by rewrite app_nil_r.
  - inversion Hall as [|? ? Hf Hrest]; subst. cbn [verify_sanity_loop] in Hloop.
    rewrite verify_fact_sanity_closed in Hloop by done.
    destruct (_ || _); [done|]. cbn [rbind fst snd] in Hloop.
    destruct (IH _ _ _ _ _ _ Hrest (prev_time_after_not_text f prev_time Hf Hp) Hloop)
      as [added ->].
    eexists. by rewrite <- !app_assoc.
Qed.

Lemma completed_batch new_facts facts :
  store_integrity (antecedent_fact antecedent new_facts)
    (subsequent_fact subsequent new_facts) ->
  all_passes new_facts = Ok (facts, []) ->
  length facts = length new_facts /\
  Forall both_absolute facts /\
  (facts <> [] ->
   Sorted Z.le (timeline (antecedent_fact antecedent new_facts) facts
                  (subsequent_fact subsequent new_facts))).
Proof.
  intros Hint Hall.
  set (ante_fact := antecedent_fact antecedent new_facts) in *.
  set (seqt_fact := subsequent_fact subsequent new_facts) in *.
  destruct (complete_times_passes _ _ _ _ _ _ _ _ _ _ Hall)
    as (facts1 & conflicts1 & facts2 & conflicts2 & conflicts3
        & Hclock & Hdelta & Hblank & Hsanity).
  fold ante_fact seqt_fact in Hclock, Hdelta, Hblank, Hsanity.
  destruct (prev_and_later_ok _ _ Hint) as (p & Hp & Hnt & _).
  (* Lengths. *)
  assert (Hlen : length facts = length new_facts).
  { apply fix_times_relative_keeps_identity in Hclock; [|apply fix_clock_keeps_identity].
    apply fix_times_relative_keeps_identity in Hdelta; [|apply fix_delta_keeps_identity].
    apply fix_times_relative_keeps_identity in Hblank; [|apply fix_blank_keeps_identity].
    apply Forall2_length in Hclock, Hdelta, Hblank. congruence. }
  split; [done|].
  (* The blank pass returned: its input was resolved, and its output is
     as [fix_blank_loop] says. *)
  pose proof (blank_pass_outcome facts2 ante_fact seqt_fact conflicts2) as Hres.
  rewrite Hblank in Hres.
  unfold fix_blank_times_relative, fix_times_relative in Hblank.
  rewrite Hp in Hblank. cbn [rbind] in Hblank.
  destruct (fix_blank_loop now facts2 0 (seqt_list seqt_fact) p conflicts2 Hres Hnt)
    as (facts' & prev' & Hloop & Hfill).
  rewrite Hloop in Hblank. cbn [rbind fst snd] in Hblank.
  injection Hblank as -> <-.
  assert (Hlen2 : length facts = length facts2).
  { apply fix_times_loop_keeps_identity in Hloop; [|apply fix_blank_keeps_identity].
    apply Forall2_length in Hloop. congruence. }
  (* Every fact has a datetime end, and no text. *)
  assert (Hends : forall (i : nat) fact', facts !! i = Some fact' ->
                    (exists e, end_ fact' = TDatetime e) /\
                    exists fact, facts2 !! i = Some fact /\
                      start fact' = filled_start fact (prev_time_at p facts i)).
  { intros i fact' Hi.
    destruct (lookup_lt_is_Some_2 facts2 i) as [fact Hfact].
    { rewrite <- Hlen2. by eapply lookup_lt_Some. }
    destruct (Hfill i fact Hfact) as (fact'' & Hi' & Hs' & _ & He').
    rewrite Hi in Hi'. injection Hi' as <-. split; [done|]. by exists fact. }
  assert (Hprev : forall i, not_text (prev_time_at p facts i)).
  { intros [|j]; simpl; [done|].
    destruct (facts !! j) as [before|] eqn:Hj; [|done].
    destruct (Hends j before Hj) as [[e ->] _]. done. }
  assert (Hnotext : Forall times_not_text facts).
  { apply Forall_lookup. intros i fact' Hi.
    destruct (Hends i fact' Hi) as ([e He] & fact & Hfact & Hs).
    split; [|by rewrite He]. rewrite Hs. unfold filled_start.
    rewrite Forall_lookup in Hres. destruct (Hres i fact Hfact) as (Hst & _ & _).
    destruct (start fact); [apply Hprev|done|done]. }
  (* The sanity pass only appends: nothing was recorded before it. *)
  unfold verify_datetimes_sanity in Hsanity. rewrite Hp in Hsanity.
  cbn [rbind] in Hsanity.
  destruct (verify_sanity_loop_appends _ _ _ _ _ _ _ Hnotext Hnt Hsanity)
    as [added Hadded].
  symmetry in Hadded. apply app_eq_nil in Hadded. destruct Hadded as [Hnone _].
  apply app_eq_nil in Hnone. destruct Hnone as [-> Hblankc].
  (* So every start is a datetime as well. *)
  assert (Habs : Forall both_absolute facts).
  { apply Forall_lookup. intros i fact' Hi.
    destruct (Hends i fact' Hi) as ([e He] & fact & Hfact & Hs).
    rewrite Forall_lookup in Hres. destruct (Hres i fact Hfact) as (Hst & _ & _).
    unfold filled_start in Hs.
    destruct (start fact) as [|t|?] eqn:Hstart; [|by exists t, e|done].
    destruct i as [|j]; simpl in Hs.
    - destruct facts2 as [|f0 ?]; [done|]. simpl in Hfact. injection Hfact as ->.
      unfold blank_conflicts in Hblankc. rewrite Hstart in Hblankc.
      destruct p as [|t|?]; [done|by exists t, e|done].
    - destruct (facts !! j) as [before|] eqn:Hj.
      + destruct (Hends j before Hj) as [[t Ht] _]. exists t, e. by rewrite Hs, Ht.
      + apply lookup_ge_None in Hj. apply lookup_lt_Some in Hi. lia. }
  split; [done|].
  intros Hne. destruct facts as [|fact rest]; [done|].
  apply (verify_datetimes_sanity_sorted fact rest ante_fact seqt_fact []); [done|done|].
  unfold verify_datetimes_sanity. rewrite Hp. cbn [rbind].
  rewrite Hblankc in Hsanity. exact Hsanity.
Qed.

(** X7. When [must_complete_times] returns, over sound stored
    neighbours, it has shown no conflict, and the batch it leaves has as
    many facts as it was given, every one with an absolute start and an
    absolute end, in chronological order from the end of the antecedent
    stored fact to the start of the subsequent one. *)
Theorem completed_batch_is_absolute_and_chronological :
  forall new_facts log facts,
    store_integrity (antecedent_fact antecedent new_facts)
      (subsequent_fact subsequent new_facts) ->
    must_complete_times parse_clock_time parse_relative_minutes
      datetime_from_clock_after datetime_from_clock_prior now
      antecedent subsequent new_facts = (log, Ok facts) ->
    log = [] /\
    length facts = length new_facts /\
    Forall both_absolute facts /\
    Sorted Z.le (timeline (antecedent_fact antecedent new_facts) facts
                   (subsequent_fact subsequent new_facts)).
Proof.
  intros new_facts log facts Hint Hmust.
  unfold must_complete_times in Hmust.
  destruct new_facts as [|f0 rest0] eqn:Hnew.
  - injection Hmust as <- <-. repeat split; [constructor|]. simpl. constructor.
  - rewrite <- Hnew in *.
    destruct (all_passes new_facts) as [[fs cs]|e] eqn:Hall; [|by simplify_eq].
    destruct cs as [|c cs]; simpl in Hmust; [|by simplify_eq].
    injection Hmust as <- <-.
    destruct (completed_batch new_facts fs Hint Hall) as (Hlen & Habs & Hsorted).
    split; [done|]. split; [done|]. split; [done|].
    apply Hsorted. intros ->. rewrite Hnew in Hlen. done.
Qed.

(** ** The detector after the blank pass *)

(** What the blank pass hands to the detector, from a [prev_time] that is
    not text: every end is a datetime, and a start is a datetime unless
    it is the blank start of the first fact with no time before it, for
    which the blank pass has recorded its conflict. *)
Lemma blank_pass_flags_blank_start facts2 ante_fact seqt_fact conflicts2 facts conflicts :
  store_integrity ante_fact seqt_fact ->
  blank_pass facts2 ante_fact seqt_fact conflicts2 = Ok (facts, conflicts) ->
  forall (i : nat) fact,
    facts !! i = Some fact ->
    (exists e, end_ fact = TDatetime e) /\
    ((exists s, start fact = TDatetime s) \/
     (start fact = TNone /\ i = 0%nat /\ ante_fact = None /\
      In (NewFact 0, None, infer_reason Wstart "left blank") conflicts)).
Proof.
  intros Hint Hblank.
  destruct (prev_and_later_ok _ _ Hint) as (p & Hp & Hnt & _ & Hsome).
  pose proof (blank_pass_outcome facts2 ante_fact seqt_fact conflicts2) as Hres.
  rewrite Hblank in Hres.
  unfold fix_blank_times_relative, fix_times_relative in Hblank.
  rewrite Hp in Hblank. cbn [rbind] in Hblank.
  destruct (fix_blank_loop now facts2 0 (seqt_list seqt_fact) p conflicts2 Hres Hnt)
    as (facts' & prev' & Hloop & Hfill).
  rewrite Hloop in Hblank. cbn [rbind fst snd] in Hblank.
  injection Hblank as -> <-.
  assert (Hlen : length facts = length facts2).
  { apply fix_times_loop_keeps_identity in Hloop; [|apply fix_blank_keeps_identity].
    by apply Forall2_length in Hloop. }
  assert (Hends : forall (i : nat) fact', facts !! i = Some fact' ->
                    (exists e, end_ fact' = TDatetime e) /\
                    exists fact, facts2 !! i = Some fact /\
                      start fact' = filled_start fact (prev_time_at p facts i)).
  { intros i fact' Hi.
    destruct (lookup_lt_is_Some_2 facts2 i) as [fact Hfact].
    { rewrite <- Hlen. by eapply lookup_lt_Some. }
    destruct (Hfill i fact Hfact) as (fact'' & Hi' & Hs' & _ & He').
    rewrite Hi in Hi'. injection Hi' as <-. split; [done|]. by exists fact. }
  intros i fact' Hi.
  destruct (Hends i fact' Hi) as ([e He] & fact & Hfact & Hs).
  split; [by exists e|].
  rewrite Forall_lookup in Hres. destruct (Hres i fact Hfact) as (Hst & _ & _).
  unfold filled_start in Hs.
  destruct (start fact) as [|t|?] eqn:Hstart; [|left; by exists t|done].
  destruct i as [|j]; simpl in Hs.
  - destruct facts2 as [|f0 ?]; [done|]. simpl in Hfact. injection Hfact as ->.
    unfold blank_conflicts. rewrite Hstart.
    destruct p as [|t|?]; [|left; by exists t|done].
    right. split; [done|]. split; [done|]. split.
    + destruct ante_fact as [ante|]; [|done].
      destruct (proj1 Hint ante eq_refl) as [t Ht].
      specialize (Hsome ante eq_refl). congruence.
    + apply in_app_iff. right. by left.
  - destruct (facts !! j) as [before|] eqn:Hj.
    + destruct (Hends j before Hj) as [[t Ht] _]. left. exists t. by rewrite Hs, Ht.
    + apply lookup_ge_None in Hj. apply lookup_lt_Some in Hi. lia.
Qed.

(** C1. The conflict detector runs on what the blank pass hands it, with
    the same stored neighbours. There every end is a datetime, and a
    start is absent only in the first fact of an import with no time
    before it, which the blank pass has already flagged with Cannot infer
    date of start time left blank; so no absent time is left unflagged,
    and the detector returns. It keeps the conflicts it was given and
    appends, for every fact: (fact, prev_fact, New fact starts before
    previous fact ends) exactly when the start is before the running
    [prev_time] (the end of the fact before, or of the antecedent stored
    fact for the first), naming that fact; (fact, next_fact, New fact ends
    after next fact starts) exactly when the end is after the next
    datetime found in the facts after it followed by the subsequent
    stored fact, naming the fact it was found in; (fact, None, New fact
    starts after it ends/ends before it starts) exactly when the start is
    after the end; and nothing else. *)
Theorem sanity_pass_reports_every_overlap :
  forall new_facts s1 s2 facts conflicts,
    let ante_fact := antecedent_fact antecedent new_facts in
    let seqt_fact := subsequent_fact subsequent new_facts in
    store_integrity ante_fact seqt_fact ->
    clock_pass new_facts ante_fact seqt_fact [] = Ok s1 ->
    delta_pass (fst s1) ante_fact seqt_fact (snd s1) = Ok s2 ->
    blank_pass (fst s2) ante_fact seqt_fact (snd s2) = Ok (facts, conflicts) ->
    exists added,
      verify_datetimes_sanity facts ante_fact seqt_fact conflicts
      = Ok (conflicts ++ added) /\
      all_passes new_facts = Ok (facts, conflicts ++ added) /\
      (forall c, In c added -> sanity_reason (snd c)) /\
      forall (i : nat) fact,
        facts !! i = Some fact ->
        (exists e, end_ fact = TDatetime e) /\
        ((exists s, start fact = TDatetime s) \/
         (start fact = TNone /\
          In (NewFact i, None, infer_reason Wstart "left blank") conflicts)) /\
        holds_conflicts_of (NewFact i) fact
          (prev_time_at (match ante_fact with
                         | Some ante => end_ ante
                         | None => TNone
                         end) facts i)
          (prev_fact_at (match ante_fact with
                         | Some _ => Some AnteFact
                         | None => None
                         end) 0 i)
          (tag_new (S i) (drop (S i) facts) ++ seqt_list seqt_fact)
          added.
Proof.
  intros new_facts s1 s2 facts conflicts ante_fact seqt_fact Hint Hclock Hdelta Hblank.
  destruct (prev_and_later_ok _ _ Hint) as (p & Hp & Hnt & Hnone & Hsome).
  pose proof (blank_pass_flags_blank_start _ _ _ _ _ _ Hint Hblank) as Hflag.
  assert (Hfl : flagged_or_absolute 0 conflicts facts).
  { intros i fact Hi. destruct (Hflag i fact Hi) as [Hend Hstart].
    split; [done|]. destruct Hstart as [?|(Hs & -> & _ & Hin)]; [by left|right].
    split; [done|]. by eapply already_caught_in. }
  destruct (verify_sanity_loop_flagged facts 0 (seqt_list seqt_fact) p
              (match ante_fact with Some _ => Some AnteFact | None => None end)
              conflicts Hfl Hnt) as (added & Hloop & Hadded).
  assert (Hsanity : verify_datetimes_sanity facts ante_fact seqt_fact conflicts
                    = Ok (conflicts ++ added)).
  { unfold verify_datetimes_sanity. rewrite Hp. exact Hloop. }
  exists added. split; [done|]. split.
  { unfold complete_times. fold ante_fact seqt_fact.
    rewrite Hclock. cbn [rbind]. rewrite Hdelta. cbn [rbind]. rewrite Hblank.
    cbn [rbind fst snd]. by rewrite Hsanity. }
  assert (Hp0 : p = match ante_fact with Some ante => end_ ante | None => TNone end).
  { destruct ante_fact as [ante|]; [by apply Hsome|by apply Hnone]. }
  rewrite <- Hp0. split.
  - intros c Hc. apply Hadded in Hc. destruct Hc as (i & fact & _ & Hc).
    apply in_fact_conflicts in Hc. by destruct Hc.
  - intros i fact Hi. destruct (Hflag i fact Hi) as [Hend Hstart].
    split; [done|]. split.
    { destruct Hstart as [?|(Hs & -> & _ & Hin)]; [by left|by right]. }
    pose proof (fact_conflicts_holds (NewFact i) fact (prev_time_at p facts i)
                  (prev_fact_at (match ante_fact with
                                 | Some _ => Some AnteFact
                                 | None => None
                                 end) 0 i)
                  (tag_new (S i) (drop (S i) facts) ++ seqt_list seqt_fact))
      as (H1 & H2 & H3).
    assert (Hiff : forall other reason,
               In (NewFact i, other, reason) added <->
               In (NewFact i, other, reason)
                  (appended_for 0 facts (seqt_list seqt_fact) p
                     (match ante_fact with Some _ => Some AnteFact | None => None end)
                     i fact)).
    { intros other reason. rewrite Hadded. split.
      - intros (j & fact' & Hj & Hc).
        pose proof (in_fact_conflicts _ _ _ _ _ _ Hc) as [Hself _].
        unfold conflict_fact in Hself. simpl in Hself. by simplify_eq.
      - intros Hc. by exists i, fact. }
    split; [|split]; intros other; rewrite Hiff; [apply H1|apply H2|apply H3].
Qed.

End Passes.

(** ** The check against the store *)

Section StoreCheck.

Variable mend_facts_times : Fact -> time_hint -> list (Fact * Fact).

(** A fact the store has no objection to. *)
Definition store_clean (fact : Fact) : Prop :=
  mend_facts_times fact verify_both = [].

Lemma mend_all_closed new_facts :
  forall idx,
    fst (mend_all mend_facts_times idx new_facts)
    = imap (fun i _ => MendFactsTimes (idx + i) verify_both) new_facts /\
    (forall entry,
        In entry (snd (mend_all mend_facts_times idx new_facts)) <->
        exists (i : nat) fact,
          new_facts !! i = Some fact /\
          mend_facts_times fact verify_both <> [] /\
          entry = ((idx + i)%nat, mend_facts_times fact verify_both)).
Proof.
  induction new_facts as [|f rest IH]; intros idx.
  - split; [done|]. intros entry. split; [done|]. by intros (i & fact & Hi & _).
  - cbn [mend_all]. destruct (IH (S idx)) as [Hlog Hall].
    destruct (mend_all mend_facts_times (S idx) rest) as [log all_conflicts].
    cbn [fst snd] in *. split.
    + rewrite Hlog. cbn [imap]. rewrite Nat.add_0_r. f_equal.
      apply imap_ext. intros i x _. simpl. f_equal. lia.
    + intros entry.
      assert (Htail : In entry all_conflicts <->
                      exists (i : nat) fact,
                        (f :: rest) !! S i = Some fact /\
                        mend_facts_times fact verify_both <> [] /\
                        entry = ((idx + S i)%nat, mend_facts_times fact verify_both)).
      { rewrite Hall. split; intros (i & fact & Hi & Hne & ->); exists i, fact;
          (split; [done|split; [done|f_equal; lia]]). }
      destruct (mend_facts_times f verify_both) as [|c cs] eqn:Hf.
      * rewrite Htail. split.
        -- intros (i & fact & Hi & Hne & ->). by exists (S i), fact.
        -- intros (i & fact & Hi & Hne & ->). destruct i as [|i].
           ++ simpl in Hi. injection Hi as <-. by rewrite Hf in Hne.
           ++ by exists i, fact.
      * cbn [In]. rewrite Htail. split.
        -- intros [<-|(i & fact & Hi & Hne & ->)].
           ++ exists 0%nat, f. rewrite Nat.add_0_r, Hf. done.
           ++ by exists (S i), fact.
        -- intros (i & fact & Hi & Hne & ->). destruct i as [|i].
           ++ left. simpl in Hi. injection Hi as <-. by rewrite Nat.add_0_r, Hf.
           ++ right. by exists i, fact.
Qed.

(** X8. [must_not_conflict_existing] asks the store about every fact of
    the batch, once each and in order, with hint [verify_both], and does
    not stop at the first objection. Only then does it decide: with no
    objection it returns and has shown nothing; otherwise it shows every
    edit the store would need, for every fact objected to, and exits. *)
Theorem every_fact_is_checked_against_the_store :
  forall new_facts,
  exists echoes,
    fst (must_not_conflict_existing mend_facts_times new_facts)
    = imap (fun i _ => MendFactsTimes i verify_both) new_facts ++ echoes /\
    (forall e,
        In e echoes <->
        exists (i : nat) fact edit,
          new_facts !! i = Some fact /\
          In edit (mend_facts_times fact verify_both) /\
          e = EchoSavedConflict i (fst edit) (snd edit)) /\
    (Forall store_clean new_facts ->
     snd (must_not_conflict_existing mend_facts_times new_facts) = Ok tt /\
     echoes = []) /\
    (~ Forall store_clean new_facts ->
     snd (must_not_conflict_existing mend_facts_times new_facts) = Raise SystemExit).
Proof.
  intros new_facts. unfold must_not_conflict_existing.
  destruct (mend_all_closed new_facts 0) as [Hlog Hall].
  destruct (mend_all mend_facts_times 0 new_facts) as [log all_conflicts].
  cbn [fst snd] in *. subst log.
  assert (Hclean : Forall store_clean new_facts <-> all_conflicts = []).
  { split.
    - intros Hforall. destruct all_conflicts as [|entry ?]; [done|].
      destruct (proj1 (Hall entry)) as (i & fact & Hi & Hne & _); [by left|].
      rewrite Forall_lookup in Hforall. by destruct (Hne (Hforall i fact Hi)).
    - intros ->. apply Forall_lookup. intros i fact Hi.
      destruct (mend_facts_times fact verify_both) as [|c cs] eqn:Hf; [done|].
      destruct (proj2 (Hall ((0 + i)%nat, c :: cs))).
      exists i, fact. by rewrite Hf. }
  exists (concat (map echo_saved_fact_conflicts all_conflicts)).
  split; [|split; [|split]].
  - unfold barf_on_overlapping_facts_old. by destruct all_conflicts.
  - intros e. rewrite in_concat. split.
    + intros (echoed & Hechoed & He). apply in_map_iff in Hechoed.
      destruct Hechoed as (entry & <- & Hentry).
      apply Hall in Hentry. destruct Hentry as (i & fact & Hi & _ & ->).
      unfold echo_saved_fact_conflicts in He. cbn [fst snd] in He.
      apply in_map_iff in He. destruct He as (edit & <- & Hedit).
      by exists i, fact, edit.
    + intros (i & fact & edit & Hi & Hedit & ->).
      exists (echo_saved_fact_conflicts (i, mend_facts_times fact verify_both)).
      split.
      * apply in_map. apply Hall. exists i, fact.
        split; [done|]. split; [|done]. intros Hnil. by rewrite Hnil in Hedit.
      * unfold echo_saved_fact_conflicts. cbn [fst snd].
        by apply (in_map (fun edit => EchoSavedConflict i (fst edit) (snd edit))).
  - intros Hforall. apply Hclean in Hforall. by subst all_conflicts.
  - intros Hnot. unfold barf_on_overlapping_facts_old.
    destruct all_conflicts as [|entry ?]; [|done]. destruct Hnot. by apply Hclean.
Qed.

End StoreCheck.

End ImportProps.

(** * Reading the import file ([parse_facts_from_stream]) *)

Module ImportStream.

Section Stream.

(** A line of the input, and the dictionary the factoid parser makes of a
    line that opens a fact. *)
Context {line fact_dict : Type}.

(** [not line.strip()] *)
Variable blank : line -> bool.

(** [dissect_meta_line]: the dictionary of a line that gives a start or an
    end, [None] of any other line. The dictionary it returns has been
    indexed by 'start' and by 'end', so it is not empty, and is truthy. *)
Variable dissect_meta_line : line -> option fact_dict.

(** The variables of the loop of [parse_facts_from_stream]. *)
Record parser_state := mkParser {
  bl_count : Z;
  current_fact_dict : option fact_dict;
  accumulated_fact : list line;
  unprocessed_facts : list (option fact_dict * list line);
}.

Definition initial_state : parser_state := mkParser (-1) None [] [].

(** [gobble_blank_or_continued]: the list [accumulated_fact] as it leaves
    it, the blank line count, and [processed]. *)
Definition gobble_blank_or_continued (ln : line) (accumulated : list line)
    (blank_line_count : Z) : result (list line * Z * bool) :=
  if blank_line_count <? 0 then
    if blank_line_count =? -1 then
      Ok (accumulated, blank_line_count, blank ln)
    else Raise AssertionError
  else if blank ln then Ok (accumulated ++ [ln], blank_line_count + 1, true)
  else if blank_line_count =? 0 then Ok (accumulated ++ [ln], blank_line_count, true)
  else Ok (accumulated, blank_line_count, false).

(** [gobble_if_not_new_fact], with [missing_fact_must_come_early]. *)
Definition gobble_if_not_new_fact (ln : line) (accumulated : list line)
    (blank_line_count : Z) : result (list line * option fact_dict) :=
  match dissect_meta_line ln with
  | None =>
      if blank_line_count =? -1 then Raise SystemExit
      else Ok (accumulated ++ [ln], None)
  | Some parsed => Ok (accumulated, Some parsed)
  end.

(** The body of the loop, for one line. *)
Definition parse_line (st : parser_state) (ln : line) : result parser_state :=
  (s1 <- gobble_blank_or_continued ln (accumulated_fact st) (bl_count st);;
   let '(accumulated1, bl1, processed) := s1 in
   if processed then
     Ok (mkParser bl1 (current_fact_dict st) accumulated1 (unprocessed_facts st))
   else
     s2 <- gobble_if_not_new_fact ln accumulated1 bl1;;
     let '(accumulated2, parsed) := s2 in
     match parsed with
     | None =>
         Ok (mkParser 0 (current_fact_dict st) accumulated2 (unprocessed_facts st))
     | Some new_dict =>
         match accumulated2 with
         | [] =>
             match current_fact_dict st with
             | None => Ok (mkParser 0 (Some new_dict) [ln] (unprocessed_facts st))
             | Some _ => Raise AssertionError
             end
         | _ =>
             match current_fact_dict st with
             | None => Raise AssertionError
             | Some current =>
                 Ok (mkParser 0 (Some new_dict) [ln]
                       (unprocessed_facts st ++ [(Some current, accumulated2)]))
             end
         end
     end)%result.

Fixpoint parse_lines (st : parser_state) (input_f : list line) : result parser_state :=
  match input_f with
  | [] => Ok st
  | ln :: rest => (st' <- parse_line st ln;; parse_lines st' rest)%result
  end.

(** [parse_facts_from_stream]; an input without a fact ends in
    [barf_and_exit]. *)
Definition parse_facts_from_stream (input_f : list line)
  : result (list (option fact_dict * list line)) :=
  (st <- parse_lines initial_state input_f;;
   match accumulated_fact st with
   | [] => Raise SystemExit
   | _ => Ok (unprocessed_facts st ++ [(current_fact_dict st, accumulated_fact st)])
   end)%result.

(** ** What the loop keeps true *)

Definition all_blank (lines : list line) : Prop := Forall (fun ln => blank ln = true) lines.

(** A block as the parser should hand it on: the dictionary of its first
    line, which is not blank and opens a fact, and the lines up to the
    next block. *)
Definition opens_with_its_fact (block : option fact_dict * list line) : Prop :=
  exists parsed first rest,
    block = (Some parsed, first :: rest) /\
    blank first = false /\ dissect_meta_line first = Some parsed.

(** Inside a block, no line that follows a blank line opens a fact. *)
Definition no_fact_inside (lines : list line) : Prop :=
  forall (i : nat) x y,
    lines !! i = Some x -> lines !! S i = Some y ->
    blank x = true -> blank y = false -> dissect_meta_line y = None.

Definition ends_blank (lines : list line) : Prop :=
  exists ln, last lines = Some ln /\ blank ln = true.

Definition ends_written (lines : list line) : Prop :=
  exists ln, last lines = Some ln /\ blank ln = false.

Definition before_first_fact (st : parser_state) : Prop :=
  bl_count st = -1 /\ current_fact_dict st = None /\
  accumulated_fact st = [] /\ unprocessed_facts st = [].

Definition inside_a_fact (consumed : list line) (st : parser_state) : Prop :=
  exists skipped,
    all_blank skipped /\
    consumed = skipped ++ concat (map snd (unprocessed_facts st)) ++ accumulated_fact st /\
    opens_with_its_fact (current_fact_dict st, accumulated_fact st) /\
    no_fact_inside (accumulated_fact st) /\
    (bl_count st = 0 /\ ends_written (accumulated_fact st) \/
     0 < bl_count st /\ ends_blank (accumulated_fact st)) /\
    Forall (fun block => opens_with_its_fact block /\ no_fact_inside (snd block) /\
                         ends_blank (snd block)) (unprocessed_facts st).

Definition parser_inv (consumed : list line) (st : parser_state) : Prop :=
  (before_first_fact st /\ all_blank consumed) \/ inside_a_fact consumed st.

Lemma no_fact_inside_one ln : no_fact_inside [ln].
Proof. intros i x y Hx Hy. destruct i; simpl in *; done. Qed.

Lemma no_fact_inside_snoc lines ln :
  no_fact_inside lines ->
  (forall x, last lines = Some x -> blank x = true -> blank ln = false ->
             dissect_meta_line ln = None) ->
  no_fact_inside (lines ++ [ln]).
Proof.
  intros Hin Hlast i x y Hx Hy Hbx Hby.
  destruct (decide (S i < length lines)%nat) as [Hlt|Hge].
  - rewrite lookup_app_l in Hx by lia. rewrite lookup_app_l in Hy by lia.
    by apply (Hin i x y).
  - assert (Hi : lines !! i = Some x).
    { apply lookup_lt_Some in Hy as Hlen. rewrite length_app in Hlen. simpl in Hlen.
      rewrite lookup_app_l in Hx by lia. done. }
    apply lookup_lt_Some in Hi as Hlen.
    assert (S i = length lines) as Heq by lia.
    rewrite lookup_app_r in Hy by lia.
    replace (S i - length lines)%nat with 0%nat in Hy by lia. simpl in Hy.
    injection Hy as <-. apply (Hlast x); [|done|done].
    rewrite last_lookup. by replace (pred (length lines)) with i by lia.
Qed.

Lemma parse_line_inv consumed st ln :
  parser_inv consumed st ->
  match parse_line st ln with
  | Ok st' => parser_inv (consumed ++ [ln]) st'
  | Raise e =>
      e = SystemExit /\ before_first_fact st /\
      blank ln = false /\ dissect_meta_line ln = None
  end.
Proof.
  intros [[(Hbl & Hcur & Hacc & Hun) Hblank]|Hinside].
  - (* Before the first fact. *)
    destruct st as [bl cur acc un]; simpl in *; subst.
    unfold parse_line, gobble_blank_or_continued, gobble_if_not_new_fact. simpl.
    destruct (blank ln) eqn:Hln; simpl.
    + left. split; [done|]. apply Forall_app. split; [done|]. by constructor.
    + destruct (dissect_meta_line ln) as [parsed|] eqn:Hparsed; simpl; [|done].
      right. exists consumed. simpl. split; [done|]. split; [done|].
      split; [by exists parsed, ln, []|].
      split; [apply no_fact_inside_one|].
      split; [left; split; [done|by exists ln]|constructor].
  - (* Inside a fact. *)
    destruct Hinside as (skipped & Hskipped & Hconsumed & Hopen & Hno & Hbl & Hblocks).
    destruct st as [bl cur acc un]; simpl in *.
    destruct Hopen as (parsed & first & rest & [= -> ->] & Hfirst & Hdissect).
    assert (Hnonneg : (bl <? 0) = false) by (apply Z.ltb_ge; lia).
    unfold parse_line, gobble_blank_or_continued, gobble_if_not_new_fact. simpl.
    rewrite Hnonneg.
    destruct (blank ln) eqn:Hln; simpl.
    + (* A blank line of the description. *)
      right. exists skipped. simpl. split; [done|].
      split; [by rewrite Hconsumed, <- !app_assoc|].
      split; [by exists parsed, first, (rest ++ [ln])|].
      split; [apply (no_fact_inside_snoc (first :: rest)); [done|congruence]|].
      split; [|done]. right. split; [lia|].
      exists ln. split; [|done]. change (last ((first :: rest) ++ [ln]) = Some ln); apply last_snoc.
    + destruct (bl =? 0) eqn:Hzero; simpl.
      * (* A line of the description. *)
        apply Z.eqb_eq in Hzero. subst bl.
        destruct Hbl as [[_ (lastln & Hlast & Hwritten)]|[Hpos _]]; [|lia].
        right. exists skipped. simpl. split; [done|].
        split; [by rewrite Hconsumed, <- !app_assoc|].
        split; [by exists parsed, first, (rest ++ [ln])|].
        split.
        { apply (no_fact_inside_snoc (first :: rest)); [done|].
          intros x Hx Hbx. rewrite Hlast in Hx. congruence. }
        split; [|done]. left. split; [done|].
        exists ln. split; [|done]. change (last ((first :: rest) ++ [ln]) = Some ln); apply last_snoc.
      * (* A line after blank lines: more description, or a new fact. *)
        apply Z.eqb_neq in Hzero.
        destruct Hbl as [[Hz _]|[Hpos Hends]]; [done|].
        assert (Hnot : (bl =? -1) = false) by (apply Z.eqb_neq; lia).
        rewrite Hnot.
        destruct (dissect_meta_line ln) as [new_dict|] eqn:Hparsed; simpl.
        -- right. exists skipped. simpl. split; [done|].
           split.
           { rewrite Hconsumed, map_app, concat_app. simpl.
             by rewrite app_nil_r, <- !app_assoc. }
           split; [by exists new_dict, ln, []|].
           split; [apply no_fact_inside_one|].
           split; [left; split; [done|by exists ln]|].
           apply Forall_app. split; [done|]. constructor; [|constructor].
           split; [by exists parsed, first, rest|]. by split.
        -- right. exists skipped. simpl. split; [done|].
           split; [by rewrite Hconsumed, <- !app_assoc|].
           split; [by exists parsed, first, (rest ++ [ln])|].
           split; [apply (no_fact_inside_snoc (first :: rest)); [done|done]|].
           split; [|done]. left. split; [done|].
           exists ln. split; [|done]. change (last ((first :: rest) ++ [ln]) = Some ln); apply last_snoc.
Qed.

Lemma parse_lines_inv input_f :
  forall consumed st,
    parser_inv consumed st ->
    match parse_lines st input_f with
    | Ok st' => parser_inv (consumed ++ input_f) st'
    | Raise e =>
        e = SystemExit /\ all_blank consumed /\
        exists blanks first rest,
          input_f = blanks ++ first :: rest /\ all_blank blanks /\
          blank first = false /\ dissect_meta_line first = None
    end.
Proof.
  induction input_f as [|ln rest IH]; intros consumed st Hinv.
  - simpl. by rewrite app_nil_r.
  - cbn [parse_lines].
    pose proof (parse_line_inv consumed st ln Hinv) as Hstep.
    destruct (parse_line st ln) as [st'|e] eqn:Hline; cbn [rbind].
    + specialize (IH (consumed ++ [ln]) st' Hstep).
      destruct (parse_lines st' rest) as [st''|e].
      * by rewrite <- app_assoc in IH.
      * destruct IH as (-> & Hblank & blanks & first & rest' & -> & Hblanks & Hf & Hd).
        apply Forall_app in Hblank. destruct Hblank as [Hconsumed Hln].
        split; [done|]. split; [done|].
        exists (ln :: blanks), first, rest'. split; [done|].
        split; [|done]. inversion Hln; subst. by constructor.
    + destruct Hstep as (-> & Hbefore & Hln & Hd).
      destruct Hinv as [[_ Hblank]|Hinside].
      * split; [done|]. split; [done|]. exists [], ln, rest.
        split; [done|]. split; [constructor|done].
      * destruct Hbefore as (_ & Hcur & _).
        destruct Hinside as (? & _ & _ & (? & ? & ? & Hblock & _) & _).
        rewrite Hcur in Hblock. done.
Qed.

(** Everything the parser is proved to do, in one statement. *)
Lemma parse_facts_from_stream_spec input_f :
  match parse_facts_from_stream input_f with
  | Ok blocks =>
      exists skipped,
        all_blank skipped /\
        input_f = skipped ++ concat (map snd blocks) /\
        blocks <> [] /\
        Forall (fun block => opens_with_its_fact block /\ no_fact_inside (snd block)) blocks /\
        (forall (i : nat) block,
            blocks !! i = Some block -> (S i < length blocks)%nat -> ends_blank (snd block))
  | Raise e =>
      e = SystemExit /\
      (all_blank input_f \/
       exists blanks first rest,
         input_f = blanks ++ first :: rest /\ all_blank blanks /\
         blank first = false /\ dissect_meta_line first = None)
  end.
Proof.
  unfold parse_facts_from_stream.
  assert (Hinit : parser_inv [] initial_state).
  { left. split; [done|constructor]. }
  pose proof (parse_lines_inv input_f [] initial_state Hinit) as Hrun.
  destruct (parse_lines initial_state input_f) as [st|e]; cbn [rbind].
  - simpl in Hrun. destruct Hrun as [[(_ & _ & Hacc & _) Hblank]|Hinside].
    + rewrite Hacc. split; [done|by left].
    + destruct Hinside as (skipped & Hskipped & Hconsumed & Hopen & Hno & _ & Hblocks).
      destruct Hopen as (parsed & first & rest & Hblock & Hfirst & Hdissect).
      injection Hblock as Hcur Hacc. rewrite Hacc in *.
      exists skipped. split; [done|]. split.
      { rewrite Hconsumed, map_app, concat_app. simpl. by rewrite app_nil_r. }
      split; [by destruct (unprocessed_facts st)|]. split.
      * apply Forall_app. split.
        -- eapply Forall_impl; [exact Hblocks|]. by intros block (? & ? & _).
        -- constructor; [|constructor]. split; [|done].
           exists parsed, first, rest. by rewrite Hcur.
      * intros i block Hi Hlt. rewrite length_app in Hlt. simpl in Hlt.
        rewrite lookup_app_l in Hi by lia.
        rewrite Forall_lookup in Hblocks. by destruct (Hblocks i block Hi) as (_ & _ & ?).
  - destruct Hrun as (-> & _ & Hfirst). split; [done|by right].
Qed.

Lemma first_written_line_unique (skipped blanks : list line) f first r rest :
  all_blank skipped -> all_blank blanks ->
  blank f = false -> blank first = false ->
  skipped ++ f :: r = blanks ++ first :: rest -> f = first.
Proof.
  revert blanks. induction skipped as [|x skipped IH]; intros blanks Hs Hb Hf Hfirst Heq.
  - destruct blanks as [|y blanks]; simpl in Heq; [congruence|].
    inversion Hb; subst. injection Heq as <- _. congruence.
  - inversion Hs; subst. destruct blanks as [|y blanks]; simpl in Heq.
    + injection Heq as -> _. congruence.
    + inversion Hb; subst. injection Heq as _ Heq. by eapply IH.
Qed.

(** X9. [parse_facts_from_stream] cuts the input into blocks without
    losing or reordering a line: when it returns, there is at least one
    block, the lines of the blocks in order are the input after its
    leading blank lines, and every block opens with a line that is not
    blank and that the factoid parser reads as a fact, whose dictionary
    the block carries. *)
Theorem stream_is_cut_into_fact_blocks :
  forall input_f blocks,
    parse_facts_from_stream input_f = Ok blocks ->
    blocks <> [] /\
    (exists skipped,
        all_blank skipped /\ input_f = skipped ++ concat (map snd blocks)) /\
    Forall opens_with_its_fact blocks.
Proof.
  intros input_f blocks Hparse.
  pose proof (parse_facts_from_stream_spec input_f) as Hspec. rewrite Hparse in Hspec.
  destruct Hspec as (skipped & Hskipped & Hinput & Hne & Hblocks & _).
  split; [done|]. split; [by exists skipped|].
  eapply Forall_impl; [exact Hblocks|]. by intros block [? _].
Qed.

(** X10. A new fact begins only after a blank line. Every block but the
    last ends with a blank line, and inside a block no line that follows a
    blank line is read as a fact by the factoid parser: a line that would
    open a fact, written directly under another line, stays part of the
    description above it. *)
Theorem a_fact_opens_only_after_a_blank_line :
  forall input_f blocks,
    parse_facts_from_stream input_f = Ok blocks ->
    (forall (i : nat) block,
        blocks !! i = Some block -> (S i < length blocks)%nat -> ends_blank (snd block)) /\
    (forall block (i : nat) x y,
        In block blocks ->
        snd block !! i = Some x -> snd block !! S i = Some y ->
        blank x = true -> blank y = false -> dissect_meta_line y = None).
Proof.
  intros input_f blocks Hparse.
  pose proof (parse_facts_from_stream_spec input_f) as Hspec. rewrite Hparse in Hspec.
  destruct Hspec as (skipped & _ & _ & _ & Hblocks & Hends).
  split; [done|].
  intros block i x y Hin. rewrite Forall_forall in Hblocks.
  apply list_elem_of_In in Hin. destruct (Hblocks block Hin) as [_ Hno]. apply Hno.
Qed.

(** X11. The parser fails in one way only, by exiting, and none of its
    assertions can fail. It exits exactly for an input without a fact:
    one whose lines are all blank (an empty input among them), or one
    whose first line that is not blank is not read as a fact. *)
Theorem parser_exits_exactly_without_a_first_fact :
  forall input_f,
    (forall e, parse_facts_from_stream input_f = Raise e -> e = SystemExit) /\
    (parse_facts_from_stream input_f = Raise SystemExit <->
     all_blank input_f \/
     exists blanks first rest,
       input_f = blanks ++ first :: rest /\ all_blank blanks /\
       blank first = false /\ dissect_meta_line first = None).
Proof.
  intros input_f.
  pose proof (parse_facts_from_stream_spec input_f) as Hspec.
  destruct (parse_facts_from_stream input_f) as [blocks|e].
  - split; [done|]. split; [done|]. intros Hno. exfalso.
    destruct Hspec as (skipped & Hskipped & Hinput & Hne & Hblocks & _).
    destruct blocks as [|block blocks]; [done|].
    inversion Hblocks as [|? ? [(parsed & f & r & -> & Hf & Hd) _] _]; subst.
    simpl in Hno.
    destruct Hno as [Hall|(blanks & first & rest & Heq & Hblanks & Hfirst & Hnone)].
    + apply Forall_app in Hall. destruct Hall as [_ Hall].
      inversion Hall; subst. congruence.
    + simpl in Heq.
      pose proof (first_written_line_unique skipped blanks f first _ _
                    Hskipped Hblanks Hf Hfirst Heq).
      congruence.
  - destruct Hspec as [-> Hwhy]. split; [by intros ? [= <-]|]. by split.
Qed.

End Stream.

End ImportStream.

(** * More on the save path ([dob/create.py]) *)

Module SaveProps.

Import Create.

Section Saving.

Context {Store : Type}.
Variable facts_save : Store -> Fact -> gset (option Z) -> option (Store * Fact).
Variable mend_fact_timey_wimey :
  Store -> heap -> addr -> time_hint -> gmap (option Z) addr ->
  result (heap * gmap (option Z) addr * list addr * list (addr * addr)).
Variable click_confirm : nat -> Fact -> Fact -> bool.

(** ** Confirmation with [yes] or [dry] *)

Lemma confirm_loop_yes h conflicts :
  forall n m,
    confirm_loop click_confirm h true conflicts n m
    = ([], (n + length conflicts)%nat, m).
Proof.
  induction conflicts as [|[edited original] rest IH]; intros n m; simpl.
  - by rewrite Nat.add_0_r.
  - rewrite IH. do 2 f_equal. lia.
Qed.

Lemma cull_stopped_ongoing_nil h conflicts :
  cull_stopped_ongoing h conflicts = [] <->
  Forall (fun con => is_stopped (h (fst con)) = true) conflicts.
Proof.
  unfold cull_stopped_ongoing. induction conflicts as [|con rest IH]; simpl.
  - split; [constructor|done].
  - destruct (is_stopped (h (fst con))) eqn:Hstopped; simpl.
    + rewrite IH. split; [by constructor|by inversion 1].
    + split; [done|]. inversion 1; congruence.
Qed.

(** X12. With [yes] or [dry] set, [must_confirm_fact_edits] asks nothing
    and shows nothing, and it confirms nothing either: it returns only
    when every conflict is the closing of a stopped fact, and exits as soon
    as one other edit of a saved fact is among the conflicts. *)
Theorem yes_and_dry_confirm_no_edit :
  forall conflicts yes dry (st : state (Store:=Store)),
    yes || dry = true ->
    exists r,
      must_confirm_fact_edits click_confirm conflicts yes dry st = (r, st, []) /\
      (r = Ok tt <->
       Forall (fun con => is_stopped (st_heap st (fst con)) = true) conflicts) /\
      (r <> Ok tt -> r = Raise SystemExit).
Proof.
  intros conflicts yes dry st Hyes. unfold must_confirm_fact_edits.
  pose proof (cull_stopped_ongoing_nil (st_heap st) conflicts) as Hnil.
  destruct (cull_stopped_ongoing (st_heap st) conflicts) as [|con kept] eqn:Hcull.
  - exists (Ok tt). split; [done|]. split; [|done]. split; [by intros _; apply Hnil|done].
  - rewrite Hyes, confirm_loop_yes. simpl.
    exists (Raise SystemExit). split; [done|]. split; [|done].
    split; [done|]. intros Hall. by apply Hnil in Hall.
Qed.

(** ** What reaches the store *)

(** A fact [save_fact] hands to the store: its [pk] is not a placeholder,
    and it is not a fact that was never stored and is deleted. *)
Definition storable (fact : Fact) : Prop :=
  match pk fact with
  | Some k => 0 <= k
  | None => deleted fact = false
  end.

(** The events of [save_facts_maybe]: in a dry run only echoes, otherwise
    only saves of storable facts and the notice of a completed fact. *)
Definition save_event_ok (dry : bool) (e : event) : Prop :=
  match e with
  | StoreSave fact ignored => dry = false /\ storable fact
  | EchoCompleted _ => dry = false
  | EchoFact _ | EchoDiff _ _ | EchoDryRun => dry = true
  | MendFact _ _ _ | EchoBanner _ | Confirm _ _ _ | WriteFact _ _ => False
  end.

(** A computation whose events all satisfy [Q] and which, when [keep] is
    set, leaves the store as it was. *)
Definition run_ok {A} (Q : event -> Prop) (keep : bool) (m : M (Store:=Store) A) : Prop :=
  forall st,
    Forall Q (snd (m st)) /\
    (keep = true -> st_store (snd (fst (m st))) = st_store st).

Lemma run_ok_ret {A} Q keep (a : A) : run_ok Q keep (ret a).
Proof. intros st. split; [constructor|done]. Qed.

Lemma run_ok_get_fact Q keep a : run_ok Q keep (get_fact a).
Proof. intros st. split; [constructor|done]. Qed.

Lemma run_ok_emit Q keep e : Q e -> run_ok Q keep (emit e).
Proof. intros He st. split; [by repeat constructor|done]. Qed.

Lemma run_ok_bind {A B} Q keep (m : M A) (k : A -> M B) :
  run_ok Q keep m -> (forall a, run_ok Q keep (k a)) -> run_ok Q keep (bind m k).
Proof.
  intros Hm Hk st. unfold bind. destruct (Hm st) as [Hlog Hstore].
  destruct (m st) as [[[a|e] st1] log1]; simpl in *; [|done].
  destruct (Hk a st1) as [Hlog2 Hstore2].
  destruct (k a st1) as [[r st2] log2]; simpl in *.
  split; [by apply Forall_app|]. intros Hkeep. by rewrite Hstore2, Hstore.
Qed.

Lemma clear_placeholder_storable fact :
  (pk (clear_placeholder fact) = None -> deleted (clear_placeholder fact) = false) ->
  storable (clear_placeholder fact).
Proof.
  unfold storable, clear_placeholder.
  destruct (pk fact) as [k|] eqn:Hpk; simpl.
  - destruct (negb (k =? 0) && (k <? 0)) eqn:Hneg; simpl.
    + auto.
    + rewrite Hpk. intros _. apply andb_false_iff in Hneg.
      destruct Hneg as [Hz|Hlt]; [|by apply Z.ltb_ge].
      apply negb_false_iff, Z.eqb_eq in Hz. lia.
  - rewrite Hpk. auto.
Qed.

Lemma run_ok_store_save dry fact ignored :
  dry = false -> storable fact ->
  run_ok (save_event_ok dry) dry (store_save facts_save fact ignored).
Proof.
  intros -> Hfact st. unfold store_save.
  destruct (facts_save (st_store st) fact ignored) as [[store' new_fact]|]; simpl;
    (split; [|done]); by constructor.
Qed.

Lemma run_ok_bind_post {A B} Q keep (P : A -> Prop) (m : M A) (k : A -> M B) :
  run_ok Q keep m ->
  (forall st a st' log, m st = (Ok a, st', log) -> P a) ->
  (forall a, P a -> run_ok Q keep (k a)) ->
  run_ok Q keep (bind m k).
Proof.
  intros Hm Hpost Hk st. unfold bind. destruct (Hm st) as [Hlog Hstore].
  destruct (m st) as [[[a|e] st1] log1] eqn:Hrun; simpl in *; [|done].
  destruct (Hk a (Hpost _ _ _ _ Hrun) st1) as [Hlog2 Hstore2].
  destruct (k a st1) as [[r st2] log2]; simpl in *.
  split; [by apply Forall_app|]. intros Hkeep. by rewrite Hstore2, Hstore.
Qed.

Lemma run_ok_save_fact a dry ignored :
  run_ok (save_event_ok dry) dry (save_fact facts_save a dry ignored).
Proof.
  assert (Hsave : forall fact, storable fact ->
            run_ok (save_event_ok dry) dry
              (if negb dry
               then bind (store_save facts_save fact ignored) (fun new_fact => ret [new_fact])
               else bind (emit (EchoFact fact)) (fun _ => ret [fact]))).
  { intros fact Hfact. destruct dry; simpl.
    - apply run_ok_bind; [by apply run_ok_emit|]. intros _. apply run_ok_ret.
    - apply run_ok_bind; [by apply run_ok_store_save|]. intros ?. apply run_ok_ret. }
  unfold save_fact.
  apply (run_ok_bind_post _ _
           (fun fact => (pk fact = None -> deleted fact = false) -> storable fact)).
  - intros st. split; [constructor|done].
  - intros st fact st' log [= <- _ _]. apply clear_placeholder_storable.
  - intros fact Hstorable. destruct (pk fact) as [k|] eqn:Hpk.
    + destruct (deleted fact); apply Hsave, Hstorable; congruence.
    + destruct (deleted fact) eqn:Hdeleted; [apply run_ok_ret|].
      by apply Hsave, Hstorable.
Qed.

Lemma run_ok_save_conflicts conflicts dry :
  run_ok (save_event_ok dry) dry (save_conflicts facts_save conflicts dry).
Proof.
  induction conflicts as [|[edited original] rest IH]; simpl; [apply run_ok_ret|].
  apply run_ok_bind.
  - destruct dry; simpl.
    + apply run_ok_bind; [apply run_ok_get_fact|]. intros e.
      apply run_ok_bind; [apply run_ok_get_fact|]. intros o.
      apply run_ok_bind; [by apply run_ok_emit|]. intros _. apply run_ok_ret.
    + apply run_ok_bind; [apply run_ok_save_fact|].
      intros saved. apply run_ok_bind; [apply run_ok_get_fact|]. intros e.
      apply run_ok_bind; [|intros _; apply run_ok_ret].
      destruct (is_stopped e); [by apply run_ok_emit|apply run_ok_ret].
  - intros saved. apply run_ok_bind; [apply IH|]. intros more. apply run_ok_ret.
Qed.

Lemma run_ok_save_new_facts new_facts dry ignore_pks :
  run_ok (save_event_ok dry) dry (save_new_facts facts_save new_facts dry ignore_pks).
Proof.
  induction new_facts as [|a rest IH]; simpl; [apply run_ok_ret|].
  apply run_ok_bind; [apply run_ok_save_fact|].
  intros saved. apply run_ok_bind; [apply IH|]. intros more. apply run_ok_ret.
Qed.

Lemma dry_events_no_save log : Forall (save_event_ok true) log -> saves log = [].
Proof.
  unfold saves. induction 1 as [|e log He _ IH]; [done|].
  cbn [omap list_omap]. destruct e; simpl in *; try done. by destruct He.
Qed.

(** What the saves expected of [save_facts_maybe] are: the edited fact of
    a conflict with no [ignore_pks], or a new fact with the caller's,
    in each case a storable fact. *)
Lemma expected_saves_items h conflicts new_facts ignore_pks fact ignored :
  In (fact, ignored) (expected_saves h (save_items conflicts new_facts ignore_pks)) ->
  storable fact /\
  ((exists con, In con conflicts /\ ignored = ∅ /\
                fact = clear_placeholder (h (fst con))) \/
   (exists a, In a new_facts /\ ignored = ignore_pks /\
              fact = clear_placeholder (h a))).
Proof.
  unfold expected_saves, save_items. intros Hin.
  apply list_elem_of_In, list_elem_of_omap in Hin.
  destruct Hin as ([a ig] & Hitem & Hsome). cbn [fst snd] in Hsome.
  destruct (is_dead (clear_placeholder (h a))) eqn:Hdead; [done|].
  injection Hsome as <- <-. split.
  - apply clear_placeholder_storable. unfold is_dead in Hdead. intros Hpk.
    rewrite Hpk in Hdead. by destruct (deleted (clear_placeholder (h a))).
  - apply list_elem_of_In, in_app_iff in Hitem. destruct Hitem as [Hitem|Hitem];
      apply in_map_iff in Hitem; destruct Hitem as (x & [= <- <-] & Hx).
    + left. by exists x.
    + right. by exists x.
Qed.

(** X13. [save_facts_maybe] never hands the store a fact with a
    placeholder [pk], nor a fact that was never stored and is deleted. In
    a dry run it saves nothing at all and leaves the store as it was: it
    only echoes. Otherwise the saves it makes are, in order, the edited
    fact of each conflict, saved with no [ignore_pks], and then each new
    fact, saved with the caller's [ignore_pks], each with a placeholder
    [pk] cleared and the dead ones left out: all of them when it returns,
    those up to the save that failed when it exits; and the store changes
    by these saves only. Whatever the mode, it makes no mend call, asks no
    confirmation and writes to no file. *)
Theorem only_storable_facts_reach_the_store :
  forall new_facts conflicts ignore_pks dry (st : state (Store:=Store)),
    let run := save_facts_maybe facts_save new_facts conflicts ignore_pks dry st in
    let expected :=
      expected_saves (st_heap st) (save_items conflicts new_facts ignore_pks) in
    Forall (save_event_ok dry) (snd run) /\
    (dry = true -> saves (snd run) = [] /\ st_store (snd (fst run)) = st_store st) /\
    (dry = false ->
     saves (snd run) `prefix_of` expected /\
     ((exists saved, fst (fst run) = Ok saved) -> saves (snd run) = expected) /\
     st_store (snd (fst run))
     = store_after facts_save (st_store st) (saves (snd run))) /\
    (forall fact ignored,
        In (fact, ignored) expected ->
        storable fact /\
        ((exists con, In con conflicts /\ ignored = ∅ /\
                      fact = clear_placeholder (st_heap st (fst con))) \/
         (exists a, In a new_facts /\ ignored = ignore_pks /\
                    fact = clear_placeholder (st_heap st a)))).
Proof.
  intros new_facts conflicts ignore_pks dry st run expected.
  assert (Hrun : run_ok (save_event_ok dry) dry
                   (save_facts_maybe facts_save new_facts conflicts ignore_pks dry)).
  { unfold save_facts_maybe. apply run_ok_bind.
    - destruct conflicts; [apply run_ok_ret|].
      destruct dry; [by apply run_ok_emit|apply run_ok_ret].
    - intros _. apply run_ok_bind; [apply run_ok_save_conflicts|].
      intros edited. apply run_ok_bind; [apply run_ok_save_new_facts|].
      intros new. apply run_ok_ret. }
  destruct (Hrun st) as [Hlog Hkeep]. fold run in Hlog, Hkeep.
  split; [done|]. split; [|split].
  - intros ->. split; [by apply dry_events_no_save|by apply Hkeep].
  - intros ->.
    destruct (saver_save_facts_maybe facts_save new_facts conflicts ignore_pks st
                (fst (fst run)) (snd (fst run)) (snd run))
      as (_ & Hstore & Hpre & Hfull).
    { subst run. by destruct (save_facts_maybe _ _ _ _ _ _) as [[? ?] ?]. }
    done.
  - intros fact ignored. apply expected_saves_items.
Qed.

(** ** A batch that is shown or written, not saved *)

(** What [persist_fact] does with a fact in a dry run, or with an output
    file. *)
Definition shown (dry is_first_fact : bool) (fact : Fact) : event :=
  if dry then EchoFact fact else WriteFact fact is_first_fact.

Lemma persist_fact_shown a oe first final file_out yes dry (st : state (Store:=Store)) :
  negb dry && negb file_out = false ->
  persist_fact facts_save mend_fact_timey_wimey click_confirm a oe first final
    file_out yes dry st
  = (Ok ([st_heap st a], oe), st, [shown dry first (st_heap st a)]).
Proof.
  unfold persist_fact, shown. destruct dry, file_out; simpl; done.
Qed.

(** Every key of [pks] is met once and is in [other_edits]. *)
Definition covered (pks : list (option Z)) (other_edits : gmap (option Z) addr) : Prop :=
  NoDup pks /\ forall k, k ∈ pks -> k ∈ dom other_edits.

Lemma covered_cons k pks other_edits :
  k ∈ dom other_edits ->
  covered (k :: pks) other_edits <-> covered pks (delete k other_edits).
Proof.
  intros Hk. unfold covered. rewrite NoDup_cons. split.
  - intros [[Hfresh Hnodup] Hin]. split; [done|]. intros k' Hk'.
    rewrite dom_delete_L. apply elem_of_difference. split.
    + apply Hin. by right.
    + intros Heq%elem_of_singleton. by subst.
  - intros [Hnodup Hin]. split; [split; [|done]|].
    + intros Hmem. apply Hin in Hmem. rewrite dom_delete_L in Hmem.
      apply elem_of_difference in Hmem. destruct Hmem as [_ Hne].
      apply Hne. by apply elem_of_singleton.
    + intros k' [->|Hk']%elem_of_cons; [done|].
      apply Hin in Hk'. rewrite dom_delete_L in Hk'.
      by apply elem_of_difference in Hk' as [? _].
Qed.

Lemma record_ready_loop_shown file_out yes dry (st : state (Store:=Store)) rest :
  negb dry && negb file_out = false ->
  forall n idx oe r st' log,
    record_ready_loop facts_save mend_fact_timey_wimey click_confirm n idx rest oe
      file_out yes dry st = (r, st', log) ->
    st' = st /\
    (covered (map (fun a => pk (st_heap st a)) rest) oe ->
     exists done,
       r = Ok done /\ fst done = map (st_heap st) rest /\
       dom (snd done)
       = dom oe ∖ list_to_set (map (fun a => pk (st_heap st a)) rest) /\
       log = imap (fun i a => shown dry (Nat.eqb (idx + i) 0) (st_heap st a)) rest) /\
    (~ covered (map (fun a => pk (st_heap st a)) rest) oe -> r = Raise KeyError).
Proof.
  intros Hmode. induction rest as [|a rest IH]; intros n idx oe r st' log Hrun.
  - simpl in Hrun. injection Hrun as <- <- <-. split; [done|]. split.
    + intros _. exists ([], oe). simpl. split; [done|]. split; [done|].
      split; [|done]. by rewrite difference_empty_L.
    + intros Hnot. destruct Hnot. split; [constructor|]. by intros k Hk%elem_of_nil.
  - apply record_ready_loop_cons in Hrun.
    destruct Hrun as (r1 & st1 & log1 & Hpersist & Hrest).
    rewrite persist_fact_shown in Hpersist by done.
    injection Hpersist as <- <- <-. cbv zeta in Hrest.
    assert (Hkey : edits_key (pk (st_heap st a)) (pk (st_heap st a)) = pk (st_heap st a)).
    { apply edits_key_original. by left. }
    rewrite Hkey in Hrest. cbn [map].
    destruct (oe !! pk (st_heap st a)) as [v|] eqn:Hlook.
    + assert (Hin : pk (st_heap st a) ∈ dom oe) by (apply elem_of_dom; by eexists).
      destruct Hrest as (r2 & log2 & Hloop & -> & ->).
      destruct (IH _ _ _ _ _ _ Hloop) as (-> & Hyes & Hno).
      split; [done|]. rewrite (covered_cons _ _ _ Hin). split.
      * intros Hcov. destruct (Hyes Hcov) as (more & -> & Hfst & Hdom & ->).
        exists (st_heap st a :: fst more, snd more). cbn [fst snd].
        split; [done|]. split; [by rewrite Hfst|]. split.
        -- rewrite Hdom, dom_delete_L. cbn [list_to_set].
           apply set_eq. intros k.
           rewrite !elem_of_difference, elem_of_union. tauto.
        -- cbn [imap]. rewrite Nat.add_0_r. simpl. f_equal.
           apply imap_ext. intros i x _. simpl.
           by replace (idx + S i)%nat with (S (idx + i)) by lia.
      * intros Hnot. by rewrite (Hno Hnot).
    + destruct Hrest as (-> & -> & ->). split; [done|]. split.
      * intros [_ Hin]. apply not_elem_of_dom in Hlook. destruct Hlook.
        apply Hin. by left.
      * done.
Qed.

(** X14. In a dry run, and when writing to an output file, the batch loop
    of [record_ready_facts] touches neither the store nor the facts. When
    the [pk]s of the ready facts are pairwise different it shows (or
    writes) every fact once, in order, the first one marked as first, and
    returns; when two of the facts share a [pk] (two facts without one,
    too) it ends in the [KeyError] of the deletion from [other_edits]. *)
Theorem dry_and_file_runs_need_distinct_pks :
  forall ready_facts file_out yes dry (st : state (Store:=Store)),
    negb dry && negb file_out = false ->
    exists r log,
      record_ready_facts facts_save mend_fact_timey_wimey click_confirm
        ready_facts file_out yes dry st = (r, st, log) /\
      (NoDup (map (fun a => pk (st_heap st a)) ready_facts) ->
       r = Ok (map (st_heap st) ready_facts) /\
       log = imap (fun i a => shown dry (Nat.eqb i 0) (st_heap st a)) ready_facts) /\
      (~ NoDup (map (fun a => pk (st_heap st a)) ready_facts) ->
       r = Raise KeyError).
Proof.
  intros ready_facts file_out yes dry st Hmode.
  set (pks := map (fun a => pk (st_heap st a)) ready_facts).
  set (oe := make_other_edits (st_heap st) ready_facts).
  assert (Hdom : dom oe = list_to_set pks) by apply make_other_edits_dom.
  assert (Hcov : covered pks oe <-> NoDup pks).
  { split; [by intros [? _]|]. intros Hnodup. split; [done|].
    intros k Hk. rewrite Hdom. by apply elem_of_list_to_set. }
  unfold record_ready_facts. fold oe. unfold bind.
  destruct (record_ready_loop facts_save mend_fact_timey_wimey click_confirm
              (length ready_facts) 0 ready_facts oe file_out yes dry st)
    as [[r1 st1] log1] eqn:Hloop.
  destruct (record_ready_loop_shown file_out yes dry st ready_facts Hmode
              _ _ _ _ _ _ Hloop) as (-> & Hyes & Hno).
  fold pks in Hyes, Hno. rewrite Hcov in Hyes, Hno.
  destruct (decide (NoDup pks)) as [Hnodup|Hdup].
  - destruct (Hyes Hnodup) as (done & -> & Hfst & Hdone & ->).
    assert (Hempty : snd done = ∅).
    { apply dom_empty_iff_L. rewrite Hdone, Hdom. apply set_eq. intros k.
      rewrite elem_of_difference. split; [by intros [? ?]|by intros ?%elem_of_empty]. }
    rewrite Hempty, map_size_empty. simpl. rewrite app_nil_r.
    eexists _, _. split; [reflexivity|]. split; [|done].
    intros _. by rewrite Hfst.
  - rewrite (Hno Hdup). eexists _, _. split; [reflexivity|]. split; [done|done].
Qed.

End Saving.

End SaveProps.

(** * The export ([export_facts] of [dob/transcode.py]) *)

Module ExportFacts.

(** How an export can fail: [click.ClickException], [NotImplementedError]
    (from [search_facts]), the assertion of [export_formatted], and
    whatever [controller.facts.get] raises. *)
Inductive export_error :=
| ClickException
| NotImplementedError
| AssertionFailed
| StoreError (e : exn).

Inductive outcome (A : Type) : Type :=
| Done (a : A)
| Failed (e : export_error).

Arguments Done {A} a.
Arguments Failed {A} e.

(** The report writers of [nark.reports]. *)
Inductive writer := CSVWriter | TSVWriter | ICALWriter | XMLWriter.

(** Python truthiness of an optional text and of an optional key. *)
Definition truthy_text (v : option string) : bool :=
  match v with
  | Some s => negb (String.eqb s "")
  | None => false
  end.

Definition truthy_key (key : option Z) : bool :=
  match key with
  | Some k => negb (k =? 0)
  | None => false
  end.

Section Exporting.

Context {fact : Type}.

(** [controller.facts.get(pk=key)] and [controller.facts.get_all(start=...,
    end=..., ...)]; the other filters of [get_all] are handed through as
    given and are fixed here. *)
Variable facts_get : Z -> result fact.
Variable facts_get_all : option string -> option string -> list fact.

(** [controller.client_config['export_path']] *)
Variable export_path : string.

(** What the export logs, reads, writes and shows, in order. *)
Inductive export_event :=
| LogInfo
| StoreGet (key : Z)
| StoreGetAll (start end_ : option string)
| WriteReport (w : writer) (filepath : string) (facts : list fact)
| EchoExported (filepath : string).

Definition accepted_formats : list string := ["csv"; "tsv"; "ical"; "xml"].

Definition must_verify_format (to_format : string) : list export_event * outcome unit :=
  if existsb (String.eqb to_format) accepted_formats then ([], Done tt)
  else ([LogInfo], Failed ClickException).

Definition resolve_start_end (start end_ : option string)
  : option string * option string :=
  (if truthy_text start then start else None,
   if truthy_text end_ then end_ else None).

Definition resolve_filepath (filename : option string) (to_format : string) : string :=
  match filename with
  | Some name => if truthy_text filename then name else export_path +:+ "." +:+ to_format
  | None => export_path +:+ "." +:+ to_format
  end.

(** [search_facts] of [dob/cmds_list/fact.py] *)
Definition search_facts (key : option Z) (start end_ : option string)
  : list export_event * outcome (list fact) :=
  match key with
  | Some k =>
      if truthy_key key then
        match facts_get k with
        | Ok found => ([StoreGet k], Done [found])
        | Raise e => ([StoreGet k], Failed (StoreError e))
        end
      else if truthy_text start then ([], Failed NotImplementedError)
      else if truthy_text end_ then ([], Failed NotImplementedError)
      else ([StoreGetAll start end_], Done (facts_get_all start end_))
  | None =>
      if truthy_text start then ([], Failed NotImplementedError)
      else if truthy_text end_ then ([], Failed NotImplementedError)
      else ([StoreGetAll start end_], Done (facts_get_all start end_))
  end.

Definition write_with (w : writer) (facts : list fact) (filepath : string)
  : list export_event * outcome unit :=
  ([WriteReport w filepath facts; EchoExported filepath], Done tt).

Definition export_formatted (facts : list fact) (filepath to_format : string)
  : list export_event * outcome unit :=
  if String.eqb to_format "csv" then write_with CSVWriter facts filepath
  else if String.eqb to_format "tsv" then write_with TSVWriter facts filepath
  else if String.eqb to_format "ical" then write_with ICALWriter facts filepath
  else if String.eqb to_format "xml" then write_with XMLWriter facts filepath
  else ([], Failed AssertionFailed).

(** [_export_facts] *)
Definition export_facts (to_format : string) (start end_ filename : option string)
    (key : option Z) : list export_event * outcome unit :=
  let '(log1, r1) := must_verify_format to_format in
  match r1 with
  | Failed e => (log1, Failed e)
  | Done _ =>
      let '(start', end') := resolve_start_end start end_ in
      let filepath := resolve_filepath filename to_format in
      let '(log2, r2) := search_facts key start' end' in
      match r2 with
      | Failed e => (log1 ++ log2, Failed e)
      | Done facts =>
          let '(log3, r3) := export_formatted facts filepath to_format in
          (log1 ++ log2 ++ log3, r3)
      end
  end.

(** The writer of a format. *)
Definition writer_of (to_format : string) : option writer :=
  if String.eqb to_format "csv" then Some CSVWriter
  else if String.eqb to_format "tsv" then Some TSVWriter
  else if String.eqb to_format "ical" then Some ICALWriter
  else if String.eqb to_format "xml" then Some XMLWriter
  else None.

Lemma accepted_has_writer to_format :
  existsb (String.eqb to_format) accepted_formats = true ->
  exists w, writer_of to_format = Some w /\
            forall facts filepath,
              export_formatted facts filepath to_format = write_with w facts filepath.
Proof.
  unfold accepted_formats, writer_of, export_formatted. simpl.
  destruct (String.eqb to_format "csv"); [by eexists|].
  destruct (String.eqb to_format "tsv"); [by eexists|].
  destruct (String.eqb to_format "ical"); [by eexists|].
  destruct (String.eqb to_format "xml"); [by eexists|done].
Qed.

Lemma resolve_start_end_truthy start end_ :
  truthy_text (fst (resolve_start_end start end_)) = truthy_text start /\
  truthy_text (snd (resolve_start_end start end_)) = truthy_text end_ /\
  (truthy_text start = false -> fst (resolve_start_end start end_) = None) /\
  (truthy_text end_ = false -> snd (resolve_start_end start end_) = None).
Proof.
  unfold resolve_start_end. simpl.
  destruct (truthy_text start) eqn:Hs, (truthy_text end_) eqn:He; simpl; by rewrite ?Hs, ?He.
Qed.

Lemma search_facts_outcome key start end_ :
  search_facts key start end_ =
  if truthy_key key
  then match key with
       | Some k =>
           match facts_get k with
           | Ok found => ([StoreGet k], Done [found])
           | Raise e => ([StoreGet k], Failed (StoreError e))
           end
       | None => ([], Failed NotImplementedError)
       end
  else if truthy_text start || truthy_text end_ then ([], Failed NotImplementedError)
  else ([StoreGetAll start end_], Done (facts_get_all start end_)).
Proof.
  unfold search_facts. destruct key as [k|]; simpl.
  - destruct (negb (k =? 0)); [done|]. by destruct (truthy_text start), (truthy_text end_).
  - by destruct (truthy_text start), (truthy_text end_).
Qed.

(** X15. What an export can do. A format other than csv, tsv, ical and
    xml is refused with a [ClickException] before the store is read or
    anything is written; for these four the assertion of
    [export_formatted] cannot fail. Without a key, a start or an end time
    ends the export in [NotImplementedError] with nothing read or
    written, so the store is only ever asked for all facts with both
    times [None]; with a key the two times are ignored and the one fact of
    that key is exported. Whenever a report is written the export ends
    well, and the report is written once, after the one read of the
    store, by the writer of the format, to [filename] if one is given and
    to [export_path] with the format as extension otherwise. *)
Theorem export_reads_then_writes_once :
  forall to_format start end_ filename key,
    let run := export_facts to_format start end_ filename key in
    snd run <> Failed AssertionFailed /\
    (existsb (String.eqb to_format) accepted_formats = false ->
     run = ([LogInfo], Failed ClickException)) /\
    (existsb (String.eqb to_format) accepted_formats = true ->
     truthy_key key = false ->
     truthy_text start || truthy_text end_ = true ->
     run = ([], Failed NotImplementedError)) /\
    (existsb (String.eqb to_format) accepted_formats = true ->
     truthy_key key = false ->
     truthy_text start || truthy_text end_ = false ->
     exists w,
       writer_of to_format = Some w /\
       run = ([StoreGetAll None None;
               WriteReport w (resolve_filepath filename to_format)
                 (facts_get_all None None);
               EchoExported (resolve_filepath filename to_format)], Done tt)) /\
    (existsb (String.eqb to_format) accepted_formats = true ->
     forall k found,
       key = Some k -> k <> 0 -> facts_get k = Ok found ->
       exists w,
         writer_of to_format = Some w /\
         run = ([StoreGet k;
                 WriteReport w (resolve_filepath filename to_format) [found];
                 EchoExported (resolve_filepath filename to_format)], Done tt)).
Proof.
  intros to_format start end_ filename key run. subst run.
  unfold export_facts, must_verify_format.
  destruct (existsb (String.eqb to_format) accepted_formats) eqn:Hformat.
  2:{ repeat split; done. }
  destruct (accepted_has_writer to_format Hformat) as (w & Hw & Hwrite).
  destruct (resolve_start_end_truthy start end_) as (Hs & He & Hs0 & He0).
  destruct (resolve_start_end start end_) as [start' end'] eqn:Hresolve.
  cbn [fst snd] in *. rewrite search_facts_outcome, Hs, He.
  split; [|split; [done|split; [|split]]].
  - destruct (truthy_key key).
    + destruct key as [k|]; [|done].
      destruct (facts_get k) as [found|e]; [|done]. by rewrite Hwrite.
    + destruct (truthy_text start || truthy_text end_); [done|]. by rewrite Hwrite.
  - intros _ -> ->. done.
  - intros _ -> Hnone. rewrite Hnone. apply orb_false_iff in Hnone.
    destruct Hnone as [Hstart Hend]. rewrite (Hs0 Hstart), (He0 Hend), Hwrite.
    by exists w.
  - intros _ k found -> Hk Hfound.
    assert (Htruthy : truthy_key (Some k) = true).
    { simpl. apply negb_true_iff. by apply Z.eqb_neq. }
    rewrite Htruthy, Hfound, Hwrite. by exists w.
Qed.

End Exporting.

End ExportFacts.

(** * Preparing the facts of [add_fact] ([dob/create.py]) *)

Module AddFact.

Import Create.

(** The two ways the preparation can fail: the assertion of
    [_prepare_facts] and the [IndexError] of [edit_facts[0]]. *)
Inductive add_error := AssertionFailed | IndexError.

Inductive prepared (A : Type) : Type :=
| Ready (a : A)
| Broken (e : add_error).

Arguments Ready {A} a.
Arguments Broken {A} e.

(** The loop of [_prepare_facts]: a fact without [pk] is given the next
    placeholder, in place, and is kept; any other fact must have a
    positive [pk] and is left out. *)
Fixpoint prepare_facts (h : heap) (new_fact_pk : Z) (new_fact_or_two : list addr)
  : prepared (heap * list addr) :=
  match new_fact_or_two with
  | [] => Ready (h, [])
  | new_fact :: rest =>
      match pk (h new_fact) with
      | None =>
          let h1 := heap_set h new_fact (set_pk (h new_fact) (Some new_fact_pk)) in
          match prepare_facts h1 (new_fact_pk - 1) rest with
          | Ready (h', edit_facts) => Ready (h', new_fact :: edit_facts)
          | Broken e => Broken e
          end
      | Some k =>
          if 0 <? k then prepare_facts h new_fact_pk rest
          else Broken AssertionFailed
      end
  end.

(** [_add_conflicts] *)
Definition add_conflicts (conflicts : list (addr * addr))
    (edit_facts orig_facts : list addr) : prepared (list addr * list addr * addr) :=
  let edit_facts := edit_facts ++ map fst conflicts in
  let orig_facts := orig_facts ++ map snd conflicts in
  match edit_facts with
  | [] => Broken IndexError
  | edit_fact :: _ => Ready (edit_facts, orig_facts, edit_fact)
  end.

(** [_prepare_facts] and then [_add_conflicts], as [_add_fact] runs them. *)
Definition prepare_and_add (h : heap) (new_fact_or_two : list addr)
    (conflicts : list (addr * addr))
  : prepared (heap * list addr * list addr * addr) :=
  match prepare_facts h (-1) new_fact_or_two with
  | Broken e => Broken e
  | Ready (h', edit_facts) =>
      match add_conflicts conflicts edit_facts [] with
      | Ready (edit_facts', orig_facts, edit_fact) =>
          Ready (h', edit_facts', orig_facts, edit_fact)
      | Broken e => Broken e
      end
  end.

(** The facts without a [pk], in the order given. *)
Definition new_ones (h : heap) (facts : list addr) : list addr :=
  filter (fun a => pk (h a) = None) facts.

(** What [_prepare_facts] needs of its input: no fact without [pk] is
    given twice, and every [pk] there is positive. *)
Definition well_given (h : heap) (facts : list addr) : Prop :=
  NoDup (new_ones h facts) /\
  Forall (fun a => forall k, pk (h a) = Some k -> 0 < k) facts.

Lemma heap_set_other h a fact b : b <> a -> heap_set h a fact b = h b.
Proof. intros Hne. unfold heap_set. by destruct (Nat.eqb_spec b a). Qed.

Lemma heap_set_same h a fact : heap_set h a fact a = fact.
Proof. unfold heap_set. by rewrite Nat.eqb_refl. Qed.

Lemma new_ones_agree h1 h2 facts :
  (forall b, b ∈ facts -> h1 b = h2 b) -> new_ones h1 facts = new_ones h2 facts.
Proof.
  unfold new_ones. induction facts as [|a rest IH]; intros Hagree; [done|].
  rewrite !filter_cons, (Hagree a) by (by left).
  rewrite IH by (intros b Hb; apply Hagree; by right). done.
Qed.

Lemma well_given_agree h1 h2 facts :
  (forall b, b ∈ facts -> h1 b = h2 b) -> well_given h1 facts -> well_given h2 facts.
Proof.
  intros Hagree [Hnodup Hpos]. split.
  - by rewrite <- (new_ones_agree h1 h2).
  - rewrite Forall_forall in *. intros a Ha k. rewrite <- (Hagree a Ha). by apply Hpos.
Qed.

Lemma prepare_facts_outcome new_fact_or_two :
  forall h new_fact_pk,
    new_fact_pk < 0 ->
    match prepare_facts h new_fact_pk new_fact_or_two with
    | Ready (h', edit_facts) =>
        well_given h new_fact_or_two /\
        edit_facts = new_ones h new_fact_or_two /\
        (forall (i : nat) a,
            edit_facts !! i = Some a ->
            h' a = set_pk (h a) (Some (new_fact_pk - Z.of_nat i))) /\
        (forall b, b ∉ edit_facts -> h' b = h b)
    | Broken e => e = AssertionFailed /\ ~ well_given h new_fact_or_two
    end.
Proof.
  induction new_fact_or_two as [|a rest IH]; intros h z Hz.
  - simpl. split; [split; constructor|]. split; [done|]. split; [|done].
    intros i b Hb. done.
  - cbn [prepare_facts]. destruct (pk (h a)) as [k|] eqn:Hpk.
    + (* A fact with a [pk]. *)
      assert (Hnew : new_ones h (a :: rest) = new_ones h rest).
      { unfold new_ones. rewrite filter_cons_False; [done|]. by rewrite Hpk. }
      destruct (Z.ltb_spec 0 k) as [Hpos|Hneg].
      * specialize (IH h z Hz).
        destruct (prepare_facts h z rest) as [[h' edit]|e].
        -- destruct IH as ([Hnodup Hall] & -> & Hset & Hkeep).
           split; [|by rewrite Hnew].
           split; [by rewrite Hnew|]. constructor; [|done].
           intros k' Hk'. rewrite Hpk in Hk'. by injection Hk' as <-.
        -- destruct IH as [-> Hnot]. split; [done|].
           intros [Hnodup Hall]. apply Hnot. split; [by rewrite <- Hnew|].
           by inversion Hall.
      * split; [done|]. intros [_ Hall]. inversion Hall as [|? ? Ha _]; subst.
        specialize (Ha k Hpk). lia.
    + (* A new fact. *)
      set (h1 := heap_set h a (set_pk (h a) (Some z))).
      assert (Hnew : new_ones h (a :: rest) = a :: new_ones h rest).
      { unfold new_ones. by rewrite filter_cons_True. }
      assert (Hagree : a ∉ rest -> forall b, b ∈ rest -> h1 b = h b).
      { intros Hfresh b Hb. apply heap_set_other. by intros ->. }
      assert (Hz1 : z - 1 < 0) by lia.
      specialize (IH h1 (z - 1) Hz1).
      destruct (prepare_facts h1 (z - 1) rest) as [[h' edit]|e].
      * destruct IH as ([Hnodup Hall] & -> & Hset & Hkeep).
        assert (Hfresh : a ∉ rest).
        { intros Ha. rewrite Forall_forall in Hall.
          specialize (Hall a Ha z). unfold h1 in Hall.
          rewrite heap_set_same in Hall. specialize (Hall eq_refl). lia. }
        rewrite (new_ones_agree h1 h rest (Hagree Hfresh)) in *.
        assert (Hfresh' : a ∉ new_ones h rest).
        { intros Ha. apply list_elem_of_filter in Ha. by destruct Ha. }
        split; [|split; [by rewrite Hnew|split]].
        -- split.
           ++ rewrite Hnew. by apply NoDup_cons.
           ++ constructor; [intros k; by rewrite Hpk|].
              rewrite Forall_forall in *. intros b Hb k.
              rewrite <- (Hagree Hfresh b Hb). by apply Hall.
        -- intros i b Hb. destruct i as [|i]; simpl in Hb.
           ++ injection Hb as <-. rewrite (Hkeep a Hfresh'). unfold h1.
              rewrite heap_set_same. simpl. by rewrite Z.sub_0_r.
           ++ rewrite (Hset i b Hb). unfold h1. rewrite heap_set_other.
              ** do 2 f_equal. lia.
              ** intros ->. apply Hfresh'. by eapply list_elem_of_lookup_2.
        -- intros b Hb. apply not_elem_of_cons in Hb. destruct Hb as [Hne Hb].
           rewrite (Hkeep b Hb). unfold h1. by rewrite heap_set_other.
      * destruct IH as [-> Hnot]. split; [done|].
        intros [Hnodup Hall]. rewrite Hnew in Hnodup.
        apply NoDup_cons in Hnodup. destruct Hnodup as [Hfresh' Hnodup].
        assert (Hfresh : a ∉ rest).
        { intros Ha. apply Hfresh'. apply list_elem_of_filter. by split. }
        apply Hnot. apply (well_given_agree h h1 rest).
        -- intros b Hb. symmetry. by apply Hagree.
        -- split; [done|]. by inversion Hall.
Qed.

(** X16. What [add_fact] hands to [prompt_and_save]. The facts without a
    [pk] are given the placeholders -1, -2, ... in the order they come,
    in place, and no other fact is touched; [edit_facts] is these facts
    followed by the edited fact of every conflict, [orig_facts] only the
    originals of the conflicts, and the fact to edit first is the first of
    [edit_facts]. The preparation fails on its assertion exactly when a
    fact has a [pk] that is not positive or a fact without [pk] is given
    twice, and on [edit_facts[0]] exactly when there is neither a new
    fact nor a conflict. *)
Theorem new_facts_get_placeholder_pks :
  forall h new_fact_or_two conflicts,
    match prepare_and_add h new_fact_or_two conflicts with
    | Ready (h', edit_facts, orig_facts, edit_fact) =>
        well_given h new_fact_or_two /\
        edit_facts = new_ones h new_fact_or_two ++ map fst conflicts /\
        orig_facts = map snd conflicts /\
        head edit_facts = Some edit_fact /\
        (forall (i : nat) a,
            new_ones h new_fact_or_two !! i = Some a ->
            h' a = set_pk (h a) (Some (-1 - Z.of_nat i))) /\
        (forall b, b ∉ new_ones h new_fact_or_two -> h' b = h b)
    | Broken AssertionFailed => ~ well_given h new_fact_or_two
    | Broken IndexError =>
        well_given h new_fact_or_two /\
        new_ones h new_fact_or_two = [] /\ conflicts = []
    end.
Proof.
  intros h new_fact_or_two conflicts. unfold prepare_and_add.
  pose proof (prepare_facts_outcome new_fact_or_two h (-1) eq_refl) as Hprep.
  destruct (prepare_facts h (-1) new_fact_or_two) as [[h' edit]|e].
  - destruct Hprep as (Hgiven & -> & Hset & Hkeep).
    unfold add_conflicts. cbn [app].
    destruct (new_ones h new_fact_or_two ++ map fst conflicts) as [|first more] eqn:Hall.
    + apply app_eq_nil in Hall. destruct Hall as [Hnone Hconflicts].
      split; [done|]. split; [done|]. by destruct conflicts.
    + do 4 (split; [done|]). by split.
  - by destruct Hprep as [-> Hnot].
Qed.

End AddFact.

(** * Worked examples for the import and save paths *)

Import ImportProps.

(** Three drafts, the first with no start and nothing before it, the
    second ending after the third starts: the blank pass flags the first,
    and the detector adds the overlap of the second and the third. *)
Lemma sanity_pass_reports_every_overlap_witness :
  let fact1 := Examples.draft (-1) TNone (TDatetime (Examples.at_ 0 10 0)) in
  let fact2 := Examples.draft (-2) (TDatetime (Examples.at_ 0 10 0))
                 (TDatetime (Examples.at_ 0 12 0)) in
  let fact3 := Examples.draft (-3) (TDatetime (Examples.at_ 0 11 0))
                 (TDatetime (Examples.at_ 0 13 0)) in
  let flagged := [(NewFact 0, None, infer_reason Wstart "left blank")] in
  exists added,
    complete_times Examples.parse_clock_time Examples.parse_relative_minutes
      Examples.datetime_from_clock_after Examples.datetime_from_clock_prior
      (Examples.at_ 0 18 0) Examples.no_neighbour Examples.no_neighbour
      [fact1; fact2; fact3]
    = Ok ([fact1; fact2; fact3], flagged ++ added) /\
    In (NewFact 2, Some (NewFact 1), starts_before_reason) added.
Proof.
  intros fact1 fact2 fact3 flagged.
  destruct (sanity_pass_reports_every_overlap
              Examples.parse_clock_time Examples.parse_relative_minutes
              Examples.datetime_from_clock_after Examples.datetime_from_clock_prior
              (Examples.at_ 0 18 0) Examples.no_neighbour Examples.no_neighbour
              [fact1; fact2; fact3] ([fact1; fact2; fact3], [])
              ([fact1; fact2; fact3], []) [fact1; fact2; fact3] flagged)
    as (added & _ & Hall & _ & Hfacts).
  - split; intros x Hx; discriminate Hx.
  - reflexivity.
  - reflexivity.
  - reflexivity.
  - exists added. split; [exact Hall|].
    destruct (Hfacts 2%nat fact3 eq_refl) as (_ & _ & Hstart & _ & _).
    apply Hstart. split; [reflexivity|].
    exists (Examples.at_ 0 11 0), (Examples.at_ 0 12 0).
    split; [reflexivity|]. split; reflexivity.
Defined.

(** The lone 14:30 of an import into an empty store: the clock pass
    records that its date cannot be inferred, and the import then ends on
    the assertion of the blank pass. *)
Lemma unanchored_token_is_recorded_but_never_reported_witness :
  let fact := Examples.draft (-1) (TText "14:30") TNone in
  fix_clock_times_relative Examples.parse_clock_time
    Examples.datetime_from_clock_after Examples.datetime_from_clock_prior
    [fact] None None []
  = Ok ([fact],
        [(NewFact 0, None,
          "Cannot infer date of start time specified with clock time"%string)]) /\
  must_complete_times Examples.parse_clock_time Examples.parse_relative_minutes
    Examples.datetime_from_clock_after Examples.datetime_from_clock_prior
    (Examples.at_ 0 18 0) Examples.no_neighbour Examples.no_neighbour [fact]
  = ([], Raise AssertionError).
Proof.
  intros fact.
  destruct (unanchored_token_is_recorded_but_never_reported
              Examples.parse_clock_time Examples.parse_relative_minutes
              Examples.datetime_from_clock_after Examples.datetime_from_clock_prior
              (Examples.at_ 0 18 0) Examples.no_neighbour Examples.no_neighbour
              fact "14:30" eq_refl eq_refl) as (_ & _ & Hclock & _ & Hmust).
  split; [exact (Hclock _ eq_refl)|exact Hmust].
Defined.

(** A batch whose last fact holds no time: the store is asked for the
    fact after 10, the end of the fact before it. *)
Lemma store_neighbours_are_looked_up_at_the_ends_witness :
  let fact := Examples.draft (-1) (TDatetime 0) (TDatetime 10) in
  let empty := Examples.draft (-2) TNone TNone in
  let stored := fun t => Some (Examples.draft 7 (TDatetime (t + 5)) (TDatetime (t + 9))) in
  subsequent_fact stored ([] ++ fact :: [empty]) = stored 10.
Proof.
  intros fact empty stored.
  apply (proj1 (proj2 (store_neighbours_are_looked_up_at_the_ends
                         Examples.no_neighbour stored)) [] fact [empty] 10).
  - constructor; [|constructor]. split; intros t; discriminate.
  - left. reflexivity.
Defined.

(** A start and the offset +30 as the end: the passes set the end to 30
    minutes after the start and keep the placeholder [pk]. *)
Lemma passes_keep_the_facts_and_their_identity_witness :
  let fact := Examples.draft (-1) (TDatetime 0) (TText "+30") in
  let fact' := Examples.draft (-1) (TDatetime 0) (TDatetime 1800000000) in
  length [fact'] = length [fact] /\ Forall2 same_identity [fact] [fact'].
Proof.
  intros fact fact'.
  apply (proj2 (passes_keep_the_facts_and_their_identity
                  Examples.parse_clock_time Examples.parse_relative_minutes
                  Examples.datetime_from_clock_after Examples.datetime_from_clock_prior
                  0 Examples.no_neighbour Examples.no_neighbour
                  [fact] [fact'] [])).
  reflexivity.
Defined.

Lemma passes_leave_an_absolute_batch_alone_witness :
  let fact1 := Examples.draft (-1) (TDatetime 0) (TDatetime 10) in
  let fact2 := Examples.draft (-2) (TDatetime 10) (TDatetime 20) in
  complete_times Examples.parse_clock_time Examples.parse_relative_minutes
    Examples.datetime_from_clock_after Examples.datetime_from_clock_prior
    0 Examples.no_neighbour Examples.no_neighbour [fact1; fact2]
  = Ok ([fact1; fact2], []).
Proof.
  intros fact1 fact2.
  rewrite (passes_leave_an_absolute_batch_alone
             Examples.parse_clock_time Examples.parse_relative_minutes
             Examples.datetime_from_clock_after Examples.datetime_from_clock_prior
             0 Examples.no_neighbour Examples.no_neighbour [fact1; fact2]).
  - reflexivity.
  - repeat constructor; by eexists _, _.
Defined.

(** Two facts that overlap: the timeline 0, 20, 10, 30 is not in order,
    and the sanity pass does not leave the conflicts as they were. *)
Lemma sanity_pass_accepts_exactly_chronological_batches_witness :
  let fact1 := Examples.draft (-1) (TDatetime 0) (TDatetime 20) in
  let fact2 := Examples.draft (-2) (TDatetime 10) (TDatetime 30) in
  verify_datetimes_sanity [fact1; fact2] None None [] = Ok []
  <-> Sorted Z.le (timeline None [fact1; fact2] None).
Proof.
  intros fact1 fact2.
  apply (sanity_pass_accepts_exactly_chronological_batches fact1 [fact2] None None []).
  - repeat constructor; by eexists _, _.
  - split; intros ? [=].
Defined.

(** A start that is neither a clock time nor an offset. *)
Lemma leftover_tokens_fail_the_blank_pass_assertion_witness :
  let fact := Examples.draft (-1) (TText "noon") (TDatetime 10) in
  must_complete_times Examples.parse_clock_time Examples.parse_relative_minutes
    Examples.datetime_from_clock_after Examples.datetime_from_clock_prior
    0 Examples.no_neighbour Examples.no_neighbour [fact]
  = ([], Raise AssertionError).
Proof.
  intros fact.
  apply (proj1 (leftover_tokens_fail_the_blank_pass_assertion
                  Examples.parse_clock_time Examples.parse_relative_minutes
                  Examples.datetime_from_clock_after Examples.datetime_from_clock_prior
                  0 Examples.no_neighbour Examples.no_neighbour [fact])
           ([fact], []) ([fact], [])).
  - reflexivity.
  - reflexivity.
  - left. constructor. by exists Wstart, "noon"%string.
Defined.

(** A blank end and an offset: the first fact ends where the second
    starts, the second 30 minutes after its start. *)
Lemma completed_batch_is_absolute_and_chronological_witness :
  let fact1 := Examples.draft (-1) (TDatetime 0) TNone in
  let fact2 := Examples.draft (-2) (TDatetime 10) (TText "+30") in
  let done1 := Examples.draft (-1) (TDatetime 0) (TDatetime 10) in
  let done2 := Examples.draft (-2) (TDatetime 10) (TDatetime 1800000010) in
  ([] : list Transcode.event) = [] /\
  length [done1; done2] = length [fact1; fact2] /\
  Forall both_absolute [done1; done2] /\
  Sorted Z.le (timeline (antecedent_fact Examples.no_neighbour [fact1; fact2])
                 [done1; done2]
                 (subsequent_fact Examples.no_neighbour [fact1; fact2])).
Proof.
  intros fact1 fact2 done1 done2.
  apply (completed_batch_is_absolute_and_chronological
           Examples.parse_clock_time Examples.parse_relative_minutes
           Examples.datetime_from_clock_after Examples.datetime_from_clock_prior
           0 Examples.no_neighbour Examples.no_neighbour
           [fact1; fact2] [] [done1; done2]).
  - split; intros ? [=].
  - reflexivity.
Defined.

(** Stand-ins for the factoid parser, to run the stream parser: a line is
    blank when it is empty, and opens a fact when it starts with a digit. *)
Module StreamExamples.

Definition blank (ln : string) : bool := String.eqb ln "".

Definition dissect_meta_line (ln : string) : option string :=
  match ln with
  | String c _ =>
      match Examples.digit c with
      | Some _ => Some ln
      | None => None
      end
  | EmptyString => None
  end.

(** A blank line, a fact of three lines (the third, though it starts with
    a time, comes directly under the second), a blank line, a fact of one
    line. *)
Definition input_f : list string :=
  [""; "09:00 to 10:00 reading"; "notes"; "09:30 a time in the notes"; "";
   "10:00 to 11:00 writing"].

Definition blocks : list (option string * list string) :=
  [(Some "09:00 to 10:00 reading",
    ["09:00 to 10:00 reading"; "notes"; "09:30 a time in the notes"; ""]);
   (Some "10:00 to 11:00 writing", ["10:00 to 11:00 writing"])].

End StreamExamples.

Import ImportStream.

Lemma stream_is_cut_into_fact_blocks_witness :
  StreamExamples.blocks <> [] /\
  (exists skipped,
      all_blank StreamExamples.blank skipped /\
      StreamExamples.input_f = skipped ++ concat (map snd StreamExamples.blocks)) /\
  Forall (opens_with_its_fact StreamExamples.blank StreamExamples.dissect_meta_line)
    StreamExamples.blocks.
Proof.
  apply (stream_is_cut_into_fact_blocks StreamExamples.blank
           StreamExamples.dissect_meta_line StreamExamples.input_f
           StreamExamples.blocks).
  reflexivity.
Defined.

Lemma a_fact_opens_only_after_a_blank_line_witness :
  ends_blank StreamExamples.blank
    ["09:00 to 10:00 reading"; "notes"; "09:30 a time in the notes"; ""].
Proof.
  apply (proj1 (a_fact_opens_only_after_a_blank_line StreamExamples.blank
                  StreamExamples.dissect_meta_line StreamExamples.input_f
                  StreamExamples.blocks eq_refl)
           0%nat (Some "09:00 to 10:00 reading",
                  ["09:00 to 10:00 reading"; "notes"; "09:30 a time in the notes"; ""])).
  - reflexivity.
  - simpl. apply Nat.lt_succ_diag_r.
Defined.

Import SaveProps.

(** With [yes], the one edit of a saved fact is not asked about, and the
    save exits. *)
Lemma yes_and_dry_confirm_no_edit_witness :
  exists r,
    must_confirm_fact_edits SaveExamples.says_yes [(1%nat, 0%nat)] true false
      SaveExamples.batch_state = (r, SaveExamples.batch_state, []) /\
    (r = Ok tt <->
     Forall (fun con => is_stopped (st_heap SaveExamples.batch_state (fst con)) = true)
       [(1%nat, 0%nat)]) /\
    (r <> Ok tt -> r = Raise SystemExit).
Proof.
  apply (yes_and_dry_confirm_no_edit SaveExamples.says_yes [(1%nat, 0%nat)] true false
           SaveExamples.batch_state).
  reflexivity.
Defined.

(** A dry run over the same fact twice. *)
Lemma dry_and_file_runs_need_distinct_pks_witness :
  exists r log,
    record_ready_facts SaveExamples.facts_save SaveExamples.mend_fact_timey_wimey
      SaveExamples.says_yes [0; 0]%nat false false true SaveExamples.batch_state
    = (r, SaveExamples.batch_state, log) /\
    (NoDup (map (fun a => pk (st_heap SaveExamples.batch_state a)) [0; 0]%nat) ->
     r = Ok (map (st_heap SaveExamples.batch_state) [0; 0]%nat) /\
     log = imap (fun i a => shown true (Nat.eqb i 0) (st_heap SaveExamples.batch_state a))
             [0; 0]%nat) /\
    (~ NoDup (map (fun a => pk (st_heap SaveExamples.batch_state a)) [0; 0]%nat) ->
     r = Raise KeyError).
Proof.
  apply (dry_and_file_runs_need_distinct_pks SaveExamples.facts_save
           SaveExamples.mend_fact_timey_wimey SaveExamples.says_yes
           [0; 0]%nat false false true SaveExamples.batch_state).
  reflexivity.
Defined.

(** A batch the store has no objection to. *)
Lemma every_fact_is_checked_against_the_store_witness :
  let fact1 := Examples.draft (-1) (TDatetime 0) (TDatetime 10) in
  let fact2 := Examples.draft (-2) (TDatetime 10) (TDatetime 20) in
  snd (must_not_conflict_existing Examples.mend_facts_times [fact1; fact2]) = Ok tt.
Proof.
  intros fact1 fact2.
  destruct (every_fact_is_checked_against_the_store Examples.mend_facts_times
              [fact1; fact2]) as (echoes & _ & _ & Hclean & _).
  apply Hclean. repeat constructor.
Defined.

(** An input whose first written line is not a fact. *)
Lemma parser_exits_exactly_without_a_first_fact_witness :
  parse_facts_from_stream StreamExamples.blank StreamExamples.dissect_meta_line
    [""; "notes"; "09:00 to 10:00 reading"]
  = Raise SystemExit.
Proof.
  apply (proj2 (parser_exits_exactly_without_a_first_fact StreamExamples.blank
                  StreamExamples.dissect_meta_line
                  [""; "notes"; "09:00 to 10:00 reading"])).
  right. exists [""], "notes", ["09:00 to 10:00 reading"].
  split; [reflexivity|]. split; [|split; reflexivity].
  constructor; [reflexivity|constructor].
Defined.

(** An export to tsv of the facts since a day: not implemented. *)
Lemma export_reads_then_writes_once_witness :
  ExportFacts.export_facts (fun _ : Z => Raise KeyError)
    (fun _ _ : option string => ([] : list nat)) "export"
    "tsv" (Some "2020-01-01") None None None
  = ([], ExportFacts.Failed ExportFacts.NotImplementedError).
Proof.
  apply (proj1 (proj2 (proj2 (ExportFacts.export_reads_then_writes_once
                                (fun _ : Z => Raise KeyError)
                                (fun _ _ : option string => ([] : list nat)) "export"
                                "tsv" (Some "2020-01-01") None None None))));
    reflexivity.
Defined.
